(** * Resilience toolkit: timeout, retry with backoff, circuit breaker

    A shallow embedding of [packages/resilience] of supabase-edge-toolkit
    ([types.ts], [timeout.ts], [retry.ts], [circuit_breaker.ts], [mod.ts])
    and the properties of the resilience triad.

    Conventions of the embedding.
    - Counters, status codes, attempt numbers, timeouts and clock readings
      are the integer-valued JavaScript numbers of the source and are
      modelled in [Z].
    - Retry delays go through [Math.pow], a fractional multiplier and a
      random jitter factor; they are JavaScript numbers proper, that is
      IEEE 754 binary64 values, with the rounding, the infinities and
      [NaN] of the arithmetic.
    - A timer delay is converted as the timer initialisation steps of
      the runtime convert it: to a signed 32-bit integer, a negative
      result counting as zero.
    - Asynchronous functions are state transformers over a [World]: the
      module-level breaker registry, the clock read by [Date.now()], the
      table of pending timers and the number of transport requests made.
      One cooperative task is followed at a time. *)

From Stdlib Require Import ZArith QArith Qminmax String Ascii List Bool Lia DecimalString SpecFloat.
From stdpp Require Import gmap strings.

Open Scope string_scope.
Open Scope Z_scope.

(** ** JavaScript numbers *)

Module Number.

(** A JavaScript number is an IEEE 754 binary64 value: 53 bits of
    precision, infinities at exponent 1024.  The arithmetic is that of
    the Standard Library's specification of floating-point numbers. *)
Definition prec : Z := 53.
Definition emax : Z := 1024.
Definition number := spec_float.

(** The number an integer literal denotes. *)
Definition ofZ (z : Z) : number := binary_normalize prec emax z 0 false.

(** The number a decimal literal denotes: the quotient [n / d] of two
    integers, rounded once. *)
Definition ofDecimal (n d : positive) : number :=
  SFdiv prec emax (S754_finite false n 0) (S754_finite false d 0).

(** [x * y], [x + y], [x < y], [x <= y] *)
Definition mul : number -> number -> number := SFmul prec emax.
Definition add : number -> number -> number := SFadd prec emax.
Definition ltb : number -> number -> bool := SFltb.

(** [Math.pow(base, exponent)] for an integral [exponent], following
    Number::exponentiate of ECMAScript.  The finite case, which the
    standard leaves to the implementation as an approximation, is the
    exact power rounded once; that is the power itself whenever it is
    representable. *)
Definition Math_pow (base : number) (exponent : Z) : number :=
  match exponent with
  | Z0 => ofZ 1
  | Zpos n =>
      match base with
      | S754_nan => S754_nan
      | S754_infinity s => S754_infinity (s && Z.odd exponent)
      | S754_zero s => S754_zero (s && Z.odd exponent)
      | S754_finite s m e =>
          binary_round prec emax (s && Z.odd exponent) (m ^ n) (e * Zpos n)
      end
  | Zneg n =>
      match base with
      | S754_nan => S754_nan
      | S754_infinity s => S754_zero (s && Z.odd exponent)
      | S754_zero s => S754_infinity (s && Z.odd exponent)
      | S754_finite s m e =>
          SFdiv prec emax (ofZ 1)
            (S754_finite (s && Z.odd exponent) (m ^ n) (e * Zpos n))
      end
  end.

(** [Math.min(x, y)]: [NaN] if either is [NaN]; [-0] is below [+0]. *)
Definition Math_min (x y : number) : number :=
  match SFcompare x y with
  | None => S754_nan
  | Some Lt => x
  | Some Gt => y
  | Some Eq =>
      match x, y with
      | S754_zero sx, S754_zero sy => S754_zero (sx || sy)
      | _, _ => x
      end
  end.

(** [Math.round(x)]: the integer nearest to [x], a tie going towards
    [+Infinity]; a result of zero keeps the sign of [x]. *)
Definition Math_round (x : number) : number :=
  match x with
  | S754_finite s m e =>
      if 0 <=? e then x
      else
        let n := (2 * cond_Zopp s (Zpos m) + 2 ^ (- e)) / 2 ^ (1 - e) in
        if n =? 0 then S754_zero s else ofZ n
  | _ => x
  end.

(** The integral part of a number, as the conversion of a timer delay
    takes it: zero for [NaN] and the infinities. *)
Definition truncate (x : number) : Z :=
  match x with
  | S754_finite s m e =>
      cond_Zopp s (if 0 <=? e then Zpos m * 2 ^ e else Zpos m / 2 ^ (- e))
  | _ => 0
  end.

(** [0 <= r < 1], the range of [Math.random()]. *)
Definition inUnitInterval (r : number) : bool :=
  match r with
  | S754_zero _ => true
  | S754_finite false m e => (e <? 0) && (Zpos m <? 2 ^ (- e))
  | _ => false
  end.

(** The rational a finite number stands for. *)
Definition toQ (x : number) : Q :=
  match x with
  | S754_finite s m e => (inject_Z (cond_Zopp s (Zpos m)) * 2 ^ e)%Q
  | _ => 0%Q
  end.

(** The canonical representation of [z * 2^t] for a mantissa of at most
    53 bits in the normal range. *)
Definition normal (s : bool) (z : positive) (t : Z) : number :=
  let d := Zpos (digits2_pos z) in
  S754_finite s (Z.to_pos (Zpos z * 2 ^ (53 - d))) (d + t - 53).

(** The exponent of the last place kept when [M * 2^E] is rounded
    without first being aligned. *)
Definition quantum (M : positive) (E : Z) : Z :=
  Z.max E (fexp prec emax (Zpos (digits2_pos M) + E)).

(** The result of rounding, from the rounded mantissa [m] at exponent
    [q]: a mantissa that has grown to [2^53] is renormalised. *)
Definition pack (s : bool) (m q : Z) : number :=
  match m with
  | Z0 => S754_zero s
  | Zpos p =>
      if m <? 2 ^ 53 then
        if q <=? 971 then S754_finite s p q else S754_infinity s
      else
        if q + 1 <=? 971 then S754_finite s (2 ^ 52) (q + 1)
        else S754_infinity s
  | Zneg _ => S754_nan
  end.

(** [lo / 2 <= x <= hi / 2] for a positive finite [x] that has a
    fractional part in its representation. *)
Definition halvesWithin (lo hi : Z) (x : number) : Prop :=
  match x with
  | S754_finite false m e =>
      e <= -1 /\ lo * 2 ^ (-1 - e) <= Zpos m <= hi * 2 ^ (-1 - e)
  | _ => False
  end.

End Number.

(** ** JavaScript values that travel through [throw] / [catch] *)

Module Js.

(** What [instanceof Error] and [typeof v === "object"] can tell apart. *)
Inductive Kind := ErrorInstance | PlainObject | Primitive.

(** Own fields of the two error subclasses that are inspected later. *)
Inductive Extra :=
| NoExtra
| TimeoutExtra (operation : string) (timeoutMs : Z)
| CircuitOpenExtra (serviceName : string) (remainingTimeoutMs : Z).

(** A thrown value.  A field is [Some] exactly when the [typeof] test the
    source performs on it succeeds ([number] for [statusCode] and
    [status], [string] for [code], [boolean] for [isRetryable]).
    [toString] is what [String(v)] yields. *)
Record Value := {
  kind : Kind;
  name : string;
  message : string;
  statusCode : option Z;
  status : option Z;
  code : option string;
  isRetryable : option bool;
  extra : Extra;
  toString : string
}.

Definition instanceofError (v : Value) : bool :=
  match kind v with ErrorInstance => true | _ => false end.

(** [error && typeof error === "object"] *)
Definition isObject (v : Value) : bool :=
  match kind v with Primitive => false | _ => true end.

(** [new Error(msg)] *)
Definition newError (msg : string) : Value :=
  {| kind := ErrorInstance; name := "Error"; message := msg;
     statusCode := None; status := None; code := None;
     isRetryable := None; extra := NoExtra;
     toString := "Error: " ++ msg |}.

(** Decimal rendering of an integer number in a template literal. *)
Definition numberToString (n : Z) : string :=
  NilZero.string_of_int (Z.to_int n).

(** [Array.prototype.includes] on numbers and on strings. *)
Definition includesZ (l : list Z) (x : Z) : bool := existsb (Z.eqb x) l.
Definition includesStr (l : list string) (x : string) : bool :=
  existsb (String.eqb x) l.

(** [String.prototype.toLowerCase], on the ASCII range. *)
Definition lowerAscii (c : ascii) : ascii :=
  let n := nat_of_ascii c in
  if (65 <=? n)%nat && (n <=? 90)%nat then ascii_of_nat (n + 32) else c.

Fixpoint toLowerCase (s : string) : string :=
  match s with
  | EmptyString => EmptyString
  | String c s' => String (lowerAscii c) (toLowerCase s')
  end.

(** [String.prototype.includes]: [pattern] occurs somewhere in [s]. *)
Fixpoint includes (s pattern : string) : bool :=
  if String.prefix pattern s then true
  else match s with
       | EmptyString => false
       | String _ s' => includes s' pattern
       end.

(** [parseInt(s, 10)]: leading white space, an optional sign, then the
    longest run of decimal digits; [None] stands for [NaN]. *)
Definition isSpace (c : ascii) : bool :=
  let n := nat_of_ascii c in
  (n =? 32)%nat || ((9 <=? n)%nat && (n <=? 13)%nat).

Definition digitOf (c : ascii) : option Z :=
  let n := nat_of_ascii c in
  if (48 <=? n)%nat && (n <=? 57)%nat then Some (Z.of_nat n - 48) else None.

Fixpoint skipSpaces (s : string) : string :=
  match s with
  | String c s' => if isSpace c then skipSpaces s' else s
  | EmptyString => s
  end.

Fixpoint digits (acc : option Z) (s : string) : option Z :=
  match s with
  | String c s' =>
      match digitOf c with
      | Some d => digits (Some (10 * default 0 acc + d)) s'
      | None => acc
      end
  | EmptyString => acc
  end.

Definition parseInt (s : string) : option Z :=
  match skipSpaces s with
  | String "-" s' => Z.opp <$> digits None s'
  | String "+" s' => digits None s'
  | s' => digits None s'
  end.

End Js.

(** ** [types.ts]: configuration records and presets *)

Module Types.

Definition DEFAULT_TIMEOUTS_EXTERNAL_API : Z := 10000.
Definition DEFAULT_TIMEOUTS_LLM : Z := 60000.
Definition DEFAULT_TIMEOUTS_DATABASE : Z := 5000.
Definition DEFAULT_TIMEOUTS_FAST : Z := 3000.

Record TimeoutConfig := { timeoutMs : Z }.

(** ["closed" | "open" | "half-open"] *)
Inductive CircuitState := closed | open | half_open.

Record CircuitBreakerConfig := {
  failureThreshold : Z;
  resetTimeoutMs : Z;
  successThreshold : Z;
  ignoredStatusCodes : option (list Z)
}.

Definition CIRCUIT_BREAKER_EXTERNAL_API : CircuitBreakerConfig :=
  {| failureThreshold := 5; resetTimeoutMs := 30000; successThreshold := 2;
     ignoredStatusCodes := Some [400; 401; 403; 404] |}.
Definition CIRCUIT_BREAKER_LLM : CircuitBreakerConfig :=
  {| failureThreshold := 3; resetTimeoutMs := 60000; successThreshold := 1;
     ignoredStatusCodes := Some [400; 404] |}.
Definition CIRCUIT_BREAKER_PAYMENT : CircuitBreakerConfig :=
  {| failureThreshold := 3; resetTimeoutMs := 60000; successThreshold := 2;
     ignoredStatusCodes := Some [400; 404] |}.
Definition CIRCUIT_BREAKER_RELAXED : CircuitBreakerConfig :=
  {| failureThreshold := 10; resetTimeoutMs := 15000; successThreshold := 3;
     ignoredStatusCodes := Some [400; 401; 403; 404] |}.

(** Snapshot returned by the [stats] getter.  [lastFailureTime] keeps the
    timestamp that the source renders with [toISOString]. *)
Record CircuitBreakerStats := {
  stats_name : string;
  stats_state : CircuitState;
  stats_failureCount : Z;
  stats_successCount : Z;
  stats_lastFailureTime : option Z;
  stats_lastError : option string;
  stats_remainingTimeoutMs : Z
}.

Record RetryConfig := {
  maxAttempts : Z;
  baseDelayMs : Number.number;
  maxDelayMs : Number.number;
  backoffMultiplier : option Number.number;
  jitter : option bool;
  retryableStatusCodes : option (list Z);
  retryableErrorCodes : option (list string)
}.

Definition RETRY_EXTERNAL_API : RetryConfig :=
  {| maxAttempts := 3; baseDelayMs := Number.ofZ 1000;
     maxDelayMs := Number.ofZ 10000;
     backoffMultiplier := Some (Number.ofZ 2); jitter := Some true;
     retryableStatusCodes := Some [429; 500; 502; 503; 504];
     retryableErrorCodes := None |}.
Definition RETRY_LLM : RetryConfig :=
  {| maxAttempts := 2; baseDelayMs := Number.ofZ 2000;
     maxDelayMs := Number.ofZ 30000;
     backoffMultiplier := Some (Number.ofZ 2); jitter := Some true;
     retryableStatusCodes := Some [429; 500; 502; 503; 504];
     retryableErrorCodes := None |}.
Definition RETRY_CRITICAL : RetryConfig :=
  {| maxAttempts := 2; baseDelayMs := Number.ofZ 500;
     maxDelayMs := Number.ofZ 2000;
     backoffMultiplier := Some (Number.ofZ 2); jitter := Some false;
     retryableStatusCodes := Some [503; 504];
     retryableErrorCodes := None |}.
Definition RETRY_AGGRESSIVE : RetryConfig :=
  {| maxAttempts := 5; baseDelayMs := Number.ofZ 500;
     maxDelayMs := Number.ofZ 15000;
     backoffMultiplier := Some (Number.ofZ 2); jitter := Some true;
     retryableStatusCodes := Some [429; 500; 502; 503; 504];
     retryableErrorCodes := None |}.

Record RetryContext := {
  ctx_attempt : Z;
  ctx_maxAttempts : Z;
  ctx_lastError : Js.Value;
  ctx_delayMs : Number.number
}.

(** A switch of [ResilientFetchConfig]: the key is absent, is the literal
    [false], or carries a configuration object. *)
Inductive Switch (A : Type) := Unset | Disabled | Custom (a : A).
Arguments Unset {A}.
Arguments Disabled {A}.
Arguments Custom {A} a.

(** [timeout?: TimeoutConfig | number] *)
Inductive TimeoutSetting :=
| TimeoutNumber (ms : Z)
| TimeoutObject (ms : option Z).

(** [Partial<ResilientFetchConfig>] *)
Record ResilientFetchConfig := {
  serviceName : option string;
  timeout : option TimeoutSetting;
  circuitBreaker : Switch CircuitBreakerConfig;
  retry : Switch RetryConfig
}.

End Types.

(** ** The process state shared by the asynchronous functions *)

Module Runtime.
Import Types.

(** [interface CircuitBreakerState] of [circuit_breaker.ts]; an optional
    field that is absent or [undefined] is [None]. *)
Record CircuitBreakerState := {
  state : CircuitState;
  failureCount : Z;
  successCount : Z;
  lastFailureTime : option Z;
  openedAt : option Z;
  lastError : option string
}.

(** The registry [circuitRegistry], the clock, the pending timers
    (identifier to due time) and the number of transport requests. *)
Record World := {
  circuitRegistry : gmap string CircuitBreakerState;
  now : Z;
  nextTimerId : nat;
  timers : gmap nat Z;
  requests : nat
}.

Definition setRegistry (reg : gmap string CircuitBreakerState) (w : World) : World :=
  {| circuitRegistry := reg; now := now w; nextTimerId := nextTimerId w;
     timers := timers w; requests := requests w |}.

(** Outcome of awaiting a promise. *)
Inductive Result (E T : Type) :=
| Ok (v : T)
| Throw (e : E).
Arguments Ok {E T} v.
Arguments Throw {E T} e.

(** An asynchronous operation [() => Promise<T>]. *)
Definition Op (T : Type) : Type := World -> Result Js.Value T * World.

(** The conversion of an integral number to a signed 32-bit integer
    (the [long] of Web IDL): it wraps around modulo [2^32]. *)
Definition toInt32 (n : Z) : Z :=
  (n + 2147483648) mod 4294967296 - 2147483648.

(** The delay a timer is armed with when [setTimeout] is given [ms]: the
    converted value, a negative one counting as zero.  Within
    [0 .. 2147483647] it is [ms] itself. *)
Definition timerDelay (ms : Z) : Z := Z.max 0 (toInt32 ms).

(** [setTimeout(callback, ms)]: registers a timer due [timerDelay ms]
    from now and returns its identifier. *)
Definition setTimeout (ms : Z) (w : World) : nat * World :=
  (nextTimerId w,
   {| circuitRegistry := circuitRegistry w; now := now w;
      nextTimerId := S (nextTimerId w);
      timers := <[nextTimerId w := now w + timerDelay ms]> (timers w);
      requests := requests w |}).

(** [clearTimeout(id)] *)
Definition clearTimeout (id : nat) (w : World) : World :=
  {| circuitRegistry := circuitRegistry w; now := now w;
     nextTimerId := nextTimerId w;
     timers := delete id (timers w);
     requests := requests w |}.

(** The task is suspended for [d] milliseconds: the clock advances and
    every timer that has come due fires, which removes it from the
    table. *)
Definition elapse (d : Z) (w : World) : World :=
  let t := now w + Z.max 0 d in
  {| circuitRegistry := circuitRegistry w; now := t;
     nextTimerId := nextTimerId w;
     timers := filter (fun kv => t < snd kv) (timers w);
     requests := requests w |}.

Definition countRequest (w : World) : World :=
  {| circuitRegistry := circuitRegistry w; now := now w;
     nextTimerId := nextTimerId w; timers := timers w;
     requests := S (requests w) |}.

End Runtime.

(** ** [timeout.ts] *)

Module TimeoutGuard.
Import Types Runtime.

(** [new TimeoutError(operation, timeoutMs)] *)
Definition TimeoutError (operation : string) (timeoutMs : Z) : Js.Value :=
  let msg := "Operation '" ++ operation ++ "' timed out after "
               ++ Js.numberToString timeoutMs ++ "ms" in
  {| Js.kind := Js.ErrorInstance; Js.name := "TimeoutError";
     Js.message := msg;
     Js.statusCode := None; Js.status := None;
     Js.code := Some "TIMEOUT"; Js.isRetryable := Some true;
     Js.extra := Js.TimeoutExtra operation timeoutMs;
     Js.toString := "TimeoutError[" ++ operation ++ "]: timed out after "
                      ++ Js.numberToString timeoutMs ++ "ms" |}.

Definition instanceofTimeoutError (v : Js.Value) : bool :=
  match Js.extra v with Js.TimeoutExtra _ _ => true | _ => false end.

(** A promise that is already running when it is handed over: it settles
    [settlesAfter] milliseconds from now with [outcome], or never. *)
Record Promise (T : Type) := {
  settlesAfter : option Z;
  outcome : Result Js.Value T
}.
Arguments settlesAfter {T} p.
Arguments outcome {T} p.

(** [Promise.race([promise, timeoutPromise])]: the promise wins when it
    settles no later than the timer, armed with [timerDelay timeoutMs],
    comes due. *)
Definition race {T} (promise : Promise T) (timeoutMs : Z) (timeout : Js.Value)
    (w : World) : Result Js.Value T * World :=
  match settlesAfter promise with
  | Some d =>
      if d <=? timerDelay timeoutMs then (outcome promise, elapse d w)
      else (Throw timeout, elapse (timerDelay timeoutMs) w)
  | None => (Throw timeout, elapse (timerDelay timeoutMs) w)
  end.

(** [withTimeout(promise, timeoutMs, operation = "unknown")] *)
Definition withTimeout {T} (promise : Promise T) (timeoutMs : Z)
    (operation : option string) (w : World) : Result Js.Value T * World :=
  let operation := default "unknown" operation in
  let '(timeoutId, w) := setTimeout timeoutMs w in
  let '(result, w) := race promise timeoutMs (TimeoutError operation timeoutMs) w in
  (* finally *)
  (result, clearTimeout timeoutId w).

(** An [AbortController] whose signal aborts by itself: the timer that
    will abort it and the time at which that timer is due. *)
Record AbortController := {
  abortTimer : nat;
  abortsAt : Z;
  abortReason : Js.Value
}.

(** [createTimeoutController(timeoutMs)] *)
Definition createTimeoutController (timeoutMs : Z) (w : World)
    : AbortController * World :=
  let '(id, w') := setTimeout timeoutMs w in
  ({| abortTimer := id; abortsAt := now w + timerDelay timeoutMs;
      abortReason := TimeoutError "fetch" timeoutMs |}, w').

(** The fetch [Response], of which only the status is read. *)
Record Response := { response_status : Z }.

(** What the transport does with one request when nobody aborts it. *)
Inductive Behaviour :=
| Responds (r : Response) (latency : Z)
| Rejects (e : Js.Value) (latency : Z)
| Hangs.

(** The injectable transport: behaviour of the request number [n]. *)
Definition Transport := nat -> Behaviour.

(** Rejection of [fetch] when its signal is aborted. *)
Definition AbortError : Js.Value :=
  {| Js.kind := Js.ErrorInstance; Js.name := "AbortError";
     Js.message := "The signal has been aborted";
     Js.statusCode := None; Js.status := None; Js.code := None;
     Js.isRetryable := None; Js.extra := Js.NoExtra;
     Js.toString := "AbortError: The signal has been aborted" |}.

(** [fetch(url, { ...options, signal })] under a timer, set with
    [timeoutMs], that aborts the signal when it comes due. *)
Definition fetch (transport : Transport) (timeoutMs : Z) (w : World)
    : Result Js.Value Response * World :=
  let behaviour := transport (requests w) in
  let w := countRequest w in
  match behaviour with
  | Responds r d =>
      if d <=? timerDelay timeoutMs then (Ok r, elapse d w)
      else (Throw AbortError, elapse (timerDelay timeoutMs) w)
  | Rejects e d =>
      if d <=? timerDelay timeoutMs then (Throw e, elapse d w)
      else (Throw AbortError, elapse (timerDelay timeoutMs) w)
  | Hangs => (Throw AbortError, elapse (timerDelay timeoutMs) w)
  end.

(** [fetchWithTimeout(url, options, timeoutMs)] *)
Definition fetchWithTimeout (transport : Transport) (timeoutMs : Z)
    : Op Response :=
  fun w =>
    let '(timeoutId, w) := setTimeout timeoutMs w in
    let '(result, w) := fetch transport timeoutMs w in
    let result :=
      match result with
      | Ok response => Ok response
      | Throw error =>
          if Js.instanceofError error && String.eqb (Js.name error) "AbortError"
          then Throw (TimeoutError "fetch" timeoutMs)
          else Throw error
      end in
    (* finally *)
    (result, clearTimeout timeoutId w).

(** [isTimeoutError(error)] *)
Definition isTimeoutError (error : Js.Value) : bool :=
  instanceofTimeoutError error
  || (Js.instanceofError error && String.eqb (Js.name error) "AbortError").

End TimeoutGuard.

(** ** [retry.ts] *)

Module Retry.
Import Types Runtime.

(** [class RetryError]; its [code] is ["RETRY_EXHAUSTED"] and its
    [isRetryable] getter answers [false]. *)
Record RetryError := {
  retry_message : string;
  attempts : Z;
  lastError : Js.Value
}.

(** [calculateRetryDelay(attempt, config)]; [random] is the value that
    [Math.random()] returns when the jitter branch asks for it. *)
Definition calculateRetryDelay (attempt : Z) (config : RetryConfig)
    (random : Number.number) : Number.number :=
  let multiplier := default (Number.ofZ 2) (backoffMultiplier config) in
  (* Exponential backoff: baseDelay * multiplier^(attempt-1) *)
  let delay :=
    Number.mul (baseDelayMs config) (Number.Math_pow multiplier (attempt - 1)) in
  (* Cap at maxDelay *)
  let delay := Number.Math_min delay (maxDelayMs config) in
  if default false (jitter config) then
    let jitterFactor := Number.add (Number.ofDecimal 1 2) random in
    Number.Math_round (Number.mul delay jitterFactor)
  else delay.

Definition retryableNames : list string :=
  ["TimeoutError"; "AbortError"; "NetworkError"].

Definition retryablePatterns : list string :=
  ["timeout"; "timed out"; "rate limit"; "too many requests";
   "service unavailable"; "bad gateway"; "gateway timeout";
   "network error"; "connection refused"; "econnreset"].

(** [isRetryableError(error, config)] *)
Definition isRetryableError (error : Js.Value) (config : RetryConfig) : bool :=
  let retryableCodes :=
    default [429; 500; 502; 503; 504] (retryableStatusCodes config) in
  let retryableErrorCodes := default [] (retryableErrorCodes config) in
  if negb (Js.instanceofError error) then false
  else if match Js.statusCode error with
          | Some n => Js.includesZ retryableCodes n
          | None => false
          end then true
  else if match Js.status error with
          | Some n => Js.includesZ retryableCodes n
          | None => false
          end then true
  else if match Js.code error with
          | Some c =>
              match Js.parseInt c with
              | Some numericCode => Js.includesZ retryableCodes numericCode
              | None => false
              end
              || Js.includesStr retryableErrorCodes c
          | None => false
          end then true
  else match Js.isRetryable error with
       | Some b => b
       | None =>
           if Js.includesStr retryableNames (Js.name error) then true
           else
             let message := Js.toLowerCase (Js.message error) in
             existsb (fun pattern => Js.includes message pattern)
                     retryablePatterns
       end.

(** [sleep(ms)]: a timer is set and the task resumes when it fires.
    The conversion of the delay first drops its fractional part. *)
Definition sleep (ms : Number.number) (w : World) : World :=
  let '(_, w) := setTimeout (Number.truncate ms) w in
  elapse (timerDelay (Number.truncate ms)) w.

Section WithRetry.
Context {T : Type}.
Variable operation : Op T.
Variable config : RetryConfig.
Variable onRetry : option (RetryContext -> World -> World).
(** The value [Math.random()] returns while attempt [n] is handled. *)
Variable random : Z -> Number.number.

(** The statement after the loop: [throw new RetryError(...)]. *)
Definition exhausted (lastError : option Js.Value) : RetryError :=
  {| retry_message :=
       "Operation failed after " ++ Js.numberToString (maxAttempts config)
         ++ " attempts: "
         ++ match lastError with
            | Some e => Js.message e
            | None => "undefined"
            end;
     attempts := maxAttempts config;
     lastError := default (Js.newError "Unknown error") lastError |}.

(** The [for] loop of [withRetry], entered with the current value of
    [attempt] and [lastError].  [fuel] bounds the number of
    iterations; [None] means the bound was too small. *)
Fixpoint retryLoop (fuel : nat) (attempt : Z) (lastError : option Js.Value)
    (w : World) : option (Result RetryError T * World) :=
  if attempt <=? maxAttempts config then
    match fuel with
    | O => None
    | S fuel =>
        match operation w with
        | (Ok v, w) => Some (Ok v, w)
        | (Throw error, w) =>
            let err :=
              if Js.instanceofError error then error
              else Js.newError (Js.toString error) in
            let lastError := Some err in
            if attempt >=? maxAttempts config then
              (* No more attempts *)
              Some (Throw (exhausted lastError), w)
            else if negb (isRetryableError error config) then
              (* Not a retryable error *)
              Some (Throw (exhausted lastError), w)
            else
              let delayMs := calculateRetryDelay attempt config (random attempt) in
              let w :=
                match onRetry with
                | Some callback =>
                    callback {| ctx_attempt := attempt;
                                ctx_maxAttempts := maxAttempts config;
                                ctx_lastError := err;
                                ctx_delayMs := delayMs |} w
                | None => w
                end in
              let w := sleep delayMs w in
              retryLoop fuel (attempt + 1) lastError w
        end
    end
  else Some (Throw (exhausted lastError), w).

(** [withRetry(operation, config, onRetry)]: the loop starts at
    attempt 1 and runs at most [maxAttempts] times. *)
Definition withRetry (w : World) : option (Result RetryError T * World) :=
  retryLoop (Z.to_nat (maxAttempts config)) 1 None w.

End WithRetry.

End Retry.

(** ** [circuit_breaker.ts] *)

Module CircuitBreaker.
Import Types Runtime.

(** [Math.ceil(ms / 1000)] on an integer number of milliseconds. *)
Definition ceilSeconds (ms : Z) : Z := (ms + 999) / 1000.

(** [new CircuitBreakerOpenError(serviceName, remainingTimeoutMs)] *)
Definition CircuitBreakerOpenError (serviceName : string)
    (remainingTimeoutMs : Z) : Js.Value :=
  let secs := Js.numberToString (ceilSeconds remainingTimeoutMs) in
  {| Js.kind := Js.ErrorInstance; Js.name := "CircuitBreakerOpenError";
     Js.message := "Circuit breaker '" ++ serviceName ++ "' is OPEN, "
                     ++ "retry after " ++ secs ++ "s";
     Js.statusCode := None; Js.status := None;
     Js.code := Some "CIRCUIT_OPEN"; Js.isRetryable := Some false;
     Js.extra := Js.CircuitOpenExtra serviceName remainingTimeoutMs;
     Js.toString := "CircuitBreakerOpenError[" ++ serviceName
                      ++ "]: open, retry after " ++ secs ++ "s" |}.

(** The record a name starts with: closed, both counters zero. *)
Definition initialState : CircuitBreakerState :=
  {| state := closed; failureCount := 0; successCount := 0;
     lastFailureTime := None; openedAt := None; lastError := None |}.

(** [Partial<CircuitBreakerState>]: the keys an update object carries.
    A key of an optional field may be present with value [undefined]. *)
Record Update := {
  u_state : option CircuitState;
  u_failureCount : option Z;
  u_successCount : option Z;
  u_lastFailureTime : option (option Z);
  u_openedAt : option (option Z);
  u_lastError : option (option string)
}.

Definition noUpdate : Update :=
  {| u_state := None; u_failureCount := None; u_successCount := None;
     u_lastFailureTime := None; u_openedAt := None; u_lastError := None |}.

(** [{ ...current, ...update }] *)
Definition spread (current : CircuitBreakerState) (update : Update)
    : CircuitBreakerState :=
  {| state := default (state current) (u_state update);
     failureCount := default (failureCount current) (u_failureCount update);
     successCount := default (successCount current) (u_successCount update);
     lastFailureTime :=
       default (lastFailureTime current) (u_lastFailureTime update);
     openedAt := default (openedAt current) (u_openedAt update);
     lastError := default (lastError current) (u_lastError update) |}.

(** Truthiness of an optional timestamp: present and not zero. *)
Definition truthy (t : option Z) : bool :=
  match t with Some n => negb (n =? 0) | None => false end.

Definition CircuitState_eqb (a b : CircuitState) : bool :=
  match a, b with
  | closed, closed | open, open | half_open, half_open => true
  | _, _ => false
  end.

(** A handle: [_name] and [_config] of a [CircuitBreaker] instance. *)
Record CircuitBreaker := {
  _name : string;
  _config : CircuitBreakerConfig
}.

(** [static getOrCreate(name, config = EXTERNAL_API)] *)
Definition getOrCreate (name : string) (config : option CircuitBreakerConfig)
    (reg : gmap string CircuitBreakerState)
    : CircuitBreaker * gmap string CircuitBreakerState :=
  let config := default CIRCUIT_BREAKER_EXTERNAL_API config in
  let reg :=
    match reg !! name with
    | None => <[name := initialState]> reg
    | Some _ => reg
    end in
  ({| _name := name; _config := config |}, reg).

Definition forExternalApi (name : string) :=
  getOrCreate name (Some CIRCUIT_BREAKER_EXTERNAL_API).
Definition forLLM (name : string) :=
  getOrCreate name (Some CIRCUIT_BREAKER_LLM).
Definition forPayment (name : string) :=
  getOrCreate name (Some CIRCUIT_BREAKER_PAYMENT).

Section Methods.
Variable this : CircuitBreaker.

(** [private getState()] *)
Definition getState (reg : gmap string CircuitBreakerState)
    : CircuitBreakerState :=
  default initialState (reg !! _name this).

(** [private setState(update)] *)
Definition setState (update : Update)
    (reg : gmap string CircuitBreakerState)
    : gmap string CircuitBreakerState :=
  let current := getState reg in
  <[_name this := spread current update]> reg.

(** [get state()] *)
Definition get_state (reg : gmap string CircuitBreakerState) : CircuitState :=
  state (getState reg).

(** [private transitionTo(newState)] *)
Definition transitionTo (newState : CircuitState) (now : Z)
    (reg : gmap string CircuitBreakerState)
    : gmap string CircuitBreakerState :=
  let updates :=
    match newState with
    | open =>
        {| u_state := Some newState; u_failureCount := None;
           u_successCount := Some 0; u_lastFailureTime := None;
           u_openedAt := Some (Some now); u_lastError := None |}
    | half_open =>
        {| u_state := Some newState; u_failureCount := None;
           u_successCount := Some 0; u_lastFailureTime := None;
           u_openedAt := None; u_lastError := None |}
    | closed =>
        {| u_state := Some newState; u_failureCount := Some 0;
           u_successCount := Some 0; u_lastFailureTime := None;
           u_openedAt := Some None; u_lastError := Some None |}
    end in
  setState updates reg.

(** [private checkStateTransition()] *)
Definition checkStateTransition (now : Z)
    (reg : gmap string CircuitBreakerState)
    : gmap string CircuitBreakerState :=
  let s := getState reg in
  if CircuitState_eqb (state s) open && truthy (openedAt s) then
    let elapsed := now - default 0 (openedAt s) in
    if elapsed >=? resetTimeoutMs (_config this)
    then transitionTo half_open now reg
    else reg
  else reg.

(** [get isAllowingRequests()] *)
Definition isAllowingRequests (now : Z)
    (reg : gmap string CircuitBreakerState)
    : bool * gmap string CircuitBreakerState :=
  let reg := checkStateTransition now reg in
  let s := state (getState reg) in
  (CircuitState_eqb s closed || CircuitState_eqb s half_open, reg).

(** [get remainingTimeoutMs()] *)
Definition remainingTimeoutMs (now : Z)
    (reg : gmap string CircuitBreakerState) : Z :=
  let s := getState reg in
  if negb (CircuitState_eqb (state s) open) || negb (truthy (openedAt s))
  then 0
  else
    let elapsed := now - default 0 (openedAt s) in
    let remaining := resetTimeoutMs (_config this) - elapsed in
    if remaining >? 0 then remaining else 0.

(** [get stats()] *)
Definition stats (now : Z) (reg : gmap string CircuitBreakerState)
    : CircuitBreakerStats :=
  let s := getState reg in
  {| stats_name := _name this;
     stats_state := state s;
     stats_failureCount := failureCount s;
     stats_successCount := successCount s;
     stats_lastFailureTime :=
       if truthy (lastFailureTime s) then lastFailureTime s else None;
     stats_lastError := lastError s;
     stats_remainingTimeoutMs := remainingTimeoutMs now reg |}.

(** [private onSuccess()] *)
Definition onSuccess (now : Z) (reg : gmap string CircuitBreakerState)
    : gmap string CircuitBreakerState :=
  let s := getState reg in
  match state s with
  | half_open =>
      let newCount := successCount s + 1 in
      if newCount >=? successThreshold (_config this)
      then transitionTo closed now reg
      else setState {| u_state := None; u_failureCount := None;
                       u_successCount := Some newCount;
                       u_lastFailureTime := None; u_openedAt := None;
                       u_lastError := None |} reg
  | closed =>
      (* Reset failure count on success *)
      setState {| u_state := None; u_failureCount := Some 0;
                  u_successCount := None; u_lastFailureTime := None;
                  u_openedAt := None; u_lastError := None |} reg
  | open => reg
  end.

(** [private shouldIgnoreError(error)] *)
Definition shouldIgnoreError (error : Js.Value) : bool :=
  let ignoredCodes := default [] (ignoredStatusCodes (_config this)) in
  if Js.isObject error then
    if match Js.statusCode error with
       | Some n => Js.includesZ ignoredCodes n
       | None => false
       end then true
    else if match Js.status error with
            | Some n => Js.includesZ ignoredCodes n
            | None => false
            end then true
    else match Js.code error with
         | Some c =>
             match Js.parseInt c with
             | Some numericCode => Js.includesZ ignoredCodes numericCode
             | None => false
             end
         | None => false
         end
  else false.

(** [private onFailure(error)] *)
Definition onFailure (error : Js.Value) (now : Z)
    (reg : gmap string CircuitBreakerState)
    : gmap string CircuitBreakerState :=
  if shouldIgnoreError error then reg
  else
    let errorMessage :=
      if Js.instanceofError error then Js.message error
      else Js.toString error in
    let s := getState reg in
    let reg :=
      setState {| u_state := None; u_failureCount := None;
                  u_successCount := None;
                  u_lastFailureTime := Some (Some now); u_openedAt := None;
                  u_lastError := Some (Some (String.substring 0 200 errorMessage)) |}
               reg in
    match state s with
    | half_open =>
        (* Any failure in half-open immediately reopens the circuit *)
        transitionTo open now reg
    | closed =>
        let newCount := failureCount s + 1 in
        if newCount >=? failureThreshold (_config this)
        then transitionTo open now reg
        else setState {| u_state := None; u_failureCount := Some newCount;
                         u_successCount := None; u_lastFailureTime := None;
                         u_openedAt := None; u_lastError := None |} reg
    | open => reg
    end.

(** [async call(operation)] *)
Definition call {T : Type} (operation : Op T) : Op T :=
  fun w =>
    (* Check and potentially transition state *)
    let w := setRegistry (checkStateTransition (now w) (circuitRegistry w)) w in
    let currentState := getState (circuitRegistry w) in
    match state currentState with
    | open =>
        (Throw (CircuitBreakerOpenError (_name this)
                  (remainingTimeoutMs (now w) (circuitRegistry w))), w)
    | _ =>
        match operation w with
        | (Ok result, w) =>
            (Ok result, setRegistry (onSuccess (now w) (circuitRegistry w)) w)
        | (Throw error, w) =>
            (Throw error,
             setRegistry (onFailure error (now w) (circuitRegistry w)) w)
        end
    end.

(** [forceOpen()], [forceClose()], [reset()] *)
Definition forceOpen (now : Z) := transitionTo open now.
Definition forceClose (now : Z) := transitionTo closed now.
Definition reset (reg : gmap string CircuitBreakerState)
    : gmap string CircuitBreakerState :=
  <[_name this := initialState]> reg.

End Methods.

(** [static resetAll()] and [static clearAll()] *)
Definition resetAll (reg : gmap string CircuitBreakerState)
    : gmap string CircuitBreakerState :=
  (fun _ => initialState) <$> reg.

Definition clearAll (reg : gmap string CircuitBreakerState)
    : gmap string CircuitBreakerState := ∅.

End CircuitBreaker.

(** ** [mod.ts]: the combined call *)

Module Resilience.
Import Types Runtime.

(** What a call of [resilientFetch] can throw: the exhaustion failure of
    the retry layer, or (retry disabled) whatever the inner layers threw. *)
Inductive Failure :=
| Exhausted (e : Retry.RetryError)
| Raw (e : Js.Value).

(** The error the inner [operation] throws for a 5xx response:
    [new Error(`HTTP ${response.status}`)] with [statusCode] set. *)
Definition httpError (status : Z) : Js.Value :=
  {| Js.kind := Js.ErrorInstance; Js.name := "Error";
     Js.message := "HTTP " ++ Js.numberToString status;
     Js.statusCode := Some status; Js.status := None; Js.code := None;
     Js.isRetryable := None; Js.extra := Js.NoExtra;
     Js.toString := "Error: HTTP " ++ Js.numberToString status |}.

(** The closure [operation] of [resilientFetch]. *)
Definition operation (transport : TimeoutGuard.Transport) (timeoutMs : Z)
    : Op TimeoutGuard.Response :=
  fun w =>
    match TimeoutGuard.fetchWithTimeout transport timeoutMs w with
    | (Ok response, w) =>
        (* Throw on server errors to trigger circuit breaker *)
        if TimeoutGuard.response_status response >=? 500
        then (Throw (httpError (TimeoutGuard.response_status response)), w)
        else (Ok response, w)
    | (Throw e, w) => (Throw e, w)
    end.

(** [resilientFetch(url, init, config)]; the transport stands for the
    global [fetch] applied to [url] and [init], and [random] feeds the
    jitter of the retry layer. *)
Definition resilientFetch (transport : TimeoutGuard.Transport)
    (config : option ResilientFetchConfig) (random : Z -> Number.number)
    (w : World)
    : option (Result Failure TimeoutGuard.Response * World) :=
  let serviceName := default "unknown" (config ≫= serviceName) in
  let timeoutMs :=
    match config ≫= timeout with
    | Some (TimeoutNumber ms) => ms
    | Some (TimeoutObject ms) => default DEFAULT_TIMEOUTS_EXTERNAL_API ms
    | None => DEFAULT_TIMEOUTS_EXTERNAL_API
    end in
  let circuitBreakerSwitch := default Unset (circuitBreaker <$> config) in
  let retrySwitch := default Unset (retry <$> config) in
  (* Get circuit breaker (if not disabled) *)
  let useCircuitBreaker :=
    match circuitBreakerSwitch with Disabled => false | _ => true end in
  let circuitBreakerConfig :=
    match circuitBreakerSwitch with
    | Custom c => c
    | _ => CIRCUIT_BREAKER_EXTERNAL_API
    end in
  let '(breaker, w) :=
    if useCircuitBreaker then
      let '(b, reg) :=
        CircuitBreaker.getOrCreate serviceName (Some circuitBreakerConfig)
          (circuitRegistry w) in
      (Some b, setRegistry reg w)
    else (None, w) in
  (* Get retry config (if not disabled) *)
  let useRetry := match retrySwitch with Disabled => false | _ => true end in
  let retryConfig :=
    match retrySwitch with
    | Custom c => c
    | _ => RETRY_EXTERNAL_API
    end in
  let operation := operation transport timeoutMs in
  (* Wrap with circuit breaker if enabled *)
  let withCircuitBreaker :=
    match breaker with
    | Some breaker => CircuitBreaker.call breaker operation
    | None => operation
    end in
  (* Wrap with retry if enabled *)
  if useRetry then
    match Retry.withRetry withCircuitBreaker retryConfig None random w with
    | Some (Ok response, w) => Some (Ok response, w)
    | Some (Throw e, w) => Some (Throw (Exhausted e), w)
    | None => None
    end
  else
    match withCircuitBreaker w with
    | (Ok response, w) => Some (Ok response, w)
    | (Throw e, w) => Some (Throw (Raw e), w)
    end.

End Resilience.

(** ** Scenarios: operations described by how they behave *)

Module Scenario.
Import Types Runtime.

(** The world after [n] calls of [operation] through the handle, one
    after the other, each starting when the previous one has settled. *)
Fixpoint callsN {T} (this : CircuitBreaker.CircuitBreaker) (operation : Op T)
    (n : nat) (w : World) : World :=
  match n with
  | O => w
  | S n => callsN this operation n (snd (CircuitBreaker.call this operation w))
  end.

(** The operation leaves the breaker registry alone. *)
Definition keepsRegistry {T} (operation : Op T) : Prop :=
  forall w, circuitRegistry (snd (operation w)) = circuitRegistry w.

(** Every invocation throws, and the handle does not ignore the error. *)
Definition failsCounted {T} (this : CircuitBreaker.CircuitBreaker)
    (operation : Op T) : Prop :=
  forall w, exists e,
    fst (operation w) = Throw e /\ CircuitBreaker.shouldIgnoreError this e = false.

(** Every invocation throws an error the handle ignores. *)
Definition failsIgnored {T} (this : CircuitBreaker.CircuitBreaker)
    (operation : Op T) : Prop :=
  forall w, exists e,
    fst (operation w) = Throw e /\ CircuitBreaker.shouldIgnoreError this e = true.

(** The operation sets no timer that outlives it. *)
Definition leavesNoTimer {T} (operation : Op T) : Prop :=
  forall w, timers (snd (operation w)) ⊆ timers w.

(** Every invocation returns a value. *)
Definition succeeds {T} (operation : Op T) : Prop :=
  forall w, exists v, fst (operation w) = Ok v.

(** An operation that issues one request, takes [d] milliseconds and
    settles with [r]. *)
Definition settling {T} (r : Result Js.Value T) (d : Z) : Op T :=
  fun w => (r, elapse d (countRequest w)).

(** A thrown [Error] with a [statusCode]. *)
Definition statusError (msg : string) (statusCode : Z) : Js.Value :=
  {| Js.kind := Js.ErrorInstance; Js.name := "Error"; Js.message := msg;
     Js.statusCode := Some statusCode; Js.status := None; Js.code := None;
     Js.isRetryable := None; Js.extra := Js.NoExtra;
     Js.toString := "Error: " ++ msg |}.

(** A world in which nothing has happened yet, at clock reading [t]. *)
Definition freshWorld (t : Z) : World :=
  {| circuitRegistry := ∅; now := t; nextTimerId := 0; timers := ∅;
     requests := 0 |}.



(** The capped delay before jitter, as the code computes it:
    [Math.min(base * Math.pow(mult, n - 1), max)]. *)
Definition capped (config : RetryConfig) (n : Z) : Number.number :=
  Number.Math_min
    (Number.mul (baseDelayMs config)
       (Number.Math_pow (default (Number.ofZ 2) (backoffMultiplier config))
          (n - 1)))
    (maxDelayMs config).


(** The thresholds a handle applies are those of its own [_config]:
    which state a failure, a success or the passing of time leads to
    depends on the shared record and on the handle's configuration. *)
Definition appliesOwnPolicy (h : CircuitBreaker.CircuitBreaker) : Prop :=
  (forall e t r,
      CircuitBreaker.shouldIgnoreError h e = false ->
      state (CircuitBreaker.getState h r) = closed ->
      CircuitBreaker.get_state h (CircuitBreaker.onFailure h e t r) =
      if failureCount (CircuitBreaker.getState h r) + 1
           >=? failureThreshold (CircuitBreaker._config h)
      then open else closed) /\
  (forall t r,
      state (CircuitBreaker.getState h r) = half_open ->
      CircuitBreaker.get_state h (CircuitBreaker.onSuccess h t r) =
      if successCount (CircuitBreaker.getState h r) + 1
           >=? successThreshold (CircuitBreaker._config h)
      then closed else half_open) /\
  (forall t o r,
      state (CircuitBreaker.getState h r) = open ->
      openedAt (CircuitBreaker.getState h r) = Some o -> o <> 0 ->
      CircuitBreaker.get_state h (CircuitBreaker.checkStateTransition h t r) =
      if t - o >=? resetTimeoutMs (CircuitBreaker._config h)
      then half_open else open).

(** Concrete inputs used to exercise the statements below. *)
Definition exampleConfig : CircuitBreakerConfig :=
  {| failureThreshold := 3; resetTimeoutMs := 1000; successThreshold := 2;
     ignoredStatusCodes := Some [400; 404] |}.

Definition exampleBreaker : CircuitBreaker.CircuitBreaker :=
  {| CircuitBreaker._name := "svc"; CircuitBreaker._config := exampleConfig |}.

(** A breaker that probes again at once: [resetTimeoutMs] is zero. *)
Definition eagerBreaker : CircuitBreaker.CircuitBreaker :=
  {| CircuitBreaker._name := "svc";
     CircuitBreaker._config :=
       {| failureThreshold := 1; resetTimeoutMs := 0; successThreshold := 1;
          ignoredStatusCodes := None |} |}.

Definition failing500 : Op unit := settling (Throw (statusError "boom" 500)) 5.
Definition failing404 : Op unit := settling (Throw (statusError "Not found" 404)) 5.
Definition returning : Op unit := settling (Ok tt) 5.

(** A world whose record for ["svc"] is half-open with no success yet. *)
Definition halfOpenWorld : World :=
  setRegistry
    {[ "svc" := {| state := half_open; failureCount := 2; successCount := 0;
                   lastFailureTime := Some 900; openedAt := Some 900;
                   lastError := Some "boom" |} ]}
    (freshWorld 2000).

(** A world whose record for ["svc"] is closed, one failure short of
    the threshold of [exampleConfig]. *)
Definition nearlyOpenWorld : World :=
  setRegistry
    {[ "svc" := {| state := closed; failureCount := 2; successCount := 0;
                   lastFailureTime := Some 900; openedAt := None;
                   lastError := Some "boom" |} ]}
    (freshWorld 2000).

Definition config3 : RetryConfig :=
  {| maxAttempts := 3; baseDelayMs := Number.ofZ 10;
     maxDelayMs := Number.ofZ 100;
     backoffMultiplier := None; jitter := None;
     retryableStatusCodes := None; retryableErrorCodes := None |}.

(** base 100, cap 10000, multiplier 2, no jitter. *)
Definition plainBackoff : RetryConfig :=
  {| maxAttempts := 3; baseDelayMs := Number.ofZ 100;
     maxDelayMs := Number.ofZ 10000;
     backoffMultiplier := Some (Number.ofZ 2); jitter := Some false;
     retryableStatusCodes := None; retryableErrorCodes := None |}.

(** base 1, cap 10, multiplier 2.5, jitter on: the capped delay of the
    second attempt is 2.5, not a whole number. *)
Definition fractionalBackoff : RetryConfig :=
  {| maxAttempts := 3; baseDelayMs := Number.ofZ 1;
     maxDelayMs := Number.ofZ 10;
     backoffMultiplier := Some (Number.ofDecimal 5 2); jitter := Some true;
     retryableStatusCodes := None; retryableErrorCodes := None |}.



(** base 25, cap 100, multiplier 2, jitter on: the capped delay of the
    first attempt is 25, an odd number. *)
Definition oddBackoff : RetryConfig :=
  {| maxAttempts := 3; baseDelayMs := Number.ofZ 25;
     maxDelayMs := Number.ofZ 100;
     backoffMultiplier := None; jitter := Some true;
     retryableStatusCodes := None; retryableErrorCodes := None |}.

(** The largest number below 1, [1 - 2^-53]. *)
Definition almostOne : Number.number :=
  S754_finite false 9007199254740991 (-53).

End Scenario.

(** ** The remaining exports of the package *)

Module Exports.
Import Types Runtime.

(** [keyof typeof DEFAULT_TIMEOUTS] *)
Inductive ServiceType := EXTERNAL_API | LLM | DATABASE | FAST.

(** [getDefaultTimeout(serviceType)] of [timeout.ts] *)
Definition getDefaultTimeout (serviceType : ServiceType) : Z :=
  match serviceType with
  | EXTERNAL_API => DEFAULT_TIMEOUTS_EXTERNAL_API
  | LLM => DEFAULT_TIMEOUTS_LLM
  | DATABASE => DEFAULT_TIMEOUTS_DATABASE
  | FAST => DEFAULT_TIMEOUTS_FAST
  end.

(** [createRetryWrapper(config)] of [retry.ts] *)
Definition createRetryWrapper {T} (config : RetryConfig)
    (operation : Op T) (onRetry : option (RetryContext -> World -> World))
    (random : Z -> Number.number) (w : World)
    : option (Result Retry.RetryError T * World) :=
  Retry.withRetry operation config onRetry random w.

(** [static getAllStats()] of [circuit_breaker.ts]: for every registered
    name, the [stats] of a handle built with the EXTERNAL_API
    configuration. *)
Definition getAllStats (now : Z) (reg : gmap string CircuitBreakerState)
    : gmap string CircuitBreakerStats :=
  map_imap
    (fun name _ =>
       let breaker :=
         {| CircuitBreaker._name := name;
            CircuitBreaker._config := CIRCUIT_BREAKER_EXTERNAL_API |} in
       Some (CircuitBreaker.stats breaker now reg))
    reg.

(** [{ ...defaultConfig, ...overrideConfig, serviceName }]: a key of the
    override, when present, replaces the default's. *)
Definition mergeConfig (serviceName : string)
    (defaultConfig overrideConfig : option ResilientFetchConfig)
    : ResilientFetchConfig :=
  {| Types.serviceName := Some serviceName;
     timeout :=
       match overrideConfig ≫= timeout with
       | Some t => Some t
       | None => defaultConfig ≫= timeout
       end;
     circuitBreaker :=
       match default Unset (circuitBreaker <$> overrideConfig) with
       | Unset => default Unset (circuitBreaker <$> defaultConfig)
       | s => s
       end;
     retry :=
       match default Unset (retry <$> overrideConfig) with
       | Unset => default Unset (retry <$> defaultConfig)
       | s => s
       end |}.

(** [createResilientFetch(serviceName, defaultConfig)] of [mod.ts], applied
    to a request and an override. *)
Definition createResilientFetch (serviceName : string)
    (defaultConfig : option ResilientFetchConfig)
    (transport : TimeoutGuard.Transport)
    (overrideConfig : option ResilientFetchConfig)
    (random : Z -> Number.number) (w : World)
    : option (Result Resilience.Failure TimeoutGuard.Response * World) :=
  Resilience.resilientFetch transport
    (Some (mergeConfig serviceName defaultConfig overrideConfig)) random w.

End Exports.

(** ** Scripted operations and record invariants *)

Module Script.
Import Types Runtime.

(** An operation whose outcome is read off a script: the invocation that
    finds [n] requests already made issues one more, takes [d]
    milliseconds and settles with [script n]. *)
Definition scripted {T} (script : nat -> Result Js.Value T) (d : Z) : Op T :=
  fun w => (script (requests w), elapse d (countRequest w)).

(** The operation issues at most one request per invocation. *)
Definition atMostOneRequest {T} (operation : Op T) : Prop :=
  forall w,
    (requests w <= requests (snd (operation w)) <= S (requests w))%nat.

(** The operation leaves the record of [name] alone. *)
Definition keepsRecord {T} (name : string) (operation : Op T) : Prop :=
  forall w,
    circuitRegistry (snd (operation w)) !! name = circuitRegistry w !! name.

(** What every record of the registry satisfies: counters are not
    negative, the success counter is zero outside half-open, and an
    opening time is stored exactly when the breaker is not closed. *)
Definition consistent (s : CircuitBreakerState) : Prop :=
  0 <= failureCount s /\ 0 <= successCount s /\
  (state s <> half_open -> successCount s = 0) /\
  (state s = closed -> openedAt s = None) /\
  (state s <> closed -> is_Some (openedAt s)).

(** The name [resilientFetch] uses for its breaker. *)
Definition serviceNameOf (config : option ResilientFetchConfig) : string :=
  default "unknown" (config ≫= serviceName).

(** The number of requests one call of [resilientFetch] may issue. *)
Definition requestBudget (config : option ResilientFetchConfig) : nat :=
  match default Unset (retry <$> config) with
  | Disabled => 1
  | Custom c => Z.to_nat (maxAttempts c)
  | Unset => Z.to_nat (maxAttempts RETRY_EXTERNAL_API)
  end.

(** The breaker configuration [resilientFetch] works with; [None] when the
    breaker is switched off. *)
Definition breakerConfigOf (config : option ResilientFetchConfig)
    : option CircuitBreakerConfig :=
  match default Unset (circuitBreaker <$> config) with
  | Disabled => None
  | Custom c => Some c
  | Unset => Some CIRCUIT_BREAKER_EXTERNAL_API
  end.

(** The retry configuration [resilientFetch] works with; [None] when retry
    is switched off. *)
Definition retryConfigOf (config : option ResilientFetchConfig)
    : option RetryConfig :=
  match default Unset (retry <$> config) with
  | Disabled => None
  | Custom c => Some c
  | Unset => Some RETRY_EXTERNAL_API
  end.

(** The timeout [resilientFetch] hands to [fetchWithTimeout]. *)
Definition timeoutOf (config : option ResilientFetchConfig) : Z :=
  match config ≫= timeout with
  | Some (TimeoutNumber ms) => ms
  | Some (TimeoutObject ms) => default DEFAULT_TIMEOUTS_EXTERNAL_API ms
  | None => DEFAULT_TIMEOUTS_EXTERNAL_API
  end.

(** The number of requests one call of [resilientFetch] makes to a
    server that answers every request with the 5xx [status]: all
    [maxAttempts] when retry is on and classifies the promoted error as
    retryable, one otherwise. *)
Definition attemptsAgainst (config : option ResilientFetchConfig)
    (status : Z) : nat :=
  match retryConfigOf config with
  | Some rc =>
      if Retry.isRetryableError (Resilience.httpError status) rc
      then Z.to_nat (maxAttempts rc) else 1
  | None => 1
  end.

(** The error behind a failure of [resilientFetch]. *)
Definition causeOf (failure : Resilience.Failure) : Js.Value :=
  match failure with
  | Resilience.Exhausted e => Retry.lastError e
  | Resilience.Raw e => e
  end.

(** A world at clock reading [t] whose record for ["svc"] has been open
    since 900. *)
Definition openWorld (t : Z) : World :=
  setRegistry
    {[ "svc" := {| state := open; failureCount := 2; successCount := 0;
                   lastFailureTime := Some 900; openedAt := Some 900;
                   lastError := Some "boom" |} ]}
    (Scenario.freshWorld t).

(** Two 503 failures, then the value 42. *)
Definition flakyScript : nat -> Result Js.Value Z :=
  fun n =>
    if (n <? 2)%nat then Throw (Scenario.statusError "unavailable" 503)
    else Ok 42.

(** 503 on every invocation. *)
Definition failingScript : nat -> Result Js.Value Z :=
  fun _ => Throw (Scenario.statusError "unavailable" 503).

(** 404 on every invocation. *)
Definition notFoundScript : nat -> Result Js.Value Z :=
  fun _ => Throw (Scenario.statusError "Not found" 404).

(** A thrown plain object [{ status: 503 }], not an [Error]. *)
Definition plainObject503 : Js.Value :=
  {| Js.kind := Js.PlainObject; Js.name := ""; Js.message := "";
     Js.statusCode := None; Js.status := Some 503; Js.code := None;
     Js.isRetryable := None; Js.extra := Js.NoExtra;
     Js.toString := "[object Object]" |}.

(** An error named like a timeout that declares itself not retryable. *)
Definition finalTimeout : Js.Value :=
  {| Js.kind := Js.ErrorInstance; Js.name := "TimeoutError";
     Js.message := "request timeout"; Js.statusCode := None;
     Js.status := None; Js.code := None; Js.isRetryable := Some false;
     Js.extra := Js.NoExtra; Js.toString := "TimeoutError: request timeout" |}.

(** A transport that answers every request with [status] after 10 ms. *)
Definition answering (status : Z) : TimeoutGuard.Transport :=
  fun _ => TimeoutGuard.Responds {| TimeoutGuard.response_status := status |} 10.

End Script.

(** * Properties *)

(** ** The circuit breaker state machine *)

Section BreakerFacts.
Import Types Runtime CircuitBreaker Scenario.

Implicit Types (this : CircuitBreaker) (reg : gmap string CircuitBreakerState)
  (w : World).

Lemma setRegistry_id w : setRegistry (circuitRegistry w) w = w.
Proof. by destruct w. Qed.

Lemma registry_setRegistry reg w : circuitRegistry (setRegistry reg w) = reg.
Proof. reflexivity. Qed.

Lemma now_setRegistry reg w : now (setRegistry reg w) = now w.
Proof. reflexivity. Qed.

Lemma getState_setState this u reg :
  getState this (setState this u reg) = spread (getState this reg) u.
Proof. unfold getState at 1, setState. by rewrite lookup_insert_eq. Qed.

(** The record after a transition, field by field. *)
Lemma getState_transitionTo this s t reg :
  getState this (transitionTo this s t reg) =
  match s with
  | open =>
      {| state := open; failureCount := failureCount (getState this reg);
         successCount := 0;
         lastFailureTime := lastFailureTime (getState this reg);
         openedAt := Some t; lastError := lastError (getState this reg) |}
  | half_open =>
      {| state := half_open; failureCount := failureCount (getState this reg);
         successCount := 0;
         lastFailureTime := lastFailureTime (getState this reg);
         openedAt := openedAt (getState this reg);
         lastError := lastError (getState this reg) |}
  | closed =>
      {| state := closed; failureCount := 0; successCount := 0;
         lastFailureTime := lastFailureTime (getState this reg);
         openedAt := None; lastError := None |}
  end.
Proof. unfold transitionTo. rewrite getState_setState. by destruct s. Qed.

Lemma checkStateTransition_not_open this t reg :
  state (getState this reg) <> open -> checkStateTransition this t reg = reg.
Proof.
  intros H. unfold checkStateTransition.
  destruct (state (getState this reg)); simpl; congruence.
Qed.

(** A call in a state other than open runs the operation and feeds its
    outcome to [onSuccess] or [onFailure]. *)
Lemma call_not_open {T} this (op : Op T) w :
  state (getState this (circuitRegistry w)) <> open ->
  call this op w =
  match op w with
  | (Ok r, w') =>
      (Ok r, setRegistry (onSuccess this (now w') (circuitRegistry w')) w')
  | (Throw e, w') =>
      (Throw e, setRegistry (onFailure this e (now w') (circuitRegistry w')) w')
  end.
Proof.
  intros H. unfold call.
  rewrite (checkStateTransition_not_open _ _ _ H), setRegistry_id.
  destruct (state (getState this (circuitRegistry w))); congruence.
Qed.

Lemma getState_onFailure_closed this e t reg :
  shouldIgnoreError this e = false ->
  state (getState this reg) = closed ->
  getState this (onFailure this e t reg) =
  let s := getState this reg in
  let msg := String.substring 0 200
               (if Js.instanceofError e then Js.message e else Js.toString e) in
  if failureCount s + 1 >=? failureThreshold (_config this) then
    {| state := open; failureCount := failureCount s; successCount := 0;
       lastFailureTime := Some t; openedAt := Some t; lastError := Some msg |}
  else
    {| state := closed; failureCount := failureCount s + 1;
       successCount := successCount s;
       lastFailureTime := Some t; openedAt := openedAt s;
       lastError := Some msg |}.
Proof.
  intros Hi Hs. unfold onFailure. rewrite Hi. cbv zeta. rewrite Hs.
  destruct (_ >=? _).
  - rewrite getState_transitionTo, getState_setState. reflexivity.
  - rewrite !getState_setState. unfold spread; simpl. by rewrite Hs.
Qed.

Lemma getState_onFailure_half_open this e t reg :
  shouldIgnoreError this e = false ->
  state (getState this reg) = half_open ->
  getState this (onFailure this e t reg) =
  let s := getState this reg in
  {| state := open; failureCount := failureCount s; successCount := 0;
     lastFailureTime := Some t; openedAt := Some t;
     lastError :=
       Some (String.substring 0 200
               (if Js.instanceofError e then Js.message e else Js.toString e)) |}.
Proof.
  intros Hi Hs. unfold onFailure. rewrite Hi. cbv zeta. rewrite Hs.
  rewrite getState_transitionTo, getState_setState. reflexivity.
Qed.

Lemma getState_onSuccess_half_open this t reg :
  state (getState this reg) = half_open ->
  getState this (onSuccess this t reg) =
  let s := getState this reg in
  if successCount s + 1 >=? successThreshold (_config this) then
    {| state := closed; failureCount := 0; successCount := 0;
       lastFailureTime := lastFailureTime s; openedAt := None;
       lastError := None |}
  else
    {| state := half_open; failureCount := failureCount s;
       successCount := successCount s + 1;
       lastFailureTime := lastFailureTime s; openedAt := openedAt s;
       lastError := lastError s |}.
Proof.
  intros Hs. unfold onSuccess. cbv zeta. rewrite Hs.
  destruct (_ >=? _).
  - by rewrite getState_transitionTo.
  - rewrite getState_setState. unfold spread; simpl. by rewrite Hs.
Qed.

Lemma onFailure_ignored this e t reg :
  shouldIgnoreError this e = true -> onFailure this e t reg = reg.
Proof. intros H. unfold onFailure. by rewrite H. Qed.

(** An error object whose [statusCode] is in the ignored set is ignored. *)
Lemma shouldIgnoreError_statusCode this e n :
  Js.isObject e = true -> Js.statusCode e = Some n ->
  Js.includesZ (default [] (ignoredStatusCodes (_config this))) n = true ->
  shouldIgnoreError this e = true.
Proof. intros Ho Hc Hin. unfold shouldIgnoreError. by rewrite Ho, Hc, Hin. Qed.

Lemma call_failure {T} this (op : Op T) w :
  failsCounted this op -> keepsRegistry op ->
  state (getState this (circuitRegistry w)) <> open ->
  exists e,
    shouldIgnoreError this e = false /\
    call this op w =
    (Throw e, setRegistry (onFailure this e (now (snd (op w))) (circuitRegistry w))
                          (snd (op w))).
Proof.
  intros Hf Hk Hs. destruct (Hf w) as (e & He & Hi). exists e. split; [done|].
  rewrite (call_not_open _ _ _ Hs). specialize (Hk w).
  destruct (op w) as [r w1]. simpl in *. subst r. by rewrite Hk.
Qed.

Lemma call_success {T} this (op : Op T) w :
  succeeds op -> keepsRegistry op ->
  state (getState this (circuitRegistry w)) <> open ->
  exists v,
    call this op w =
    (Ok v, setRegistry (onSuccess this (now (snd (op w))) (circuitRegistry w))
                       (snd (op w))).
Proof.
  intros Hf Hk Hs. destruct (Hf w) as (v & Hv). exists v.
  rewrite (call_not_open _ _ _ Hs). specialize (Hk w).
  destruct (op w) as [r w1]. simpl in *. subst r. by rewrite Hk.
Qed.

Lemma callsN_app {T} this (op : Op T) a b w :
  callsN this op (a + b) w = callsN this op b (callsN this op a w).
Proof. revert w. induction a as [|a IH]; intros w; simpl; [done | apply IH]. Qed.

(** Below the threshold every counted failure adds one to the counter and
    the breaker stays closed. *)
Lemma callsN_failures_below_threshold {T} this (op : Op T) :
  failsCounted this op -> keepsRegistry op ->
  forall n w,
    state (getState this (circuitRegistry w)) = closed ->
    failureCount (getState this (circuitRegistry w)) + Z.of_nat n
      < failureThreshold (_config this) ->
    state (getState this (circuitRegistry (callsN this op n w))) = closed /\
    failureCount (getState this (circuitRegistry (callsN this op n w)))
      = failureCount (getState this (circuitRegistry w)) + Z.of_nat n.
Proof.
  intros Hf Hk. induction n as [|n IH]; intros w Hs Hc.
  - simpl. split; [done | lia].
  - simpl callsN.
    destruct (call_failure this op w Hf Hk) as (e & Hi & Hcall);
      [congruence|].
    rewrite Hcall. simpl snd.
    pose proof (getState_onFailure_closed this e (now (snd (op w))) _ Hi Hs) as Hst.
    cbv zeta in Hst.
    destruct (Z.geb_spec (failureCount (getState this (circuitRegistry w)) + 1)
                (failureThreshold (_config this))) as [Hge|Hlt]; [lia|].
    destruct (IH (setRegistry
                    (onFailure this e (now (snd (op w))) (circuitRegistry w))
                    (snd (op w)))) as [IH1 IH2].
    + rewrite registry_setRegistry, Hst. reflexivity.
    + rewrite registry_setRegistry, Hst. simpl. lia.
    + rewrite IH1, IH2, registry_setRegistry, Hst. simpl. split; [done | lia].
Qed.

(** The failure that reaches the threshold opens the breaker; the stored
    counter is not written and the opening time is the time of that
    failure. *)
Lemma call_failure_at_threshold {T} this (op : Op T) w :
  failsCounted this op -> keepsRegistry op ->
  state (getState this (circuitRegistry w)) = closed ->
  failureCount (getState this (circuitRegistry w)) + 1
    >= failureThreshold (_config this) ->
  let w' := snd (call this op w) in
  state (getState this (circuitRegistry w')) = open /\
  failureCount (getState this (circuitRegistry w'))
    = failureCount (getState this (circuitRegistry w)) /\
  successCount (getState this (circuitRegistry w')) = 0 /\
  openedAt (getState this (circuitRegistry w')) = Some (now w').
Proof.
  intros Hf Hk Hs Hc.
  destruct (call_failure this op w Hf Hk) as (e & Hi & Hcall); [congruence|].
  cbv zeta. rewrite Hcall. simpl snd.
  rewrite registry_setRegistry, now_setRegistry.
  rewrite (getState_onFailure_closed this e _ _ Hi Hs). cbv zeta.
  destruct (Z.geb_spec (failureCount (getState this (circuitRegistry w)) + 1)
              (failureThreshold (_config this))) as [Hge|Hlt]; [|lia].
  by simpl.
Qed.

(** An open breaker whose reset time has not elapsed rejects the call
    without running the operation: the world is left as it was. *)
Lemma call_open_fails_fast {T} this (op : Op T) w :
  state (getState this (circuitRegistry w)) = open ->
  openedAt (getState this (circuitRegistry w)) = Some (now w) ->
  0 < resetTimeoutMs (_config this) ->
  call this op w =
  (Throw (CircuitBreakerOpenError (_name this)
            (if now w =? 0 then 0 else resetTimeoutMs (_config this))), w).
Proof.
  intros Hs Ho Hr. unfold call.
  assert (Hc : checkStateTransition this (now w) (circuitRegistry w)
               = circuitRegistry w).
  { unfold checkStateTransition. rewrite Hs, Ho. simpl.
    destruct (now w =? 0); simpl; [done|].
    rewrite Z.sub_diag.
    destruct (Z.geb_spec 0 (resetTimeoutMs (_config this))); [lia | done]. }
  rewrite Hc, setRegistry_id, Hs.
  unfold remainingTimeoutMs. rewrite Hs, Ho. simpl.
  destruct (now w =? 0); simpl; [done|].
  rewrite Z.sub_diag, Z.sub_0_r.
  destruct (Z.gtb_spec (resetTimeoutMs (_config this)) 0); [done | lia].
Qed.

Lemma callsN_successes_below_threshold {T} this (op : Op T) :
  succeeds op -> keepsRegistry op ->
  forall n w,
    state (getState this (circuitRegistry w)) = half_open ->
    successCount (getState this (circuitRegistry w)) + Z.of_nat n
      < successThreshold (_config this) ->
    state (getState this (circuitRegistry (callsN this op n w))) = half_open /\
    successCount (getState this (circuitRegistry (callsN this op n w)))
      = successCount (getState this (circuitRegistry w)) + Z.of_nat n.
Proof.
  intros Hf Hk. induction n as [|n IH]; intros w Hs Hc.
  - simpl. split; [done | lia].
  - simpl callsN.
    destruct (call_success this op w Hf Hk) as (v & Hcall); [congruence|].
    rewrite Hcall. simpl snd.
    pose proof (getState_onSuccess_half_open this (now (snd (op w))) _ Hs) as Hst.
    cbv zeta in Hst.
    destruct (Z.geb_spec (successCount (getState this (circuitRegistry w)) + 1)
                (successThreshold (_config this))) as [Hge|Hlt]; [lia|].
    destruct (IH (setRegistry
                    (onSuccess this (now (snd (op w))) (circuitRegistry w))
                    (snd (op w)))) as [IH1 IH2].
    + rewrite registry_setRegistry, Hst. reflexivity.
    + rewrite registry_setRegistry, Hst. simpl. lia.
    + rewrite IH1, IH2, registry_setRegistry, Hst. simpl. split; [done | lia].
Qed.

Lemma appliesOwnPolicy_any this : appliesOwnPolicy this.
Proof.
  split; [|split].
  - intros e t r Hi Hs. unfold get_state.
    rewrite (getState_onFailure_closed this e t r Hi Hs). cbv zeta.
    by destruct (_ >=? _).
  - intros t r Hs. unfold get_state.
    rewrite (getState_onSuccess_half_open this t r Hs). cbv zeta.
    by destruct (_ >=? _).
  - intros t o r Hs Ho Hne. unfold get_state, checkStateTransition.
    rewrite Hs, Ho. simpl.
    destruct (Z.eqb_spec o 0); [done|]. simpl.
    destruct (_ >=? _); [|by rewrite Hs].
    by rewrite getState_transitionTo.
Qed.

End BreakerFacts.

Section BreakerClaims.
Import Types Runtime CircuitBreaker Scenario.

Implicit Types (this : CircuitBreaker) (reg : gmap string CircuitBreakerState)
  (w : World).

(** C2, as amended.  Take a handle whose [resetTimeoutMs] is positive and
    a closed record whose failure counter is below [failureThreshold].
    Counted (non-ignored) failures keep the breaker closed until the
    counter of consecutive failures reaches the threshold; the failure
    that reaches it opens the breaker; and the very next call, no time
    having elapsed, throws [CircuitBreakerOpenError] with the handle's
    name and the remaining time (all of [resetTimeoutMs]; zero when the
    clock read zero at opening, which the source takes for "never
    opened") and leaves the world untouched, so that the operation was
    not invoked.  From a counter at zero this is exactly
    [failureThreshold] failures. *)
Theorem breaker_opens_at_threshold_then_fails_fast
    {T} this (op : Op T) w :
  failsCounted this op -> keepsRegistry op ->
  state (getState this (circuitRegistry w)) = closed ->
  failureCount (getState this (circuitRegistry w))
    < failureThreshold (_config this) ->
  0 < resetTimeoutMs (_config this) ->
  let n := Z.to_nat (failureThreshold (_config this)
                     - failureCount (getState this (circuitRegistry w))) in
  let w' := callsN this op n w in
  (forall m, (m < n)%nat ->
     get_state this (circuitRegistry (callsN this op m w)) = closed) /\
  get_state this (circuitRegistry w') = open /\
  forall (next : Op T),
    call this next w' =
    (Throw (CircuitBreakerOpenError (_name this)
              (if now w' =? 0 then 0 else resetTimeoutMs (_config this))), w').
Proof.
  intros Hf Hk Hs Hc Hr n w'.
  assert (Hn : exists k, n = (k + 1)%nat /\
            failureCount (getState this (circuitRegistry w)) + Z.of_nat k + 1
            = failureThreshold (_config this)).
  { exists (Nat.pred n). subst n. split; lia. }
  destruct Hn as (k & Hnk & Hk1).
  split.
  - intros m Hm. unfold get_state.
    apply (callsN_failures_below_threshold this op Hf Hk m w Hs). lia.
  - destruct (callsN_failures_below_threshold this op Hf Hk k w Hs) as [Hks Hkc];
      [lia|].
    assert (Hw' : w' = snd (call this op (callsN this op k w))).
    { subst w'. by rewrite Hnk, callsN_app. }
    destruct (call_failure_at_threshold this op (callsN this op k w) Hf Hk Hks)
      as (Ho & _ & _ & Hat); [lia|].
    rewrite <- Hw' in Ho, Hat.
    split; [exact Ho|].
    intros next. by apply call_open_fails_fast.
Qed.

Lemma breaker_opens_at_threshold_witness :
  get_state exampleBreaker
    (circuitRegistry (callsN exampleBreaker failing500 3 (freshWorld 1000))) = open /\
  forall next : Op unit,
    fst (call exampleBreaker next (callsN exampleBreaker failing500 3 (freshWorld 1000)))
    = Throw (CircuitBreakerOpenError "svc" 1000).
Proof.
  pose proof (breaker_opens_at_threshold_then_fails_fast
                exampleBreaker failing500 (freshWorld 1000)
                (fun w => ex_intro _ _ (conj eq_refl eq_refl))
                (fun w => eq_refl) eq_refl eq_refl eq_refl) as H.
  cbv zeta in H. destruct H as (_ & Hopen & Hfast).
  split; [exact Hopen|].
  intros next. change (Z.to_nat _) with 3%nat in Hfast.
  rewrite (Hfast next). vm_compute. reflexivity.
Defined.

(** C2, counterexample.  A handle with [failureThreshold = 1] and
    [resetTimeoutMs = 0]: one counted failure opens the breaker, and the
    very next call, made at the opening time itself, is let through as a
    probe.  The operation is invoked (one more request is counted) and the
    caller gets the operation's own error, not [CircuitBreakerOpenError]. *)
Lemma breaker_with_zero_reset_probes_at_once :
  let w1 := callsN eagerBreaker failing500 1 (freshWorld 1000) in
  failureThreshold (_config eagerBreaker) = 1 /\
  get_state eagerBreaker (circuitRegistry w1) = open /\
  openedAt (getState eagerBreaker (circuitRegistry w1)) = Some (now w1) /\
  fst (call eagerBreaker failing500 w1) = Throw (statusError "boom" 500) /\
  requests (snd (call eagerBreaker failing500 w1)) = S (requests w1).
Proof. by vm_compute. Qed.

(** C4.  For a half-open record whose success counter is below
    [successThreshold] (it is zero on entering half-open), the successes
    that bring the counter of consecutive successes to the threshold close
    the breaker with both counters at zero; until then it stays half-open,
    and at any of those moments one counted failure reopens it, however
    many successes came before. *)
Theorem half_open_closes_on_successes_reopens_on_failure
    {T} this (good bad : Op T) w :
  succeeds good -> keepsRegistry good ->
  failsCounted this bad -> keepsRegistry bad ->
  state (getState this (circuitRegistry w)) = half_open ->
  successCount (getState this (circuitRegistry w))
    < successThreshold (_config this) ->
  let n := Z.to_nat (successThreshold (_config this)
                     - successCount (getState this (circuitRegistry w))) in
  let w' := callsN this good n w in
  (get_state this (circuitRegistry w') = closed /\
   failureCount (getState this (circuitRegistry w')) = 0 /\
   successCount (getState this (circuitRegistry w')) = 0) /\
  forall m, (m < n)%nat ->
    get_state this (circuitRegistry (callsN this good m w)) = half_open /\
    get_state this
      (circuitRegistry (snd (call this bad (callsN this good m w)))) = open.
Proof.
  intros Hg Hgk Hb Hbk Hs Hc n w'.
  split.
  - assert (Hn : exists k, n = (k + 1)%nat /\
              successCount (getState this (circuitRegistry w)) + Z.of_nat k + 1
              = successThreshold (_config this)).
    { exists (Nat.pred n). subst n. split; lia. }
    destruct Hn as (k & Hnk & Hk1).
    destruct (callsN_successes_below_threshold this good Hg Hgk k w Hs)
      as [Hks Hkc]; [lia|].
    subst w'. rewrite Hnk, callsN_app. simpl callsN.
    destruct (call_success this good (callsN this good k w) Hg Hgk)
      as (v & Hcall); [congruence|].
    rewrite Hcall. simpl snd. rewrite registry_setRegistry. unfold get_state.
    rewrite (getState_onSuccess_half_open this _ _ Hks). cbv zeta.
    destruct (Z.geb_spec
                (successCount (getState this (circuitRegistry (callsN this good k w))) + 1)
                (successThreshold (_config this))) as [Hge|Hlt]; [done | lia].
  - intros m Hm.
    destruct (callsN_successes_below_threshold this good Hg Hgk m w Hs)
      as [Hms _]; [lia|].
    split; [exact Hms|].
    destruct (call_failure this bad (callsN this good m w) Hb Hbk)
      as (e & Hi & Hcall); [congruence|].
    rewrite Hcall. simpl snd. rewrite registry_setRegistry. unfold get_state.
    by rewrite (getState_onFailure_half_open this e _ _ Hi Hms).
Qed.

Lemma half_open_closes_witness :
  get_state exampleBreaker
    (circuitRegistry (callsN exampleBreaker returning 2 halfOpenWorld)) = closed /\
  get_state exampleBreaker
    (circuitRegistry
       (snd (call exampleBreaker failing500
               (callsN exampleBreaker returning 1 halfOpenWorld)))) = open.
Proof.
  pose proof (half_open_closes_on_successes_reopens_on_failure
                exampleBreaker returning failing500 halfOpenWorld
                (fun w => ex_intro _ tt eq_refl) (fun w => eq_refl)
                (fun w => ex_intro _ _ (conj eq_refl eq_refl))
                (fun w => eq_refl)) as H.
  cbv zeta in H.
  destruct H as ((Hclosed & _ & _) & Hreopen);
    [vm_compute; reflexivity | vm_compute; reflexivity |].
  change (Z.to_nat _) with 2%nat in Hclosed, Hreopen.
  split; [exact Hclosed|]. apply (Hreopen 1%nat). lia.
Defined.

(** C8.  A failure the handle ignores (its status code is in
    [ignoredStatusCodes]) makes [onFailure] return the registry as it
    was, in any state.  While the breaker lets calls through, any number
    of such failures in a row leaves the whole registry, hence the
    failure counter, the success counter, the state and the last-error
    fields, unchanged, and each call hands the caller exactly what the
    operation threw. *)
Theorem ignored_failure_leaves_record {T} this (op : Op T) n w :
  failsIgnored this op -> keepsRegistry op ->
  get_state this (circuitRegistry w) <> open ->
  (forall e t reg, shouldIgnoreError this e = true -> onFailure this e t reg = reg) /\
  circuitRegistry (callsN this op n w) = circuitRegistry w /\
  call this op (callsN this op n w) = op (callsN this op n w).
Proof.
  intros Hf Hk Hs.
  assert (Hstep : forall v, get_state this (circuitRegistry v) <> open ->
                            call this op v = op v).
  { intros v Hv. rewrite (call_not_open _ _ _ Hv).
    destruct (Hf v) as (e & He & Hi). specialize (Hk v).
    destruct (op v) as [r v1]. simpl in *. subst r.
    by rewrite (onFailure_ignored _ _ _ _ Hi), Hk, <- Hk, setRegistry_id. }
  assert (Hreg : circuitRegistry (callsN this op n w) = circuitRegistry w).
  { revert w Hs. induction n as [|k IH]; intros w Hs; simpl; [done|].
    rewrite Hstep by done.
    rewrite IH; [apply Hk | by rewrite Hk]. }
  split; [apply onFailure_ignored|]. split; [exact Hreg|].
  apply Hstep. by rewrite Hreg.
Qed.

Lemma ignored_failure_witness :
  circuitRegistry (callsN exampleBreaker failing404 5 (freshWorld 1000))
    = circuitRegistry (freshWorld 1000) /\
  fst (call exampleBreaker failing404
         (callsN exampleBreaker failing404 5 (freshWorld 1000)))
    = Throw (statusError "Not found" 404).
Proof.
  pose proof (ignored_failure_leaves_record
                exampleBreaker failing404 5 (freshWorld 1000)
                (fun w => ex_intro _ _ (conj eq_refl eq_refl))
                (fun w => eq_refl)) as H.
  destruct H as (_ & Hreg & Hcall); [vm_compute; congruence|].
  split; [exact Hreg|]. rewrite Hcall. reflexivity.
Defined.

(** A handle never removes its record: once the name is registered it
    stays registered through every call. *)
Lemma presence_setState this u reg :
  is_Some (setState this u reg !! _name this).
Proof. unfold setState. rewrite lookup_insert_eq. by eexists. Qed.

Lemma presence_checkStateTransition this t reg :
  is_Some (reg !! _name this) ->
  is_Some (checkStateTransition this t reg !! _name this).
Proof.
  intros H. unfold checkStateTransition.
  destruct (_ && _); [|done]. destruct (_ >=? _); [|done].
  apply presence_setState.
Qed.

Lemma presence_onSuccess this t reg :
  is_Some (reg !! _name this) ->
  is_Some (onSuccess this t reg !! _name this).
Proof.
  intros H. unfold onSuccess.
  destruct (state (getState this reg)); [apply presence_setState|done|].
  destruct (_ >=? _); apply presence_setState.
Qed.

Lemma presence_onFailure this e t reg :
  is_Some (reg !! _name this) ->
  is_Some (onFailure this e t reg !! _name this).
Proof.
  intros H. unfold onFailure.
  destruct (shouldIgnoreError this e); [done|]. cbv zeta.
  destruct (state (getState this reg)); [|apply presence_setState|apply presence_setState].
  destruct (_ >=? _); apply presence_setState.
Qed.

Lemma presence_callsN {T} this (op : Op T) n w :
  keepsRegistry op ->
  is_Some (circuitRegistry w !! _name this) ->
  is_Some (circuitRegistry (callsN this op n w) !! _name this).
Proof.
  intros Hk. revert w. induction n as [|n IH]; intros w H; simpl; [done|].
  apply IH. unfold call.
  pose proof (presence_checkStateTransition this (now w) _ H) as H1.
  set (w1 := setRegistry _ w).
  assert (H2 : is_Some (circuitRegistry w1 !! _name this))
    by (unfold w1; by rewrite registry_setRegistry).
  destruct (state (getState this (circuitRegistry w1))); [|done|];
    (specialize (Hk w1); destruct (op w1) as [[v|e] w2];
     cbn [snd] in *; rewrite registry_setRegistry, Hk;
     [by apply presence_onSuccess | by apply presence_onFailure]).
Qed.

(** C9.  [getOrCreate] creates the record of a name only when the
    registry holds none; on a registry that holds the name, however it
    came to be written, it returns the registry as it is.  So a handle
    obtained later, with another configuration, finds the record the
    earlier handle wrote: after [k] counted failures through the first
    handle the second reads, and reports in its [stats], the failure
    count the first one wrote.  Each handle keeps the configuration it
    was given; both read the same record, and what one writes the other
    reads; the record has no configuration field, and each handle
    compares the shared counters with the thresholds and reset time of
    its own configuration. *)
Theorem handles_share_record_keep_own_policy
    (name : string) (c1 c2 : CircuitBreakerConfig) reg :
  let h1 := fst (getOrCreate name (Some c1) reg) in
  let r1 := snd (getOrCreate name (Some c1) reg) in
  let h2 := fst (getOrCreate name (Some c2) r1) in
  let r2 := snd (getOrCreate name (Some c2) r1) in
  (is_Some (r1 !! name) /\ r2 = r1) /\
  (_name h1 = name /\ _name h2 = name /\ _config h1 = c1 /\ _config h2 = c2) /\
  (forall r, getState h1 r = getState h2 r) /\
  (forall u r,
      getState h2 (setState h1 u r) = spread (getState h2 r) u /\
      getState h1 (setState h2 u r) = spread (getState h1 r) u) /\
  (appliesOwnPolicy h1 /\ appliesOwnPolicy h2) /\
  (r1 = match reg !! name with
        | Some _ => reg
        | None => <[name := initialState]> reg
        end) /\
  (forall r, is_Some (r !! name) -> getOrCreate name (Some c2) r = (h2, r)) /\
  (forall T (op : Op T) (k : nat) w,
      failsCounted h1 op -> keepsRegistry op ->
      circuitRegistry w = r1 ->
      state (getState h1 r1) = closed ->
      failureCount (getState h1 r1) + Z.of_nat k < failureThreshold c1 ->
      let w' := callsN h1 op k w in
      getOrCreate name (Some c2) (circuitRegistry w') = (h2, circuitRegistry w') /\
      failureCount (getState h2 (circuitRegistry w'))
        = failureCount (getState h1 r1) + Z.of_nat k /\
      stats_failureCount (stats h2 (now w') (circuitRegistry w'))
        = failureCount (getState h1 r1) + Z.of_nat k).
Proof.
  cbv zeta.
  assert (Hfound : forall c r, is_Some (r !! name) ->
            getOrCreate name (Some c) r = ({| _name := name; _config := c |}, r)).
  { intros c r [s Hs]. unfold getOrCreate. simpl. by rewrite Hs. }
  assert (Hr1 : is_Some (snd (getOrCreate name (Some c1) reg) !! name)).
  { unfold getOrCreate. simpl. destruct (reg !! name) eqn:E.
    - rewrite E. by eexists.
    - rewrite lookup_insert_eq. by eexists. }
  split; [split; [done | by rewrite (Hfound c2 _ Hr1)]|].
  split; [done|]. split; [done|].
  split.
  { intros u r. unfold getState, setState. simpl.
    split; by rewrite lookup_insert_eq. }
  split; [split; apply appliesOwnPolicy_any|].
  split; [unfold getOrCreate; simpl; by destruct (reg !! name)|].
  split; [intros r Hr; by rewrite (Hfound c2 r Hr)|].
  intros T op k w Hf Hk Hw Hs Hc.
  set (h1 := fst (getOrCreate name (Some c1) reg)) in *.
  assert (Hpres : is_Some (circuitRegistry (callsN h1 op k w) !! name)).
  { apply (presence_callsN h1); [done|]. by rewrite Hw. }
  destruct (callsN_failures_below_threshold h1 op Hf Hk k w) as [_ Hcount];
    [by rewrite Hw | by rewrite Hw |].
  rewrite Hw in Hcount.
  split; [by rewrite (Hfound c2 _ Hpres)|]. split; exact Hcount.
Qed.

Lemma handles_share_record_witness :
  let strictConfig :=
    {| failureThreshold := 6; resetTimeoutMs := 1000; successThreshold := 1;
       ignoredStatusCodes := None |} in
  let lax := fst (getOrCreate "svc" (Some CIRCUIT_BREAKER_RELAXED) ∅) in
  let r1 := snd (getOrCreate "svc" (Some CIRCUIT_BREAKER_RELAXED) ∅) in
  let strict := fst (getOrCreate "svc" (Some strictConfig) r1) in
  let w1 := callsN lax failing500 5 (setRegistry r1 (freshWorld 1000)) in
  getOrCreate "svc" (Some strictConfig) (circuitRegistry w1)
    = (strict, circuitRegistry w1) /\
  stats_failureCount (stats strict (now w1) (circuitRegistry w1)) = 0 + 5.
Proof.
  cbv zeta.
  pose proof (handles_share_record_keep_own_policy
                "svc" CIRCUIT_BREAKER_RELAXED
                {| failureThreshold := 6; resetTimeoutMs := 1000;
                   successThreshold := 1; ignoredStatusCodes := None |} ∅) as H.
  cbv zeta in H. destruct H as (_ & _ & _ & _ & _ & _ & _ & H).
  destruct (H unit failing500 5%nat
              (setRegistry
                 (snd (getOrCreate "svc" (Some CIRCUIT_BREAKER_RELAXED) ∅))
                 (freshWorld 1000)))
    as (Hsame & _ & Hstats).
  - intros w. eexists. split; reflexivity.
  - intros w. reflexivity.
  - apply registry_setRegistry.
  - reflexivity.
  - by vm_compute.
  - split; [exact Hsame | exact Hstats].
Defined.

(** Five failures through a handle with threshold 10; a handle obtained
    afterwards with threshold 6 finds the record untouched by its own
    creation, reads the five failures, and its first failure opens the
    breaker. *)
Example later_handle_reads_earlier_failures :
  let lax := fst (getOrCreate "svc" (Some CIRCUIT_BREAKER_RELAXED) ∅) in
  let w0 := setRegistry (snd (getOrCreate "svc" (Some CIRCUIT_BREAKER_RELAXED) ∅))
              (freshWorld 1000) in
  let w1 := callsN lax failing500 5 w0 in
  let strictConfig :=
    {| failureThreshold := 6; resetTimeoutMs := 1000; successThreshold := 1;
       ignoredStatusCodes := None |} in
  let strict := fst (getOrCreate "svc" (Some strictConfig) (circuitRegistry w1)) in
  snd (getOrCreate "svc" (Some strictConfig) (circuitRegistry w1))
    = circuitRegistry w1 /\
  stats_failureCount (stats strict (now w1) (circuitRegistry w1)) = 5 /\
  get_state lax (circuitRegistry (callsN strict failing500 1 w1)) = open.
Proof. by vm_compute. Qed.

(** Two handles on ["svc"], thresholds 5 and 2: after one failure through
    the first, a failure through the second opens the breaker for both,
    while the same failure through the first would have kept it closed. *)
Example handles_with_different_thresholds :
  let lax := {| _name := "svc"; _config := CIRCUIT_BREAKER_EXTERNAL_API |} in
  let strict :=
    {| _name := "svc";
       _config := {| failureThreshold := 2; resetTimeoutMs := 1000;
                     successThreshold := 1; ignoredStatusCodes := None |} |} in
  let w1 := callsN lax failing500 1 (freshWorld 1000) in
  stats_failureCount (stats strict (now w1) (circuitRegistry w1)) = 1 /\
  get_state lax (circuitRegistry (callsN strict failing500 1 w1)) = open /\
  get_state strict (circuitRegistry (callsN lax failing500 1 w1)) = closed.
Proof. by vm_compute. Qed.

(** C10.  When a counted failure brings the failure count of a closed
    record to [failureThreshold], the breaker opens and the stored
    [failureCount], as [stats] reports it, is still
    [failureThreshold - 1]: the last increment is not written. *)
Theorem opening_failure_is_not_counted {T} this (op : Op T) w t :
  failsCounted this op -> keepsRegistry op ->
  state (getState this (circuitRegistry w)) = closed ->
  failureCount (getState this (circuitRegistry w)) + 1
    = failureThreshold (_config this) ->
  let w' := snd (call this op w) in
  stats_state (stats this t (circuitRegistry w')) = open /\
  stats_failureCount (stats this t (circuitRegistry w'))
    = failureThreshold (_config this) - 1.
Proof.
  intros Hf Hk Hs Hc.
  destruct (call_failure_at_threshold this op w Hf Hk Hs) as (Ho & Hfc & _);
    [lia|].
  cbv zeta. simpl. split; [exact Ho | lia].
Qed.

Lemma opening_failure_witness :
  stats_state (stats exampleBreaker 2005
                 (circuitRegistry (snd (call exampleBreaker failing500 nearlyOpenWorld))))
    = open /\
  stats_failureCount
    (stats exampleBreaker 2005
       (circuitRegistry (snd (call exampleBreaker failing500 nearlyOpenWorld)))) = 2.
Proof.
  apply (opening_failure_is_not_counted exampleBreaker failing500 nearlyOpenWorld 2005
           (fun w => ex_intro _ _ (conj eq_refl eq_refl)) (fun w => eq_refl)).
  - vm_compute. reflexivity.
  - vm_compute. reflexivity.
Defined.

(** From a fresh record, [failureThreshold] failures in a row: the breaker
    is open and [stats] shows one failure fewer. *)
Example three_failures_open_with_two_counted :
  let w := callsN exampleBreaker failing500 3 (freshWorld 1000) in
  stats_state (stats exampleBreaker (now w) (circuitRegistry w)) = open /\
  stats_failureCount (stats exampleBreaker (now w) (circuitRegistry w)) = 2 /\
  stats_remainingTimeoutMs (stats exampleBreaker (now w) (circuitRegistry w)) = 1000.
Proof. by vm_compute. Qed.

End BreakerClaims.
(** ** Binary64 arithmetic

    What the rounding of [SpecFloat] does to the values that occur in a
    retry delay: whole numbers below [2^53] are computed with exactly,
    and a rounded result stays between bounds that lie on its grid. *)

Section FloatFacts.
Import Number.

Lemma digits2_log2 p : Zpos (digits2_pos p) = Z.log2 (Zpos p) + 1.
Proof.
  induction p as [p IH|p IH|]; simpl; try reflexivity.
  - rewrite Pos2Z.inj_succ, IH. destruct p; simpl; try reflexivity; lia.
  - rewrite Pos2Z.inj_succ, IH. destruct p; simpl; try reflexivity; lia.
Qed.

Lemma digits_bounds (p : positive) :
  2 ^ (Zpos (digits2_pos p) - 1) <= Zpos p < 2 ^ Zpos (digits2_pos p).
Proof.
  rewrite digits2_log2.
  pose proof (Z.log2_spec (Zpos p) eq_refl) as H.
  replace (Z.log2 (Zpos p) + 1 - 1) with (Z.log2 (Zpos p)) by lia.
  replace (Z.log2 (Zpos p) + 1) with (Z.succ (Z.log2 (Zpos p))) by lia.
  exact H.
Qed.

(** The number of digits is determined by the binade. *)
Lemma digits_unique (p : positive) (d : Z) :
  2 ^ (d - 1) <= Zpos p < 2 ^ d -> Zpos (digits2_pos p) = d.
Proof.
  intros [H1 H2]. pose proof (digits_bounds p) as [H3 H4].
  assert (0 < d).
  { destruct (Z.ltb_spec 0 d); [done|].
    assert (2 ^ d <= 2 ^ 0) by (apply Z.pow_le_mono_r; lia). simpl in *. lia. }
  set (D := Zpos (digits2_pos p)) in *.
  destruct (Z.lt_trichotomy D d) as [Hlt|[Heq|Hgt]]; [|done|].
  - assert (2 ^ D <= 2 ^ (d - 1)) by (apply Z.pow_le_mono_r; lia). lia.
  - assert (2 ^ d <= 2 ^ (D - 1)) by (apply Z.pow_le_mono_r; lia). lia.
Qed.

(** [iter_pos] is iteration [Pos.to_nat] times. *)
Lemma iter_pos_nat {A} (f : A -> A) (p : positive) (x : A) :
  SpecFloat.iter_pos f p x = Nat.iter (Pos.to_nat p) f x.
Proof.
  revert x. induction p as [p IH|p IH|]; intros x; cbn [SpecFloat.iter_pos].
  - rewrite !IH, Pos2Nat.inj_xI, <- Nat.iter_add, <- Nat.iter_succ_r.
    f_equal. lia.
  - rewrite !IH, Pos2Nat.inj_xO, <- Nat.iter_add. f_equal. lia.
  - reflexivity.
Qed.

(** One step to the right halves a non-negative mantissa; the bit that
    falls out becomes the round bit, and the sticky bit collects the
    earlier ones. *)
Lemma shr_1_spec (m : Z) (r s : bool) :
  0 <= m ->
  shr_1 (Build_shr_record m r s)
  = Build_shr_record (m / 2) (Z.odd m) (r || s).
Proof.
  intros Hm. destruct m as [|[p|p|]|p]; try lia; cbn [shr_1]; f_equal.
  - apply (Z.div_unique _ _ _ 1); lia.
  - apply (Z.div_unique _ _ _ 0); lia.
Qed.

(** Shifting a non-negative mantissa right by [n] bits divides it by
    [2^n]; when no bit set is lost the location remains exact. *)
Lemma shr_nat (M : Z) (n : nat) :
  0 <= M ->
  let mrs := Nat.iter n shr_1 (Build_shr_record M false false) in
  shr_m mrs = M / 2 ^ Z.of_nat n /\
  (M mod 2 ^ Z.of_nat n = 0 -> shr_r mrs = false /\ shr_s mrs = false).
Proof.
  intros HM. induction n as [|n IH].
  - simpl. rewrite Z.div_1_r. done.
  - cbv zeta in *. rewrite Nat2Z.inj_succ, Z.pow_succ_r by lia.
    simpl Nat.iter. destruct (Nat.iter n shr_1 _) as [m r s].
    simpl in IH. destruct IH as [Hm Hrs].
    assert (Hpos : 0 < 2 ^ Z.of_nat n) by (apply Z.pow_pos_nonneg; lia).
    assert (Hm0 : 0 <= m) by (subst m; apply Z.div_pos; lia).
    rewrite shr_1_spec by done. simpl.
    split.
    + rewrite (Z.mul_comm 2), <- Z.div_div by lia. by rewrite Hm.
    + intros Hmod.
      apply Z.mod_divide in Hmod; [|lia]. destruct Hmod as [k Hk].
      assert (Hmod' : M mod 2 ^ Z.of_nat n = 0).
      { apply Z.mod_divide; [lia|]. exists (k * 2). lia. }
      destruct (Hrs Hmod') as [-> ->]. split; [|done].
      subst m. rewrite Hk.
      replace (k * (2 * 2 ^ Z.of_nat n)) with (k * 2 * 2 ^ Z.of_nat n) by lia.
      rewrite Z.div_mul by lia. by rewrite Z.odd_mul, andb_false_r.
Qed.


Lemma shr_pos (M : Z) (p : positive) :
  0 <= M ->
  let mrs := SpecFloat.iter_pos shr_1 p (Build_shr_record M false false) in
  shr_m mrs = M / 2 ^ Zpos p /\
  (M mod 2 ^ Zpos p = 0 -> loc_of_shr_record mrs = loc_Exact).
Proof.
  intros HM. cbv zeta. rewrite iter_pos_nat.
  destruct (shr_nat M (Pos.to_nat p) HM) as [H1 H2].
  rewrite positive_nat_Z in *. split; [done|].
  intros H. destruct (H2 H) as [Hr Hs].
  destruct (Nat.iter _ _ _) as [m r s]. simpl in *. by subst.
Qed.

Lemma round_nearest_even_bounds (mrs : shr_record) :
  let m := round_nearest_even (shr_m mrs) (loc_of_shr_record mrs) in
  shr_m mrs <= m <= shr_m mrs + 1 /\
  (loc_of_shr_record mrs = loc_Exact -> m = shr_m mrs).
Proof.
  destruct mrs as [m [|] [|]]; simpl; try (split; [lia|done]).
  destruct (Z.even m); split; (lia || done).
Qed.

Lemma fexp_ge e : -1074 <= fexp prec emax e.
Proof. unfold fexp, emin, prec, emax. lia. Qed.

Lemma fexp_eq e : fexp prec emax e = Z.max (e - 53) (-1074).
Proof. reflexivity. Qed.

(** What [binary_round_aux] returns for an exact positive input
    [M * 2^E]: the mantissa is cut at the quantum [q], the part cut off
    moves it up by at most one unit, and not at all when it is zero. *)
Lemma binary_round_aux_spec (s : bool) (M : positive) (E : Z) :
  let q := quantum M E in
  let t := q - E in
  exists m2,
    Zpos M / 2 ^ t <= m2 <= Zpos M / 2 ^ t + 1 /\
    m2 <= 2 ^ 53 /\
    (Zpos M mod 2 ^ t = 0 -> m2 = Zpos M / 2 ^ t) /\
    binary_round_aux prec emax s (Zpos M) E loc_Exact = pack s m2 q.
Proof.
  cbv zeta. unfold quantum.
  pose proof (digits_bounds M) as [HD1 HD2].
  set (D := Zpos (digits2_pos M)) in *.
  pose proof (fexp_ge (D + E)) as Hfe.
  rewrite fexp_eq in *.
  unfold binary_round_aux, shr_fexp.
  change (Zdigits2 (Zpos M)) with D. rewrite fexp_eq.
  set (n := Z.max (D + E - 53) (-1074) - E).
  assert (Hsmall : Zpos M / 2 ^ (Z.max 0 n) < 2 ^ 53).
  { apply Z.div_lt_upper_bound; [apply Z.pow_pos_nonneg; lia|].
    rewrite <- Z.pow_add_r by lia.
    eapply Z.lt_le_trans; [exact HD2|]. apply Z.pow_le_mono_r; lia. }
  (* the second normalisation, for a rounded mantissa at exponent [q] *)
  assert (Hsecond : forall m2 q, -1074 <= q -> 0 <= m2 <= 2 ^ 53 ->
    (let '(mrs'', e'') :=
       shr (shr_record_of_loc m2 loc_Exact) q
           (Z.max (Zdigits2 m2 + q - 53) (-1074) - q) in
     match shr_m mrs'' with
     | 0 => S754_zero s
     | Z.pos m => if e'' <=? emax - prec then S754_finite s m e''
                  else S754_infinity s
     | Z.neg _ => S754_nan
     end) = pack s m2 q).
  { intros m2 q Hq Hm2. destruct m2 as [|p2|p2]; [| |lia].
    - simpl Zdigits2.
      destruct (Z.max (0 + q - 53) (-1074) - q) eqn:En; try lia; reflexivity.
    - pose proof (digits_bounds p2) as [Hd1 Hd2].
      simpl Zdigits2. set (d2 := Zpos (digits2_pos p2)) in *.
      unfold pack. destruct (Z.ltb_spec (Zpos p2) (2 ^ 53)) as [Hlt|Hge].
      + assert (d2 <= 53).
        { destruct (Z.leb_spec d2 53); [done|].
          assert (2 ^ 53 <= 2 ^ (d2 - 1)) by (apply Z.pow_le_mono_r; lia). lia. }
        destruct (Z.max (d2 + q - 53) (-1074) - q) eqn:En; try lia; reflexivity.
      + assert (Hp2 : Zpos p2 = 2 ^ 53) by lia.
        assert (d2 = 54).
        { subst d2. apply digits_unique. rewrite Hp2. simpl. lia. }
        replace (Z.max (d2 + q - 53) (-1074) - q) with 1 by lia.
        injection Hp2 as ->. reflexivity. }
  destruct n as [|p|p] eqn:En.
  - exists (Zpos M). replace (Z.max E (Z.max (D + E - 53) (-1074))) with E by lia.
    rewrite Z.sub_diag, Z.div_1_r, Z.mod_1_r. simpl Z.max in Hsmall.
    rewrite Z.div_1_r in Hsmall.
    split; [lia|]. split; [lia|]. split; [done|].
    cbn [shr shr_record_of_loc round_nearest_even shr_m loc_of_shr_record].
    apply Hsecond; lia.
  - replace (Z.max E (Z.max (D + E - 53) (-1074))) with (E + Zpos p) by lia.
    replace (E + Zpos p - E) with (Zpos p) by lia.
    cbn [shr shr_record_of_loc].
    destruct (shr_pos (Zpos M) p) as [Hm Hloc]; [lia|].
    pose proof (round_nearest_even_bounds
                  (SpecFloat.iter_pos shr_1 p
                     {| shr_m := Zpos M; shr_r := false; shr_s := false |}))
      as [Hb Hex].
    cbv zeta in Hb, Hex. rewrite Hm in Hb, Hex |- *.
    set (m2 := round_nearest_even _ _) in *.
    replace (Z.max 0 (Zpos p)) with (Zpos p) in Hsmall by lia.
    exists m2. split; [done|]. split; [lia|]. split; [auto|].
    assert (0 <= Zpos M / 2 ^ Zpos p) by (apply Z.div_pos; lia).
    apply Hsecond; lia.
  - exists (Zpos M). replace (Z.max E (Z.max (D + E - 53) (-1074))) with E by lia.
    rewrite Z.sub_diag, Z.div_1_r, Z.mod_1_r. simpl Z.max in Hsmall.
    rewrite Z.div_1_r in Hsmall.
    split; [lia|]. split; [lia|]. split; [done|].
    cbn [shr shr_record_of_loc round_nearest_even shr_m loc_of_shr_record].
    apply Hsecond; lia.
Qed.


Lemma pos_iter_xO (m d : positive) :
  Zpos (Pos.iter xO m d) = Zpos m * 2 ^ Zpos d.
Proof.
  induction d as [|d IH] using Pos.peano_ind.
  - simpl. lia.
  - rewrite Pos.iter_succ, Pos2Z.inj_xO, IH, Pos2Z.inj_succ, Z.pow_succ_r by lia.
    lia.
Qed.

(** The digits of a mantissa shifted to the left. *)
Lemma digits_shift (z M : positive) (k : Z) :
  0 <= k -> Zpos M = Zpos z * 2 ^ k ->
  Zpos (digits2_pos M) = Zpos (digits2_pos z) + k.
Proof.
  intros Hk HM. apply digits_unique. rewrite HM.
  pose proof (digits_bounds z) as [H1 H2].
  assert (0 < 2 ^ k) by (apply Z.pow_pos_nonneg; lia).
  replace (Zpos (digits2_pos z) + k - 1) with (Zpos (digits2_pos z) - 1 + k) by lia.
  rewrite !Z.pow_add_r by lia. split; nia.
Qed.

(** Rounding is exact on a value that fits: if [M * 2^E] is [z * 2^T]
    with [z] below [2^53], and [M] carries all the digits the result
    needs, the result is the canonical representation of [z * 2^T]. *)
Lemma binary_round_aux_exact (s : bool) (M z : positive) (E T : Z) :
  E <= T -> Zpos M = Zpos z * 2 ^ (T - E) ->
  Zpos z < 2 ^ 53 ->
  let d := Zpos (digits2_pos z) in
  E <= d + T - 53 -> -1074 <= d + T - 53 <= 971 ->
  binary_round_aux prec emax s (Zpos M) E loc_Exact = normal s z T.
Proof.
  intros HET HM Hz d HE Hrange.
  pose proof (digits_bounds z) as [Hd1 Hd2]. fold d in Hd1, Hd2.
  assert (Hd53 : d <= 53).
  { destruct (Z.leb_spec d 53); [done|].
    assert (2 ^ 53 <= 2 ^ (d - 1)) by (apply Z.pow_le_mono_r; lia). lia. }
  destruct (binary_round_aux_spec s M E) as (m2 & Hb & Hle & Hex & ->).
  assert (Hq : quantum M E = d + T - 53).
  { unfold quantum. rewrite fexp_eq.
    rewrite (digits_shift z M (T - E)) by (done || lia). fold d. lia. }
  rewrite Hq in *.
  set (t := d + T - 53 - E) in *.
  assert (Hsplit : Zpos M = Zpos z * 2 ^ (53 - d) * 2 ^ t).
  { rewrite HM, <- Z.mul_assoc, <- Z.pow_add_r by lia. f_equal. f_equal. lia. }
  assert (Hpos : 0 < 2 ^ t) by (apply Z.pow_pos_nonneg; lia).
  assert (Hm2 : m2 = Zpos z * 2 ^ (53 - d)).
  { rewrite Hex; rewrite Hsplit.
    - by rewrite Z.div_mul by lia.
    - by rewrite Z.mod_mul by lia. }
  assert (Hlt : m2 < 2 ^ 53).
  { rewrite Hm2. replace 53 with (d + (53 - d)) at 2 by lia.
    rewrite Z.pow_add_r by lia.
    assert (0 < 2 ^ (53 - d)) by (apply Z.pow_pos_nonneg; lia). nia. }
  assert (Hgt : 0 < m2).
  { rewrite Hm2. assert (0 < 2 ^ (53 - d)) by (apply Z.pow_pos_nonneg; lia). lia. }
  unfold pack, normal. fold d. destruct m2 as [|p2|p2]; try lia.
  destruct (Z.ltb_spec (Zpos p2) (2 ^ 53)); [|lia].
  destruct (Z.leb_spec (d + T - 53) 971); [|lia].
  f_equal. rewrite <- Hm2. reflexivity.
Qed.

(** [binary_round] aligns first, so it needs no condition on the digits
    of its input. *)
Lemma binary_round_exact (s : bool) (M z : positive) (E T : Z) :
  E <= T -> Zpos M = Zpos z * 2 ^ (T - E) ->
  Zpos z < 2 ^ 53 ->
  let d := Zpos (digits2_pos z) in
  -1074 <= d + T - 53 <= 971 ->
  binary_round prec emax s M E = normal s z T.
Proof.
  intros HET HM Hz d Hrange.
  pose proof (digits_bounds z) as [Hd1 Hd2]. fold d in Hd1, Hd2.
  unfold binary_round, shl_align. rewrite fexp_eq.
  rewrite (digits_shift z M (T - E)) by (done || lia). fold d.
  replace (Z.max (d + (T - E) + E - 53) (-1074)) with (d + T - 53) by lia.
  destruct (d + T - 53 - E) as [|p|p] eqn:En.
  - apply binary_round_aux_exact; (done || lia).
  - apply binary_round_aux_exact; (done || lia).
  - apply (binary_round_aux_exact s _ z _ T); try (done || lia).
    rewrite pos_iter_xO, HM, <- Z.mul_assoc, <- Z.pow_add_r by lia.
    f_equal. f_equal. lia.
Qed.

(** The number an integer below [2^53] denotes. *)
Lemma ofZ_pos (z : positive) :
  Zpos z < 2 ^ 53 -> ofZ (Zpos z) = normal false z 0.
Proof.
  intros Hz. unfold ofZ, binary_normalize.
  pose proof (digits_bounds z) as [Hd1 Hd2].
  assert (Zpos (digits2_pos z) <= 53).
  { destruct (Z.leb_spec (Zpos (digits2_pos z)) 53); [done|].
    assert (2 ^ 53 <= 2 ^ (Zpos (digits2_pos z) - 1))
      by (apply Z.pow_le_mono_r; lia). lia. }
  apply binary_round_exact; try (done || lia).
Qed.

End FloatFacts.

Section WholeNumbers.
Import Number.

Lemma digits_le_53 (z : positive) :
  Zpos z < 2 ^ 53 -> Zpos (digits2_pos z) <= 53.
Proof.
  intros Hz. pose proof (digits_bounds z) as [Hd1 Hd2].
  destruct (Z.leb_spec (Zpos (digits2_pos z)) 53); [done|].
  assert (2 ^ 53 <= 2 ^ (Zpos (digits2_pos z) - 1))
    by (apply Z.pow_le_mono_r; lia). lia.
Qed.

(** The mantissa of the canonical representation. *)
Lemma normal_mantissa (z : positive) :
  Zpos z < 2 ^ 53 ->
  let d := Zpos (digits2_pos z) in
  Zpos (Z.to_pos (Zpos z * 2 ^ (53 - d))) = Zpos z * 2 ^ (53 - d).
Proof.
  intros Hz d. pose proof (digits_le_53 z Hz). fold d in H.
  assert (0 < 2 ^ (53 - d)) by (apply Z.pow_pos_nonneg; lia).
  rewrite Z2Pos.id; lia.
Qed.







End WholeNumbers.

Section Rounding.
Import Number.

(** Rounding keeps a value between two bounds that lie on the grid of
    the result. *)
Lemma binary_round_aux_sandwich (s : bool) (M : positive) (E lo hi k : Z) :
  quantum M E <= k ->
  lo * 2 ^ (k - E) <= Zpos M <= hi * 2 ^ (k - E) ->
  exists m2,
    binary_round_aux prec emax s (Zpos M) E loc_Exact
      = pack s m2 (quantum M E) /\
    lo * 2 ^ (k - quantum M E) <= m2 <= hi * 2 ^ (k - quantum M E) /\
    m2 <= 2 ^ 53.
Proof.
  intros Hk [Hlo Hhi].
  destruct (binary_round_aux_spec s M E) as (m2 & Hb & Hle & Hex & Hr).
  cbv zeta in *. set (q := quantum M E) in *.
  assert (HqE : E <= q) by (unfold q, quantum; lia).
  exists m2. split; [done|]. split; [|done].
  set (t := q - E) in *.
  assert (Ht : 0 < 2 ^ t) by (apply Z.pow_pos_nonneg; lia).
  assert (Hsplit : 2 ^ (k - E) = 2 ^ (k - q) * 2 ^ t).
  { rewrite <- Z.pow_add_r by lia. f_equal. lia. }
  rewrite Hsplit, !Z.mul_assoc in *.
  split.
  - etrans; [|apply Hb]. apply Z.div_le_lower_bound; lia.
  - destruct (Z.eq_dec (Zpos M mod 2 ^ t) 0) as [Hz|Hnz].
    + rewrite (Hex Hz). apply Z.div_le_upper_bound; lia.
    + assert (Hlt : Zpos M < hi * 2 ^ (k - q) * 2 ^ t).
      { destruct (Z.eq_dec (Zpos M) (hi * 2 ^ (k - q) * 2 ^ t)) as [He|]; [|lia].
        rewrite He, Z.mod_mul in Hnz by lia. done. }
      assert (Zpos M / 2 ^ t < hi * 2 ^ (k - q))
        by (apply Z.div_lt_upper_bound; lia).
      lia.
Qed.

Lemma pack_halvesWithin (m2 q lo hi : Z) :
  q <= -1 -> 0 < m2 -> m2 <= 2 ^ 53 -> (q = -1 -> m2 < 2 ^ 53) ->
  lo * 2 ^ (-1 - q) <= m2 <= hi * 2 ^ (-1 - q) ->
  halvesWithin lo hi (pack false m2 q).
Proof.
  intros Hq Hpos Hle Hq1 [Hlo Hhi]. unfold pack.
  destruct m2 as [|p|p]; try lia.
  destruct (Z.ltb_spec (Zpos p) (2 ^ 53)).
  - destruct (Z.leb_spec q 971); [|lia]. simpl. done.
  - assert (Hp : Zpos p = 2 ^ 53) by lia.
    assert (q <= -2) by lia.
    destruct (Z.leb_spec (q + 1) 971); [|lia]. simpl.
    split; [lia|].
    replace (-1 - q) with (Z.succ (-1 - (q + 1))) in Hlo, Hhi by lia.
    rewrite Z.pow_succ_r in Hlo, Hhi by lia.
    rewrite Hp in Hlo, Hhi. change (2 ^ 53) with (2 * 2 ^ 52) in Hlo, Hhi.
    change (Z.pos (2 ^ 52)) with (2 ^ 52). lia.
Qed.

Lemma shl_align_fst (mx : positive) (ex ez : Z) :
  ez <= ex ->
  Zpos (fst (shl_align mx ex ez)) = Zpos mx * 2 ^ (ex - ez).
Proof.
  intros H. unfold shl_align.
  destruct (ez - ex) as [|p|p] eqn:E; try lia.
  - replace (ex - ez) with 0 by lia. simpl. lia.
  - simpl. rewrite pos_iter_xO. f_equal. f_equal. lia.
Qed.

(** [0.5 + r] for [r] in the unit interval lies between 1/2 and 3/2. *)
Lemma add_half_within (r : number) :
  inUnitInterval r = true ->
  halvesWithin 1 3 (add (ofDecimal 1 2) r).
Proof.
  intros Hr. change (ofDecimal 1 2) with (S754_finite false (2 ^ 52) (-53)).
  destruct r as [s|s| |[|] m e]; try done.
  simpl in Hr. apply andb_true_iff in Hr as [He Hm].
  apply Z.ltb_lt in He, Hm.
    unfold add, SFadd. set (ez := Z.min (-53) e).
    assert (Hez : ez <= -53) by (unfold ez; lia).
    assert (Hez' : ez <= e) by (unfold ez; lia).
    rewrite !shl_align_fst by lia. cbn [cond_Zopp].
    assert (HA : Zpos (2 ^ 52) * 2 ^ (-53 - ez) = 2 ^ (-1 - ez)).
    { change (Zpos (2 ^ 52)) with (2 ^ 52). rewrite <- Z.pow_add_r by lia.
      f_equal. lia. }
    rewrite HA. set (A := 2 ^ (-1 - ez)) in *.
    assert (HApos : 0 < A) by (apply Z.pow_pos_nonneg; lia).
    set (B := Zpos m * 2 ^ (e - ez)).
    assert (HB : 0 < B < 2 * A).
    { unfold B, A. assert (0 < 2 ^ (e - ez)) by (apply Z.pow_pos_nonneg; lia).
      split; [lia|].
      replace (2 * 2 ^ (-1 - ez)) with (2 ^ (- e) * 2 ^ (e - ez)).
      - apply Z.mul_lt_mono_pos_r; lia.
      - rewrite <- Z.pow_add_r, <- Z.pow_succ_r by lia. f_equal. lia. }
    destruct (A + B) as [|S|S] eqn:ES; try lia.
    unfold binary_normalize, binary_round.
    pose proof (digits_bounds S) as [HD1 HD2].
    set (D := Zpos (digits2_pos S)) in *.
    assert (HD : D = - ez \/ D = 1 - ez).
    { assert (- ez <= D).
      { destruct (Z.leb_spec (- ez) D); [done|].
        assert (2 ^ D <= 2 ^ (-1 - ez)) by (apply Z.pow_le_mono_r; lia).
        fold A in H0. lia. }
      assert (D <= 1 - ez).
      { destruct (Z.leb_spec D (1 - ez)); [done|].
        assert (2 ^ (1 - ez) <= 2 ^ (D - 1)) by (apply Z.pow_le_mono_r; lia).
        replace (1 - ez) with (Z.succ (Z.succ (-1 - ez))) in H1 by lia.
        rewrite !Z.pow_succ_r in H1 by lia. fold A in H1. lia. }
      lia. }
    assert (Hq : quantum S ez = D + ez - 53).
    { unfold quantum. rewrite fexp_eq. fold D. lia. }
    assert (Hal : shl_align S ez (fexp prec emax (D + ez)) = (S, ez)).
    { unfold shl_align. rewrite fexp_eq.
      destruct (Z.max (D + ez - 53) (-1074) - ez) eqn:E1; try lia; done. }
    rewrite Hal.
    destruct (binary_round_aux_sandwich false S ez 1 3 (-1)) as (m2 & -> & Hb & Hle);
      [lia | fold A; lia |].
    rewrite Hq in *.
    assert (0 < 2 ^ (-1 - (D + ez - 53))) by (apply Z.pow_pos_nonneg; lia).
    apply pack_halvesWithin; lia.
Qed.


(** A whole number [c] times a factor between 1/2 and 3/2 lies, after
    rounding, between [c/2] and [3c/2]. *)
Lemma mul_within (c : Z) (f : number) :
  0 < c < 2 ^ 51 -> halvesWithin 1 3 f ->
  halvesWithin c (3 * c) (mul (ofZ c) f).
Proof.
  intros Hc Hf. destruct c as [|c|c]; try lia.
  assert (Hc53 : Zpos c < 2 ^ 53) by (change (2 ^ 53) with (4 * 2 ^ 51); lia).
  rewrite (ofZ_pos c) by done. unfold normal.
  pose proof (normal_mantissa c Hc53) as Hmc. cbv zeta in Hmc.
  pose proof (digits_bounds c) as [Hd1 Hd2].
  assert (Hdc : Zpos (digits2_pos c) <= 51).
  { destruct (Z.leb_spec (Zpos (digits2_pos c)) 51); [done|].
    assert (2 ^ 51 <= 2 ^ (Zpos (digits2_pos c) - 1))
      by (apply Z.pow_le_mono_r; lia). lia. }
  set (dc := Zpos (digits2_pos c)) in *.
  set (mc := Z.to_pos (Zpos c * 2 ^ (53 - dc))) in *.
  destruct f as [s|s| |[|] mf ef]; try done.
  destruct Hf as [Hef [Hf1 Hf2]].
  unfold mul, SFmul. cbn [xorb].
  set (E := dc + 0 - 53 + ef).
  set (u := 2 ^ (53 - dc)) in *. set (v := 2 ^ (-1 - ef)) in *.
  assert (Hu : 0 < u) by (apply Z.pow_pos_nonneg; lia).
  assert (Hv : 0 < v) by (apply Z.pow_pos_nonneg; lia).
  assert (Huv : 2 ^ (-1 - E) = u * v).
  { unfold u, v, E. rewrite <- Z.pow_add_r by lia. f_equal. lia. }
  assert (HM : Zpos c * 2 ^ (-1 - E) <= Zpos (mc * mf)
               <= 3 * Zpos c * 2 ^ (-1 - E)).
  { rewrite Pos2Z.inj_mul, Hmc, Huv. split; nia. }
  pose proof (digits_bounds (mc * mf)) as [HD1 HD2].
  set (D := Zpos (digits2_pos (mc * mf))) in *.
  assert (HDE : D + E <= 52).
  { destruct (Z.leb_spec (D + E) 52); [done|].
    assert (Hp : 2 ^ (52 - E) <= 2 ^ (D - 1)) by (apply Z.pow_le_mono_r; lia).
    replace (52 - E) with (53 + (-1 - E)) in Hp by lia.
    rewrite Z.pow_add_r in Hp by lia.
    assert (0 < 2 ^ (-1 - E)) by (apply Z.pow_pos_nonneg; lia).
    change (2 ^ 53) with (4 * 2 ^ 51) in Hp. nia. }
  assert (Hq : quantum (mc * mf) E <= -1).
  { unfold quantum. rewrite fexp_eq. fold D. lia. }
  destruct (binary_round_aux_sandwich false (mc * mf) E (Zpos c) (3 * Zpos c) (-1))
    as (m2 & -> & Hb & Hle); [done | done |].
  set (q := quantum (mc * mf) E) in *.
  assert (Hw : 0 < 2 ^ (-1 - q)) by (apply Z.pow_pos_nonneg; lia).
  apply pack_halvesWithin; try lia.
  intros ->. simpl in Hb. change (2 ^ 53) with (4 * 2 ^ 51). lia.
Qed.

(** [Math.round] of a value between [lo/2] and [hi/2]. *)
Lemma Math_round_within (lo hi : Z) (x : number) :
  halvesWithin lo hi x ->
  exists n,
    Math_round x = ofZ n /\ lo <= 2 * n <= hi + 1 /\
    (Z.even hi = true -> 2 * n <= hi).
Proof.
  destruct x as [s|s| |[|] m e]; try done. intros [He [Hlo Hhi]].
  unfold Math_round. destruct (Z.leb_spec 0 e); [lia|]. cbn [cond_Zopp].
  set (u := 2 ^ (-1 - e)) in *.
  assert (Hu : 0 < u) by (apply Z.pow_pos_nonneg; lia).
  replace (2 ^ (- e)) with (2 * u)
    by (unfold u; rewrite <- Z.pow_succ_r by lia; f_equal; lia).
  replace (2 ^ (1 - e)) with (u * 2 * 2).
  2:{ unfold u. replace (1 - e) with (Z.succ (Z.succ (-1 - e))) by lia.
      rewrite !Z.pow_succ_r by lia. lia. }
  replace (2 * Zpos m + 2 * u) with ((Zpos m + u) * 2) by lia.
  rewrite Z.div_mul_cancel_r by lia.
  set (n := (Zpos m + u) / (u * 2)).
  assert (Hn1 : (lo + 1) / 2 <= n).
  { unfold n. rewrite <- (Z.div_mul_cancel_l (lo + 1) 2 u) by lia.
    apply Z.div_le_mono; lia. }
  assert (Hn2 : n <= (hi + 1) / 2).
  { unfold n. rewrite <- (Z.div_mul_cancel_l (hi + 1) 2 u) by lia.
    apply Z.div_le_mono; lia. }
  pose proof (Z.div_mod (lo + 1) 2 ltac:(lia)) as Hdm1.
  pose proof (Z.mod_pos_bound (lo + 1) 2 ltac:(lia)) as Hmb1.
  pose proof (Z.div_mod (hi + 1) 2 ltac:(lia)) as Hdm2.
  pose proof (Z.mod_pos_bound (hi + 1) 2 ltac:(lia)) as Hmb2.
  exists n. split; [|split; [lia|]].
  - destruct (Z.eqb_spec n 0) as [->|]; done.
  - intros Heven. apply Z.even_spec in Heven as [k ->].
    replace (2 * k + 1) with (1 + k * 2) in Hn2 by lia.
    rewrite Z.div_add in Hn2 by lia. change (1 / 2) with 0 in Hn2. lia.
Qed.

End Rounding.

Section Ordering.
Import Number.



End Ordering.

(** ** Retry delays *)

Section DelayFacts.
Import Types Runtime Retry Scenario Number.



Lemma calculateRetryDelay_jitter attempt config random :
  jitter config = Some true ->
  calculateRetryDelay attempt config random
  = Math_round (mul (capped config attempt) (add (ofDecimal 1 2) random)).
Proof. intros H. unfold calculateRetryDelay, capped. by rewrite H. Qed.




(** base=100, cap=10000, multiplier=2, jitter=false: 100, 200, 400; and
    the cap takes over from attempt 8 on. *)
Example delay_100_200_400 :
  calculateRetryDelay 1 plainBackoff (ofZ 0) = ofZ 100 /\
  calculateRetryDelay 2 plainBackoff (ofZ 0) = ofZ 200 /\
  calculateRetryDelay 3 plainBackoff (ofZ 0) = ofZ 400 /\
  calculateRetryDelay 8 plainBackoff (ofZ 0) = ofZ 10000.
Proof. by vm_compute. Qed.


(** The jittered delay of a whole capped delay [c]: a whole number [d]
    with [c/2 <= d <= 3c/2 + 1/2], and [d <= 3c/2] when [c] is even. *)
Lemma jittered_whole (c : Z) (random : number) :
  0 <= c < 2 ^ 51 -> inUnitInterval random = true ->
  exists d,
    Math_round (mul (ofZ c) (add (ofDecimal 1 2) random)) = ofZ d /\
    c <= 2 * d <= 3 * c + 1 /\
    (Z.even c = true -> 2 * d <= 3 * c).
Proof.
  intros Hc Hr. pose proof (add_half_within random Hr) as Hf.
  destruct (Z.eq_dec c 0) as [->|Hc0].
  - exists 0. split; [|by split; [lia|]].
    destruct (add _ _) as [s|s| |[|] mf ef]; by try done.
  - destruct (Math_round_within c (3 * c) _ (mul_within c _ ltac:(lia) Hf))
      as (d & Hd & Hb & Heven).
    exists d. split; [done|]. split; [done|].
    intros He. apply Heven. by rewrite Z.even_mul, He, orb_true_r.
Qed.

(** C6, as amended.  With jitter on and [Math.random()] in [[0, 1)]: when
    the capped delay [Math.min(base * Math.pow(mult, n - 1), max)] is a
    whole number [c] of milliseconds below [2^51], the computed delay is
    a whole number [d] with [c/2 <= d <= 3c/2 + 1/2], and [d <= 3c/2]
    when [c] is even.  Jitter comes after the cap, and the delay can
    exceed [maxDelayMs]: with the EXTERNAL_API preset at attempt 5 and
    a random value of 0.75 it is 12500 against a maximum of 10000. *)
Theorem jittered_delay_in_range_when_capped_is_whole :
  (forall (config : RetryConfig) (n c : Z) (random : number),
      jitter config = Some true ->
      inUnitInterval random = true ->
      capped config n = ofZ c -> 0 <= c < 2 ^ 51 ->
      exists d,
        calculateRetryDelay n config random = ofZ d /\
        c <= 2 * d <= 3 * c + 1 /\
        (Z.even c = true -> 2 * d <= 3 * c)) /\
  (let random := ofDecimal 3 4 in
   jitter RETRY_EXTERNAL_API = Some true /\
   inUnitInterval random = true /\
   capped RETRY_EXTERNAL_API 5 = maxDelayMs RETRY_EXTERNAL_API /\
   maxDelayMs RETRY_EXTERNAL_API = ofZ 10000 /\
   calculateRetryDelay 5 RETRY_EXTERNAL_API random = ofZ 12500).
Proof.
  split; [|by vm_compute].
  intros config n c random Hj Hr Hc Hrange.
  rewrite calculateRetryDelay_jitter, Hc by done. by apply jittered_whole.
Qed.

Lemma jittered_delay_witness :
  exists d,
    calculateRetryDelay 1 RETRY_EXTERNAL_API (ofDecimal 1 4) = ofZ d /\
    1000 <= 2 * d <= 3 * 1000 + 1 /\
    (Z.even 1000 = true -> 2 * d <= 3 * 1000).
Proof.
  apply (proj1 jittered_delay_in_range_when_capped_is_whole
           RETRY_EXTERNAL_API 1 1000 (ofDecimal 1 4) eq_refl eq_refl eq_refl).
  split; by vm_compute.
Defined.

(** C6, counterexamples.  The delay is not always within
    [[0.5 * capped, 1.5 * capped]].  A capped delay of 25 and
    [Math.random()] returning [1 - 2^-53]: the factor [0.5 + random]
    rounds to 1.5, the product is 37.5 and [Math.round] takes it to 38,
    above [1.5 * 25 = 37.5].  A capped delay of 2.5 (base 1, multiplier
    2.5, attempt 2) and [Math.random()] returning 0.05: the product
    1.375 is rounded to 1, below [0.5 * 2.5 = 1.25]. *)
Lemma jittered_delay_outside_range :
  (jitter oddBackoff = Some true /\
   inUnitInterval almostOne = true /\
   capped oddBackoff 1 = ofZ 25 /\
   add (ofDecimal 1 2) almostOne = ofDecimal 3 2 /\
   calculateRetryDelay 1 oddBackoff almostOne = ofZ 38 /\
   ((3 # 2) * toQ (capped oddBackoff 1)
    < toQ (calculateRetryDelay 1 oddBackoff almostOne))%Q) /\
  (let random := ofDecimal 1 20 in
   jitter fractionalBackoff = Some true /\
   inUnitInterval random = true /\
   capped fractionalBackoff 2 = ofDecimal 5 2 /\
   calculateRetryDelay 2 fractionalBackoff random = ofZ 1 /\
   (toQ (calculateRetryDelay 2 fractionalBackoff random)
    < (1 # 2) * toQ (capped fractionalBackoff 2))%Q).
Proof. cbv zeta. repeat split; by vm_compute. Qed.

End DelayFacts.

(** ** The retry loop *)

Section RetryFacts.
Import Types Runtime Retry Scenario.
Context {T : Type}.
Variable operation : Op T.
Variable config : RetryConfig.
Variable onRetry : option (RetryContext -> World -> World).
Variable random : Z -> Number.number.

(** The loop never runs out of iterations: [withRetry] always settles. *)
Lemma retryLoop_total fuel attempt lastError w :
  (Z.to_nat (maxAttempts config + 1 - attempt) <= fuel)%nat ->
  exists r,
    retryLoop operation config onRetry random fuel attempt lastError w = Some r.
Proof.
  revert attempt lastError w.
  induction fuel as [|fuel IH]; intros attempt lastError w Hfuel; simpl.
  - destruct (Z.leb_spec attempt (maxAttempts config)); [lia | eauto].
  - destruct (Z.leb_spec attempt (maxAttempts config)); [|eauto].
    destruct (operation w) as [[v|error] w1]; [eauto|].
    destruct (attempt >=? maxAttempts config); [eauto|].
    destruct (negb (isRetryableError error config)); [eauto|].
    apply IH. lia.
Qed.

Lemma withRetry_total w :
  exists r, withRetry operation config onRetry random w = Some r.
Proof. apply retryLoop_total. lia. Qed.

(** Whatever the path to the failure, the reported number of attempts is
    the configured maximum. *)
Lemma retryLoop_attempts fuel attempt lastError w e w' :
  retryLoop operation config onRetry random fuel attempt lastError w
    = Some (Throw e, w') ->
  attempts e = maxAttempts config.
Proof.
  revert attempt lastError w.
  induction fuel as [|fuel IH]; intros attempt lastError w; simpl.
  - destruct (attempt <=? maxAttempts config); [done|]. by intros [= <- _].
  - destruct (attempt <=? maxAttempts config); [|by intros [= <- _]].
    destruct (operation w) as [[v|error] w1]; [done|].
    destruct (attempt >=? maxAttempts config); [by intros [= <- _]|].
    destruct (negb (isRetryableError error config)); [by intros [= <- _]|].
    apply IH.
Qed.

(** A value is returned only if some invocation returned it. *)
Lemma retryLoop_Ok fuel attempt lastError w v w' :
  retryLoop operation config onRetry random fuel attempt lastError w
    = Some (Ok v, w') ->
  exists w0, fst (operation w0) = Ok v.
Proof.
  revert attempt lastError w.
  induction fuel as [|fuel IH]; intros attempt lastError w; simpl.
  - by destruct (attempt <=? maxAttempts config).
  - destruct (attempt <=? maxAttempts config); [|done].
    destruct (operation w) as [[v1|error] w1] eqn:E.
    + intros [= <- _]. exists w. by rewrite E.
    + destruct (attempt >=? maxAttempts config); [done|].
      destruct (negb (isRetryableError error config)); [done|].
      apply IH.
Qed.

(** A first failure that is not retryable ends the loop after that one
    invocation; the failure raised still carries [maxAttempts]. *)
Lemma withRetry_stops_on_non_retryable w error w1 :
  1 <= maxAttempts config ->
  operation w = (Throw error, w1) ->
  isRetryableError error config = false ->
  withRetry operation config onRetry random w =
  Some (Throw (exhausted config
                 (Some (if Js.instanceofError error then error
                        else Js.newError (Js.toString error)))), w1).
Proof.
  intros Hmax Hop Hnr. unfold withRetry.
  destruct (Z.to_nat (maxAttempts config)) as [|fuel] eqn:E; [lia|].
  simpl. destruct (Z.leb_spec 1 (maxAttempts config)); [|lia].
  rewrite Hop, Hnr. simpl. by destruct (1 >=? maxAttempts config).
Qed.

End RetryFacts.

Section RetryClaims.
Import Types Runtime Retry Scenario.

(** C1, the code at the failing input.  [maxAttempts = 3] and an
    operation that fails with status 404, which is not retryable: the
    operation is invoked once, [withRetry] throws a [RetryError] whose
    [lastError] is that error, and whose [attempts] field is 3, not the
    one attempt that was made. *)
Theorem withRetry_reports_maxAttempts_after_one_attempt :
  exists e w',
    withRetry failing404 config3 None (fun _ => Number.ofZ 0) (freshWorld 1000)
      = Some (Throw e, w') /\
    requests w' = 1%nat /\
    attempts e = 3 /\
    lastError e = statusError "Not found" 404.
Proof. eexists _, _. split; [vm_compute; reflexivity|]. by vm_compute. Qed.

(** An operation always failing with status 500 under [maxAttempts = 3]:
    three invocations, [attempts = 3], the last error kept, two sleeps of
    10 and 20 ms, no timer left. *)
Example withRetry_exhausts_on_500 :
  exists e w',
    withRetry failing500 config3 None (fun _ => Number.ofZ 0) (freshWorld 1000)
      = Some (Throw e, w') /\
    requests w' = 3%nat /\
    attempts e = 3 /\
    lastError e = statusError "boom" 500 /\
    now w' = 1045 /\ timers w' = ∅.
Proof. eexists _, _. split; [vm_compute; reflexivity|]. by vm_compute. Qed.

End RetryClaims.

(** ** Timers *)

Section TimerFacts.
Import Types Runtime TimeoutGuard Retry Scenario.

(** Setting a timer, waiting, then clearing it leaves no new timer. *)
Lemma timers_set_wait_clear (m m' : gmap nat Z) (id : nat) (due : Z) :
  m' ⊆ <[id := due]> m -> delete id m' ⊆ m.
Proof.
  intros H. apply map_subseteq_spec. intros j x Hj.
  apply lookup_delete_Some in Hj as [Hne Hj].
  eapply lookup_weaken in Hj; [|exact H].
  by rewrite lookup_insert_ne in Hj.
Qed.

Lemma withTimeout_clears_timer {T} (p : Promise T) ms op w :
  let w' := snd (withTimeout p ms op w) in
  timers w' ⊆ timers w /\ timers w' !! nextTimerId w = None.
Proof.
  unfold withTimeout, setTimeout, race. simpl.
  destruct (settlesAfter p) as [d|]; [destruct (d <=? timerDelay ms)|]; simpl;
    (split; [apply (timers_set_wait_clear _ _ _ (now w + timerDelay ms)),
               map_filter_subseteq
            | apply lookup_delete_eq]).
Qed.

Lemma fetchWithTimeout_clears_timer transport ms w :
  let w' := snd (fetchWithTimeout transport ms w) in
  timers w' ⊆ timers w /\ timers w' !! nextTimerId w = None.
Proof.
  unfold fetchWithTimeout, setTimeout, fetch. simpl.
  destruct (transport (requests w)) as [r d|e d|];
    [destruct (d <=? timerDelay ms)|destruct (d <=? timerDelay ms)|]; simpl;
    (split; [apply (timers_set_wait_clear _ _ _ (now w + timerDelay ms)),
               map_filter_subseteq
            | apply lookup_delete_eq]).
Qed.

(** Within [0 .. 2^31 - 1] a timer is armed with the delay given; a
    delay that is not below [-2^31] never arms it with more. *)
Lemma timerDelay_in_range ms :
  0 <= ms <= 2147483647 -> timerDelay ms = ms.
Proof.
  intros H. unfold timerDelay, toInt32.
  rewrite Z.mod_small by lia. lia.
Qed.

Lemma timerDelay_le ms :
  -2147483648 <= ms -> 0 <= timerDelay ms <= Z.max 0 ms.
Proof.
  intros H. unfold timerDelay, toInt32.
  pose proof (Z.mod_pos_bound (ms + 2147483648) 4294967296 ltac:(lia)) as Hb.
  pose proof (Z.mod_le (ms + 2147483648) 4294967296 ltac:(lia) ltac:(lia)) as Hle.
  lia.
Qed.

Lemma timerDelay_nonneg ms : 0 <= timerDelay ms.
Proof. unfold timerDelay. lia. Qed.

(** The timer of [sleep] has fired when the sleeper resumes. *)
Lemma sleep_timer_fires ms w :
  timers (sleep ms w) ⊆ timers w /\ timers (sleep ms w) !! nextTimerId w = None.
Proof.
  unfold sleep, setTimeout, elapse. simpl. split.
  - apply map_subseteq_spec. intros j x Hj.
    apply map_lookup_filter_Some in Hj as [Hj Hlt]. simpl in Hlt.
    destruct (decide (j = nextTimerId w)) as [->|Hne].
    + rewrite lookup_insert_eq in Hj. injection Hj as <-. lia.
    + by rewrite lookup_insert_ne in Hj.
  - apply map_lookup_filter_None. right. intros x Hx.
    rewrite lookup_insert_eq in Hx. injection Hx as <-. simpl. lia.
Qed.

(** [createTimeoutController] returns with its timer pending, and the
    timer stays pending for as long as it has not come due. *)
Lemma createTimeoutController_leaves_timer ms d w :
  Z.max 0 d < timerDelay ms ->
  let w' := snd (createTimeoutController ms w) in
  timers w' !! nextTimerId w = Some (now w + timerDelay ms) /\
  timers (elapse d w') !! nextTimerId w = Some (now w + timerDelay ms).
Proof.
  intros Hd. unfold createTimeoutController, setTimeout, elapse. simpl.
  split; [apply lookup_insert_eq|].
  apply map_lookup_filter_Some. split; [apply lookup_insert_eq | simpl; lia].
Qed.

(** The guard itself, on its three exit paths; a deadline of [2^31] ms
    arms a timer that is due at once. *)
Example withTimeout_paths :
  let w0 := freshWorld 1000 in
  let quick := {| settlesAfter := Some 10; outcome := Ok 7 |} in
  let failing : Promise Z :=
    {| settlesAfter := Some 10; outcome := Throw (Js.newError "boom") |} in
  let slow := {| settlesAfter := Some 500; outcome := Ok 7 |} in
  fst (withTimeout quick 100 None w0) = Ok 7 /\
  fst (withTimeout failing 100 None w0) = Throw (Js.newError "boom") /\
  fst (withTimeout slow 100 (Some "job") w0) = Throw (TimeoutError "job" 100) /\
  fst (withTimeout slow 0 None w0) = Throw (TimeoutError "unknown" 0) /\
  fst (withTimeout slow 2147483648 None w0)
    = Throw (TimeoutError "unknown" 2147483648) /\
  timers (snd (withTimeout slow 100 None w0)) = ∅.
Proof. by vm_compute. Qed.

End TimerFacts.

(** ** The combined call *)

Section ResilientFacts.
Import Types Runtime TimeoutGuard Retry CircuitBreaker Resilience Scenario.

Lemma operation_promotes transport timeoutMs w response w1 :
  fetchWithTimeout transport timeoutMs w = (Ok response, w1) ->
  500 <= response_status response ->
  operation transport timeoutMs w
  = (Throw (httpError (response_status response)), w1).
Proof.
  intros Hf Hs. unfold operation. rewrite Hf.
  destruct (Z.geb_spec (response_status response) 500); [done | lia].
Qed.

(** The inner operation returns no response with a status of 500 or more. *)
Lemma operation_Ok transport timeoutMs w response :
  fst (operation transport timeoutMs w) = Ok response ->
  response_status response < 500.
Proof.
  unfold operation.
  destruct (fetchWithTimeout transport timeoutMs w) as [[r|e] w1]; [|done].
  destruct (Z.geb_spec (response_status r) 500); [done|].
  simpl. intros [= <-]. lia.
Qed.

(** What the breaker returns, the operation returned. *)
Lemma call_Ok {T} this (op : Op T) w v :
  fst (call this op w) = Ok v -> exists w0, fst (op w0) = Ok v.
Proof.
  unfold call.
  destruct (state (getState this _)); [|done|];
    match goal with |- context [op ?w0] =>
      destruct (op w0) as [[v1|e] w1] eqn:E; [|done];
      simpl; intros [= <-]; exists w0; by rewrite E end.
Qed.

Lemma isRetryableError_httpError status config :
  Js.includesZ (default [429; 500; 502; 503; 504] (retryableStatusCodes config))
               status = true ->
  isRetryableError (httpError status) config = true.
Proof. intros H. unfold isRetryableError. simpl. by rewrite H. Qed.

Lemma shouldIgnoreError_httpError this status :
  shouldIgnoreError this (httpError status)
  = Js.includesZ (default [] (ignoredStatusCodes (_config this))) status.
Proof. unfold shouldIgnoreError. simpl. by destruct (Js.includesZ _ _). Qed.

(** Whatever the switches, [resilientFetch] hands no 5xx response to its
    caller. *)
Lemma resilientFetch_Ok transport config random w response w' :
  resilientFetch transport config random w = Some (Ok response, w') ->
  response_status response < 500.
Proof.
  unfold resilientFetch.
  set (timeoutMs := match config ≫= timeout with
                    | Some (TimeoutNumber ms) => ms
                    | Some (TimeoutObject ms) =>
                        default DEFAULT_TIMEOUTS_EXTERNAL_API ms
                    | None => DEFAULT_TIMEOUTS_EXTERNAL_API
                    end).
  set (sw := default Unset (circuitBreaker <$> config)).
  set (rs := default Unset (retry <$> config)).
  assert (Hop : forall (op : Op Response) ww r,
             (op = operation transport timeoutMs \/
              exists b, op = call b (operation transport timeoutMs)) ->
             fst (op ww) = Ok r -> response_status r < 500).
  { intros op ww r [->|[b ->]] H.
    - by eapply operation_Ok.
    - apply call_Ok in H as [w0 H]. by eapply operation_Ok. }
  assert (Hfin : forall (op : Op Response) cfg ww,
             (op = operation transport timeoutMs \/
              exists b, op = call b (operation transport timeoutMs)) ->
             match (if match rs with Disabled => false | _ => true end
                    then match withRetry op cfg None random ww with
                         | Some (Ok response, w) => Some (Ok response, w)
                         | Some (Throw e, w) => Some (Throw (Exhausted e), w)
                         | None => None
                         end
                    else match op ww with
                         | (Ok response, w) => Some (Ok response, w)
                         | (Throw e, w) => Some (Throw (Raw e), w)
                         end) with
             | Some (Ok r, _) => response_status r < 500
             | _ => True
             end).
  { intros op cfg ww Hopc.
    destruct (match rs with Disabled => false | _ => true end).
    - destruct (withRetry op cfg None random ww) as [[[r|e] w1]|] eqn:E;
        [|done|done].
      apply retryLoop_Ok in E as [w0 E]. by eapply Hop.
    - destruct (op ww) as [[r|e] w1] eqn:E; [|done].
      eapply Hop; [done|]. by rewrite E. }
  destruct (match sw with Disabled => false | _ => true end).
  - destruct (getOrCreate _ _ _) as [b reg]. intros H.
    specialize (Hfin (call b (operation transport timeoutMs))
                     (match rs with Custom c => c | _ => RETRY_EXTERNAL_API end)
                     (setRegistry reg w) (or_intror (ex_intro _ b eq_refl))).
    by rewrite H in Hfin.
  - intros H.
    specialize (Hfin (operation transport timeoutMs)
                     (match rs with Custom c => c | _ => RETRY_EXTERNAL_API end)
                     w (or_introl eq_refl)).
    by rewrite H in Hfin.
Qed.

(** The server answers 500 every time, all switches at their defaults
    (retry: 3 attempts; breaker: threshold 5).  The retry layer makes
    three requests and gives up with [attempts = 3]; the breaker has
    counted three failures and recorded the last message. *)
Example resilientFetch_500_seen_by_retry_and_breaker :
  let transport : Transport := fun _ => Responds {| response_status := 500 |} 10 in
  exists e w',
    resilientFetch transport None (fun _ => Number.ofZ 0) (freshWorld 1000)
      = Some (Throw (Exhausted e), w') /\
    requests w' = 3%nat /\
    attempts e = 3 /\
    Js.statusCode (lastError e) = Some 500 /\
    (state <$> circuitRegistry w' !! "unknown") = Some closed /\
    (failureCount <$> circuitRegistry w' !! "unknown") = Some 3 /\
    (Runtime.lastError <$> circuitRegistry w' !! "unknown") = Some (Some "HTTP 500") /\
    timers w' = ∅.
Proof. eexists _, _. split; [vm_compute; reflexivity|]. by vm_compute. Qed.

(** A 404 is returned as a response, costs one request and leaves the
    breaker's failure counter at zero. *)
Example resilientFetch_404_is_a_response :
  let transport : Transport := fun _ => Responds {| response_status := 404 |} 10 in
  exists w',
    resilientFetch transport None (fun _ => Number.ofZ 0) (freshWorld 1000)
      = Some (Ok {| response_status := 404 |}, w') /\
    requests w' = 1%nat /\
    (failureCount <$> circuitRegistry w' !! "unknown") = Some 0.
Proof. eexists. split; [vm_compute; reflexivity|]. by vm_compute. Qed.

End ResilientFacts.

(** ** Timers across the combined call *)

Section TimerClaims.
Import Types Runtime TimeoutGuard Retry CircuitBreaker Resilience Scenario.

Lemma call_leaves_no_timer {T} this (op : Op T) :
  leavesNoTimer op -> leavesNoTimer (call this op).
Proof.
  intros Hop w. unfold call.
  set (w1 := setRegistry _ w).
  destruct (state (getState this (circuitRegistry w1))); simpl; [|done|];
    (specialize (Hop w1); by destruct (op w1) as [[v|e] w2]).
Qed.

Lemma operation_leaves_no_timer transport ms :
  leavesNoTimer (operation transport ms).
Proof.
  intros w. unfold operation.
  pose proof (fetchWithTimeout_clears_timer transport ms w) as [H _].
  destruct (fetchWithTimeout transport ms w) as [[r|e] w1]; simpl in *;
    [destruct (_ >=? _)|]; done.
Qed.

Lemma retryLoop_leaves_no_timer {T} (op : Op T) config random :
  leavesNoTimer op ->
  forall fuel attempt lastError w r w',
    retryLoop op config None random fuel attempt lastError w = Some (r, w') ->
    timers w' ⊆ timers w.
Proof.
  intros Hop. induction fuel as [|fuel IH]; intros attempt lastError w r w'; simpl.
  - destruct (attempt <=? maxAttempts config); [done|]. by intros [= _ <-].
  - destruct (attempt <=? maxAttempts config); [|by intros [= _ <-]].
    specialize (Hop w). destruct (op w) as [[v|error] w1]; simpl in Hop.
    + by intros [= _ <-].
    + destruct (attempt >=? maxAttempts config); [by intros [= _ <-]|].
      destruct (negb (isRetryableError error config)); [by intros [= _ <-]|].
      intros H. apply IH in H.
      etrans; [exact H|]. etrans; [apply sleep_timer_fires | exact Hop].
Qed.

Lemma resilientFetch_leaves_no_timer transport config random w r w' :
  resilientFetch transport config random w = Some (r, w') ->
  timers w' ⊆ timers w.
Proof.
  unfold resilientFetch.
  set (timeoutMs := match config ≫= timeout with
                    | Some (TimeoutNumber ms) => ms
                    | Some (TimeoutObject ms) =>
                        default DEFAULT_TIMEOUTS_EXTERNAL_API ms
                    | None => DEFAULT_TIMEOUTS_EXTERNAL_API
                    end).
  set (sw := default Unset (circuitBreaker <$> config)).
  set (rs := default Unset (retry <$> config)).
  assert (Hfin : forall (op : Op Response) cfg ww,
             leavesNoTimer op ->
             match (if match rs with Disabled => false | _ => true end
                    then match withRetry op cfg None random ww with
                         | Some (Ok response, w) => Some (Ok response, w)
                         | Some (Throw e, w) => Some (Throw (Exhausted e), w)
                         | None => None
                         end
                    else match op ww with
                         | (Ok response, w) => Some (Ok response, w)
                         | (Throw e, w) => Some (Throw (Raw e), w)
                         end) with
             | Some (_, w1) => timers w1 ⊆ timers ww
             | None => True
             end).
  { intros op cfg ww Hop.
    destruct (match rs with Disabled => false | _ => true end).
    - destruct (withRetry op cfg None random ww) as [[[v|e] w1]|] eqn:E;
        [| |done]; by eapply retryLoop_leaves_no_timer.
    - specialize (Hop ww). by destruct (op ww) as [[v|e] w1]. }
  destruct (match sw with Disabled => false | _ => true end).
  - destruct (getOrCreate _ _ _) as [b reg]. intros H.
    specialize (Hfin (call b (operation transport timeoutMs))
                     (match rs with Custom c => c | _ => RETRY_EXTERNAL_API end)
                     (setRegistry reg w)
                     (call_leaves_no_timer _ _ (operation_leaves_no_timer _ _))).
    by rewrite H in Hfin.
  - intros H.
    specialize (Hfin (operation transport timeoutMs)
                     (match rs with Custom c => c | _ => RETRY_EXTERNAL_API end)
                     w (operation_leaves_no_timer _ _)).
    by rewrite H in Hfin.
Qed.
(** C7, as amended.  [withTimeout] and [fetchWithTimeout] clear the timer
    they set on every exit path (the guarded promise or request settled
    with a value, settled with an error, or the timer fired), and the
    timer of [sleep] has fired when [sleep] resumes: after each of them
    the timer they created is not pending and no timer is pending that
    was not pending before; the same holds for a whole call of
    [resilientFetch], whatever its outcome.  The timer of
    [createTimeoutController] is never cleared: it is pending when the
    function returns and remains so until it comes due, [timerDelay ms]
    after it was set, which is [ms] for a timeout within
    [0 .. 2147483647]. *)
Theorem timers_cleared_except_by_createTimeoutController :
  (forall T (p : Promise T) ms op w,
      let w' := snd (withTimeout p ms op w) in
      timers w' ⊆ timers w /\ timers w' !! nextTimerId w = None) /\
  (forall transport ms w,
      let w' := snd (fetchWithTimeout transport ms w) in
      timers w' ⊆ timers w /\ timers w' !! nextTimerId w = None) /\
  (forall ms w,
      timers (sleep ms w) ⊆ timers w /\
      timers (sleep ms w) !! nextTimerId w = None) /\
  (forall transport config random w r w',
      resilientFetch transport config random w = Some (r, w') ->
      timers w' ⊆ timers w) /\
  (forall ms d w,
      Z.max 0 d < timerDelay ms ->
      let w' := snd (createTimeoutController ms w) in
      timers w' !! nextTimerId w = Some (now w + timerDelay ms) /\
      timers (elapse d w') !! nextTimerId w = Some (now w + timerDelay ms)) /\
  (forall ms, 0 <= ms <= 2147483647 -> timerDelay ms = ms).
Proof.
  split; [intros; apply withTimeout_clears_timer|].
  split; [intros; apply fetchWithTimeout_clears_timer|].
  split; [intros; apply sleep_timer_fires|].
  split; [intros; by eapply resilientFetch_leaves_no_timer|].
  split; [intros; by apply createTimeoutController_leaves_timer|].
  apply timerDelay_in_range.
Qed.

(** C7, counterexample.  No timer is pending; a controller is created with
    a timeout of 5000 ms and a request guarded by its signal is answered
    after 10 ms.  The request has settled, and the controller's timer is
    still pending, due 4990 ms later. *)
Lemma timeout_controller_timer_outlives_fetch :
  let transport : Transport := fun _ => Responds {| response_status := 200 |} 10 in
  let w0 := freshWorld 1000 in
  let w1 := snd (createTimeoutController 5000 w0) in
  let settled := fetch transport 5000 w1 in
  timers w0 = ∅ /\
  fst settled = Ok {| response_status := 200 |} /\
  now (snd settled) = 1010 /\
  timers (snd settled) !! 0%nat = Some 6000.
Proof. by vm_compute. Qed.

End TimerClaims.

(** * Further properties of the package *)

(** ** The breaker over time *)

Section BreakerLifecycle.
Import Types Runtime CircuitBreaker Scenario Script.

Implicit Types (this : CircuitBreaker) (reg : gmap string CircuitBreakerState)
  (w : World).

Lemma checkStateTransition_open this t o reg :
  state (getState this reg) = open ->
  openedAt (getState this reg) = Some o -> o <> 0 ->
  checkStateTransition this t reg =
  if t - o >=? resetTimeoutMs (_config this)
  then transitionTo this half_open t reg else reg.
Proof.
  intros Hs Ho Hne. unfold checkStateTransition. rewrite Hs, Ho. simpl.
  by destruct (Z.eqb_spec o 0).
Qed.

Lemma checkStateTransition_still_open this t reg :
  state (getState this (checkStateTransition this t reg)) = open ->
  checkStateTransition this t reg = reg.
Proof.
  unfold checkStateTransition.
  destruct (CircuitState_eqb _ _ && truthy _); [|done].
  destruct (_ >=? _); [|done].
  by rewrite getState_transitionTo.
Qed.

Lemma call_rejects_while_open {T} this (op : Op T) w o :
  state (getState this (circuitRegistry w)) = open ->
  openedAt (getState this (circuitRegistry w)) = Some o -> o <> 0 ->
  now w - o < resetTimeoutMs (_config this) ->
  call this op w =
  (Throw (CircuitBreakerOpenError (_name this)
            (resetTimeoutMs (_config this) - (now w - o))), w).
Proof.
  intros Hs Ho Hne Hlt. unfold call.
  rewrite (checkStateTransition_open this _ o _ Hs Ho Hne).
  destruct (Z.geb_spec (now w - o) (resetTimeoutMs (_config this))); [lia|].
  rewrite setRegistry_id, Hs. unfold remainingTimeoutMs. rewrite Hs, Ho. simpl.
  destruct (Z.eqb_spec o 0); [done|]. simpl.
  destruct (Z.gtb_spec (resetTimeoutMs (_config this) - (now w - o)) 0);
    [done | lia].
Qed.

(** X1.  While the breaker is open and less than [resetTimeoutMs] has
    elapsed since it opened, [call] throws [CircuitBreakerOpenError] with
    the handle's name and the time still to wait,
    [resetTimeoutMs - elapsed], and leaves the world as it is: the
    operation is not invoked and nothing is written. *)
Theorem open_breaker_rejects_until_reset {T} this (op : Op T) w o :
  state (getState this (circuitRegistry w)) = open ->
  openedAt (getState this (circuitRegistry w)) = Some o -> o <> 0 ->
  now w - o < resetTimeoutMs (_config this) ->
  call this op w =
  (Throw (CircuitBreakerOpenError (_name this)
            (resetTimeoutMs (_config this) - (now w - o))), w).
Proof. apply call_rejects_while_open. Qed.

Lemma open_breaker_rejects_witness :
  call exampleBreaker failing500 (openWorld 1000)
  = (Throw (CircuitBreakerOpenError "svc" 900), openWorld 1000).
Proof.
  apply (open_breaker_rejects_until_reset exampleBreaker failing500
           (openWorld 1000) 900).
  - vm_compute. reflexivity.
  - vm_compute. reflexivity.
  - lia.
  - vm_compute. reflexivity.
Defined.

(** X2.  Once [resetTimeoutMs] has elapsed since the breaker opened, the
    next [call] moves it to half-open and invokes the operation as a
    probe; the caller gets the operation's own outcome.  After a success
    the breaker is closed if [successThreshold <= 1] and half-open
    otherwise; after an ignored failure it is half-open; after a counted
    failure it is open again, with the opening time set to the time of
    that failure. *)
Theorem open_breaker_probes_after_reset {T} this (op : Op T) w o :
  keepsRegistry op ->
  state (getState this (circuitRegistry w)) = open ->
  openedAt (getState this (circuitRegistry w)) = Some o -> o <> 0 ->
  resetTimeoutMs (_config this) <= now w - o ->
  let probing :=
    setRegistry (transitionTo this half_open (now w) (circuitRegistry w)) w in
  let after := snd (call this op w) in
  fst (call this op w) = fst (op probing) /\
  requests after = requests (snd (op probing)) /\
  get_state this (circuitRegistry after) =
  match fst (op probing) with
  | Ok _ => if 1 >=? successThreshold (_config this) then closed else half_open
  | Throw e => if shouldIgnoreError this e then half_open else open
  end /\
  (forall e, fst (op probing) = Throw e -> shouldIgnoreError this e = false ->
             openedAt (getState this (circuitRegistry after)) = Some (now after)).
Proof.
  intros Hk Hs Ho Hne Hge probing after.
  assert (Hp : state (getState this (circuitRegistry probing)) = half_open).
  { unfold probing. rewrite registry_setRegistry, getState_transitionTo. done. }
  assert (Hsc : successCount (getState this (circuitRegistry probing)) = 0).
  { unfold probing. rewrite registry_setRegistry, getState_transitionTo. done. }
  assert (Hcall : call this op w = call this op probing).
  { unfold call at 1.
    rewrite (checkStateTransition_open this _ o _ Hs Ho Hne).
    destruct (Z.geb_spec (now w - o) (resetTimeoutMs (_config this))); [|lia].
    fold probing. rewrite Hp.
    rewrite (call_not_open this op probing) by congruence. done. }
  subst after. rewrite Hcall.
  rewrite (call_not_open this op probing) by congruence.
  specialize (Hk probing).
  destruct (op probing) as [[v|e] w2]; simpl in *.
  - split; [done|split; [done|split; [|intros ? [=]]]]. rewrite Hk. unfold get_state.
    rewrite (getState_onSuccess_half_open _ _ _ Hp). cbv zeta. rewrite Hsc.
    change (0 + 1) with 1. by destruct (1 >=? _).
  - split; [done|split; [done|split]].
    + rewrite Hk. unfold get_state.
      destruct (shouldIgnoreError this e) eqn:Hi.
      * by rewrite (onFailure_ignored _ _ _ _ Hi).
      * by rewrite (getState_onFailure_half_open _ _ _ _ Hi Hp).
    + intros e' [= <-] Hi. rewrite Hk.
      by rewrite (getState_onFailure_half_open _ _ _ _ Hi Hp).
Qed.

Lemma open_breaker_probes_witness :
  fst (call exampleBreaker returning (openWorld 2000)) = Ok tt /\
  get_state exampleBreaker
    (circuitRegistry (snd (call exampleBreaker returning (openWorld 2000))))
    = half_open.
Proof.
  pose proof (open_breaker_probes_after_reset exampleBreaker returning
                (openWorld 2000) 900 (fun w => eq_refl)) as H.
  cbv zeta in H.
  destruct H as (Hres & _ & Hst & _);
    [vm_compute; reflexivity | vm_compute; reflexivity | lia
    | vm_compute; congruence |].
  split; [rewrite Hres | rewrite Hst]; reflexivity.
Defined.

(** X3.  [isAllowingRequests] answers what [call] will do at the same
    moment: when it answers [false], [call] rejects with
    [CircuitBreakerOpenError] and changes nothing; when it answers [true],
    [call] invokes the operation on the registry [isAllowingRequests]
    leaves behind and hands the outcome to [onSuccess] or [onFailure]. *)
Theorem isAllowingRequests_decides_call {T} this (op : Op T) w :
  let allowed := fst (isAllowingRequests this (now w) (circuitRegistry w)) in
  let w1 :=
    setRegistry (snd (isAllowingRequests this (now w) (circuitRegistry w))) w in
  (allowed = false ->
   call this op w =
   (Throw (CircuitBreakerOpenError (_name this)
             (remainingTimeoutMs this (now w) (circuitRegistry w))), w)) /\
  (allowed = true ->
   call this op w =
   match op w1 with
   | (Ok r, w') =>
       (Ok r, setRegistry (onSuccess this (now w') (circuitRegistry w')) w')
   | (Throw e, w') =>
       (Throw e, setRegistry (onFailure this e (now w') (circuitRegistry w')) w')
   end).
Proof.
  cbv zeta. unfold isAllowingRequests, call. simpl fst. simpl snd.
  rewrite !registry_setRegistry, !now_setRegistry.
  destruct (state (getState this
              (checkStateTransition this (now w) (circuitRegistry w)))) eqn:Hs;
    simpl; (split; [intros H|intros H]); try done.
  pose proof (checkStateTransition_still_open _ _ _ Hs) as Hc.
  by rewrite Hc, setRegistry_id.
Qed.

(** X4.  [remainingTimeoutMs] is never negative, is zero whenever the
    breaker is not open, and, read at or after the opening time, never
    exceeds [resetTimeoutMs]. *)
Theorem remainingTimeoutMs_bounds this t reg :
  0 <= remainingTimeoutMs this t reg /\
  (state (getState this reg) <> open -> remainingTimeoutMs this t reg = 0) /\
  (forall o, openedAt (getState this reg) = Some o -> o <= t ->
             remainingTimeoutMs this t reg
             <= Z.max 0 (resetTimeoutMs (_config this))).
Proof.
  unfold remainingTimeoutMs.
  destruct (state (getState this reg)) eqn:Hs; simpl;
    try (split; [lia|split; [done|intros; lia]]).
  destruct (truthy (openedAt (getState this reg))) eqn:Ht; simpl;
    [|split; [lia|split; [done|intros; lia]]].
  split; [|split; [done|]].
  - destruct (Z.gtb_spec
                (resetTimeoutMs (_config this)
                 - (t - default 0 (openedAt (getState this reg)))) 0); lia.
  - intros o Ho Hle. rewrite Ho. simpl.
    destruct (Z.gtb_spec (resetTimeoutMs (_config this) - (t - o)) 0); lia.
Qed.

Lemma getState_onSuccess_closed this t reg :
  state (getState this reg) = closed ->
  getState this (onSuccess this t reg) =
  let s := getState this reg in
  {| state := closed; failureCount := 0; successCount := successCount s;
     lastFailureTime := lastFailureTime s; openedAt := openedAt s;
     lastError := lastError s |}.
Proof.
  intros Hs. unfold onSuccess. cbv zeta. rewrite Hs.
  rewrite getState_setState. unfold spread; simpl. by rewrite Hs.
Qed.

Lemma onSuccess_open this t reg :
  state (getState this reg) = open -> onSuccess this t reg = reg.
Proof. intros Hs. unfold onSuccess. cbv zeta. by rewrite Hs. Qed.

Lemma getState_onFailure_open this e t reg :
  shouldIgnoreError this e = false ->
  state (getState this reg) = open ->
  getState this (onFailure this e t reg) =
  let s := getState this reg in
  {| state := open; failureCount := failureCount s;
     successCount := successCount s;
     lastFailureTime := Some t; openedAt := openedAt s;
     lastError :=
       Some (String.substring 0 200
               (if Js.instanceofError e then Js.message e else Js.toString e)) |}.
Proof.
  intros Hi Hs. unfold onFailure. rewrite Hi. cbv zeta. rewrite Hs.
  rewrite getState_setState. unfold spread; simpl. by rewrite Hs.
Qed.

(** X5.  An outcome that arrives when the record is already open (another
    call opened it in the meantime) does not move the breaker: a success
    writes nothing, and a counted failure only refreshes the last-failure
    time and message; state, opening time and both counters stay, so the
    open period is not extended. *)
Theorem late_outcome_on_open_breaker this e t reg :
  state (getState this reg) = open ->
  shouldIgnoreError this e = false ->
  onSuccess this t reg = reg /\
  (let s := getState this reg in
   let s' := getState this (onFailure this e t reg) in
   state s' = open /\ openedAt s' = openedAt s /\
   failureCount s' = failureCount s /\ successCount s' = successCount s /\
   lastFailureTime s' = Some t).
Proof.
  intros Hs Hi. split; [by apply onSuccess_open|].
  cbv zeta. by rewrite (getState_onFailure_open _ _ _ _ Hi Hs).
Qed.

Lemma late_outcome_witness :
  onSuccess exampleBreaker 1500 (circuitRegistry (openWorld 1000))
    = circuitRegistry (openWorld 1000) /\
  openedAt (getState exampleBreaker
              (onFailure exampleBreaker (statusError "boom" 500) 1500
                 (circuitRegistry (openWorld 1000)))) = Some 900.
Proof.
  pose proof (late_outcome_on_open_breaker exampleBreaker
                (statusError "boom" 500) 1500 (circuitRegistry (openWorld 1000)))
    as H.
  cbv zeta in H.
  destruct H as (Hok & _ & Hat & _);
    [vm_compute; reflexivity | vm_compute; reflexivity |].
  split; [exact Hok|]. rewrite Hat. vm_compute. reflexivity.
Defined.

Ltac consistency :=
  unfold consistent; simpl; repeat split; intros;
  try done; try lia; try (by eexists); try congruence; auto.

Lemma consistent_initialState : consistent initialState.
Proof. consistency. Qed.

Lemma consistent_transitionTo this s t reg :
  consistent (getState this reg) ->
  (s = half_open -> is_Some (openedAt (getState this reg))) ->
  consistent (getState this (transitionTo this s t reg)).
Proof.
  intros (H1 & H2 & H3 & H4 & H5) Hh. rewrite getState_transitionTo.
  destruct s; consistency.
Qed.

Lemma consistent_checkStateTransition this t reg :
  consistent (getState this reg) ->
  consistent (getState this (checkStateTransition this t reg)).
Proof.
  intros Hc. unfold checkStateTransition.
  destruct (CircuitState_eqb _ _ && truthy _) eqn:E; [|done].
  destruct (_ >=? _); [|done].
  apply consistent_transitionTo; [done|]. intros _.
  apply andb_true_iff in E as [_ E]. by destruct (openedAt _).
Qed.

Lemma consistent_onSuccess this t reg :
  consistent (getState this reg) ->
  consistent (getState this (onSuccess this t reg)).
Proof.
  intros Hc. destruct (state (getState this reg)) eqn:Hs.
  - rewrite (getState_onSuccess_closed _ _ _ Hs). cbv zeta.
    destruct Hc as (H1 & H2 & H3 & H4 & H5).
    assert (successCount (getState this reg) = 0) by (apply H3; congruence).
    consistency.
  - by rewrite (onSuccess_open _ _ _ Hs).
  - rewrite (getState_onSuccess_half_open _ _ _ Hs). cbv zeta.
    destruct Hc as (H1 & H2 & H3 & H4 & H5).
    assert (is_Some (openedAt (getState this reg))) by (apply H5; congruence).
    destruct (_ >=? _); consistency.
Qed.

Lemma consistent_onFailure this e t reg :
  consistent (getState this reg) ->
  consistent (getState this (onFailure this e t reg)).
Proof.
  intros Hc. destruct (shouldIgnoreError this e) eqn:Hi;
    [by rewrite (onFailure_ignored _ _ _ _ Hi)|].
  destruct Hc as (H1 & H2 & H3 & H4 & H5).
  destruct (state (getState this reg)) eqn:Hs.
  - assert (successCount (getState this reg) = 0) by (apply H3; congruence).
    rewrite (getState_onFailure_closed _ _ _ _ Hi Hs). cbv zeta.
    destruct (_ >=? _); consistency.
  - assert (successCount (getState this reg) = 0) by (apply H3; congruence).
    assert (is_Some (openedAt (getState this reg))) by (apply H5; congruence).
    rewrite (getState_onFailure_open _ _ _ _ Hi Hs). cbv zeta. consistency.
  - rewrite (getState_onFailure_half_open _ _ _ _ Hi Hs). cbv zeta. consistency.
Qed.

(** X6.  Every operation of a handle keeps its record consistent: the
    counters are never negative, the success counter is zero outside
    half-open, and an opening time is stored exactly when the breaker is
    not closed.  This holds for [call] with any outcome, [forceOpen],
    [forceClose] and [reset], whatever the handle's configuration. *)
Theorem breaker_record_stays_consistent {T} this (op : Op T) w t :
  keepsRegistry op ->
  consistent (getState this (circuitRegistry w)) ->
  consistent (getState this (circuitRegistry (snd (call this op w)))) /\
  consistent (getState this (forceOpen this t (circuitRegistry w))) /\
  consistent (getState this (forceClose this t (circuitRegistry w))) /\
  consistent (getState this (reset this (circuitRegistry w))).
Proof.
  intros Hk Hc. split; [|split; [|split]].
  - unfold call.
    pose proof (consistent_checkStateTransition this (now w) _ Hc) as Hc1.
    set (reg1 := checkStateTransition this (now w) (circuitRegistry w)) in *.
    rewrite registry_setRegistry.
    destruct (state (getState this reg1)) eqn:Hs; simpl; try done;
      (specialize (Hk (setRegistry reg1 w));
       destruct (op (setRegistry reg1 w)) as [[v|e] w2]; simpl in *;
       rewrite Hk;
       [by apply consistent_onSuccess | by apply consistent_onFailure]).
  - by apply consistent_transitionTo.
  - by apply consistent_transitionTo.
  - unfold reset, getState. rewrite lookup_insert_eq. apply consistent_initialState.
Qed.

Lemma breaker_record_consistent_witness :
  consistent
    (getState exampleBreaker
       (circuitRegistry (snd (call exampleBreaker failing500 (freshWorld 1000))))).
Proof.
  apply (breaker_record_stays_consistent exampleBreaker failing500
           (freshWorld 1000) 0 (fun w => eq_refl)).
  unfold consistent. vm_compute. repeat split; congruence.
Defined.

End BreakerLifecycle.

(** ** The registry *)

Section BreakerRegistry.
Import Types Runtime CircuitBreaker Scenario Script Exports.

Implicit Types (this : CircuitBreaker) (reg : gmap string CircuitBreakerState)
  (w : World).

Lemma lookup_setState_ne this u reg name :
  name <> _name this -> setState this u reg !! name = reg !! name.
Proof. intros H. unfold setState. by rewrite lookup_insert_ne. Qed.

Lemma lookup_transitionTo_ne this s t reg name :
  name <> _name this -> transitionTo this s t reg !! name = reg !! name.
Proof. intros H. unfold transitionTo. by apply lookup_setState_ne. Qed.

Lemma lookup_checkStateTransition_ne this t reg name :
  name <> _name this -> checkStateTransition this t reg !! name = reg !! name.
Proof.
  intros H. unfold checkStateTransition.
  destruct (_ && _); [|done]. destruct (_ >=? _); [|done].
  by apply lookup_transitionTo_ne.
Qed.

Lemma lookup_onSuccess_ne this t reg name :
  name <> _name this -> onSuccess this t reg !! name = reg !! name.
Proof.
  intros H. unfold onSuccess. cbv zeta.
  destruct (state (getState this reg)); [|done|].
  - by apply lookup_setState_ne.
  - destruct (_ >=? _);
      [by apply lookup_transitionTo_ne | by apply lookup_setState_ne].
Qed.

Lemma lookup_onFailure_ne this e t reg name :
  name <> _name this -> onFailure this e t reg !! name = reg !! name.
Proof.
  intros H. unfold onFailure. destruct (shouldIgnoreError this e); [done|].
  cbv zeta. destruct (state (getState this reg)).
  - destruct (_ >=? _);
      [rewrite lookup_transitionTo_ne by done | rewrite lookup_setState_ne by done];
      by apply lookup_setState_ne.
  - by apply lookup_setState_ne.
  - rewrite lookup_transitionTo_ne by done. by apply lookup_setState_ne.
Qed.

Lemma call_keepsRecord {T} this (op : Op T) name :
  name <> _name this -> keepsRecord name op -> keepsRecord name (call this op).
Proof.
  intros Hne Hk w. unfold call.
  set (w1 := setRegistry _ w).
  assert (Hw1 : circuitRegistry w1 !! name = circuitRegistry w !! name).
  { unfold w1. rewrite registry_setRegistry.
    by apply lookup_checkStateTransition_ne. }
  destruct (state (getState this (circuitRegistry w1))); simpl; [|done|];
    (specialize (Hk w1); destruct (op w1) as [[v|e] w2]; simpl in *;
     [rewrite lookup_onSuccess_ne by done | rewrite lookup_onFailure_ne by done];
     congruence).
Qed.

(** X7.  A handle reads and writes the record of its own name only: after
    [call] (with an operation that leaves that other record alone),
    [forceOpen], [forceClose], [reset] or [isAllowingRequests], the record
    of every other name is what it was. *)
Theorem breaker_touches_only_its_record {T} this (op : Op T) w t name :
  name <> _name this -> keepsRecord name op ->
  circuitRegistry (snd (call this op w)) !! name = circuitRegistry w !! name /\
  forceOpen this t (circuitRegistry w) !! name = circuitRegistry w !! name /\
  forceClose this t (circuitRegistry w) !! name = circuitRegistry w !! name /\
  reset this (circuitRegistry w) !! name = circuitRegistry w !! name /\
  snd (isAllowingRequests this t (circuitRegistry w)) !! name
    = circuitRegistry w !! name.
Proof.
  intros Hne Hk. split; [by apply call_keepsRecord|].
  split; [by apply lookup_transitionTo_ne|].
  split; [by apply lookup_transitionTo_ne|].
  split; [unfold reset; by rewrite lookup_insert_ne|].
  by apply lookup_checkStateTransition_ne.
Qed.

Lemma breaker_touches_only_its_record_witness :
  circuitRegistry (snd (call exampleBreaker failing500 (openWorld 2000))) !! "other"
  = circuitRegistry (openWorld 2000) !! "other".
Proof.
  apply (breaker_touches_only_its_record exampleBreaker failing500
           (openWorld 2000) 0 "other").
  - vm_compute. congruence.
  - intros w. reflexivity.
Defined.

Lemma call_success_closed {T} this (op : Op T) w :
  succeeds op -> keepsRegistry op ->
  state (getState this (circuitRegistry w)) = closed ->
  state (getState this (circuitRegistry (snd (call this op w)))) = closed /\
  failureCount (getState this (circuitRegistry (snd (call this op w)))) = 0 /\
  lastError (getState this (circuitRegistry (snd (call this op w))))
    = lastError (getState this (circuitRegistry w)).
Proof.
  intros Hg Hk Hs.
  destruct (call_success this op w Hg Hk) as (v & Hcall); [congruence|].
  rewrite Hcall. simpl snd. rewrite registry_setRegistry.
  by rewrite (getState_onSuccess_closed _ _ _ Hs).
Qed.

(** X8.  The failure counter counts consecutive failures: while closed, a
    success puts it back to zero.  After [k] counted failures that stay
    below the threshold, one success, and [k'] more counted failures with
    [k' < failureThreshold], the breaker is still closed and the counter
    is [k'], even when [k + k'] is at or beyond the threshold. *)
Theorem success_restarts_failure_count
    {T} this (good bad : Op T) w (k k' : nat) :
  succeeds good -> keepsRegistry good ->
  failsCounted this bad -> keepsRegistry bad ->
  state (getState this (circuitRegistry w)) = closed ->
  failureCount (getState this (circuitRegistry w)) + Z.of_nat k
    < failureThreshold (_config this) ->
  Z.of_nat k' < failureThreshold (_config this) ->
  let w' := callsN this bad k' (callsN this good 1 (callsN this bad k w)) in
  get_state this (circuitRegistry w') = closed /\
  failureCount (getState this (circuitRegistry w')) = Z.of_nat k'.
Proof.
  intros Hg Hgk Hb Hbk Hs Hk Hk' w'.
  destruct (callsN_failures_below_threshold this bad Hb Hbk k w Hs Hk) as [H1 _].
  destruct (call_success_closed this good (callsN this bad k w) Hg Hgk H1)
    as (H2 & H3 & _).
  destruct (callsN_failures_below_threshold this bad Hb Hbk k'
              (callsN this good 1 (callsN this bad k w))) as [H4 H5].
  - exact H2.
  - simpl callsN. rewrite H3. lia.
  - subst w'. unfold get_state. split; [exact H4|].
    rewrite H5. simpl callsN. rewrite H3. lia.
Qed.

Lemma success_restarts_failure_count_witness :
  let w' := callsN exampleBreaker failing500 2
              (callsN exampleBreaker returning 1
                 (callsN exampleBreaker failing500 2 (freshWorld 1000))) in
  get_state exampleBreaker (circuitRegistry w') = closed /\
  failureCount (getState exampleBreaker (circuitRegistry w')) = 2.
Proof.
  apply (success_restarts_failure_count exampleBreaker returning failing500
           (freshWorld 1000) 2 2
           (fun w => ex_intro _ tt eq_refl) (fun w => eq_refl)
           (fun w => ex_intro _ _ (conj eq_refl eq_refl)) (fun w => eq_refl)).
  - reflexivity.
  - vm_compute. reflexivity.
  - vm_compute. reflexivity.
Defined.

Lemma substring_0_length (n : nat) (s : string) :
  (String.length (String.substring 0 n s) <= n)%nat.
Proof.
  revert s. induction n as [|n IH]; intros [|c s]; simpl; try lia.
  specialize (IH s). lia.
Qed.

Lemma substring_0_prefix (n : nat) (s : string) :
  String.prefix (String.substring 0 n s) s = true.
Proof.
  revert s. induction n as [|n IH]; intros [|c s]; simpl; try done.
  destruct (Ascii.ascii_dec c c); [apply IH | done].
Qed.

(** X9.  After a counted failure, in any state, the record holds the time
    of the failure and a last-error text that is a prefix of the error's
    message (of [String(error)] for a value that is not an [Error]) of at
    most 200 characters. *)
Theorem lastError_is_truncated_message this e t reg :
  shouldIgnoreError this e = false ->
  exists m,
    lastError (getState this (onFailure this e t reg)) = Some m /\
    (String.length m <= 200)%nat /\
    String.prefix m (if Js.instanceofError e then Js.message e else Js.toString e)
      = true /\
    lastFailureTime (getState this (onFailure this e t reg)) = Some t.
Proof.
  intros Hi. eexists.
  destruct (state (getState this reg)) eqn:Hs.
  - rewrite (getState_onFailure_closed _ _ _ _ Hi Hs). cbv zeta.
    destruct (_ >=? _); simpl;
      (split; [reflexivity|]; split; [apply substring_0_length|];
       split; [apply substring_0_prefix | done]).
  - rewrite (getState_onFailure_open _ _ _ _ Hi Hs). simpl.
    split; [reflexivity|]; split; [apply substring_0_length|];
       split; [apply substring_0_prefix | done].
  - rewrite (getState_onFailure_half_open _ _ _ _ Hi Hs). simpl.
    split; [reflexivity|]; split; [apply substring_0_length|];
       split; [apply substring_0_prefix | done].
Qed.

Lemma lastError_is_truncated_witness :
  exists m,
    lastError (getState exampleBreaker
                 (onFailure exampleBreaker (statusError "boom" 500) 1000 ∅))
      = Some m /\
    (String.length m <= 200)%nat /\
    String.prefix m "boom" = true /\
    lastFailureTime (getState exampleBreaker
                       (onFailure exampleBreaker (statusError "boom" 500) 1000 ∅))
      = Some 1000.
Proof.
  apply (lastError_is_truncated_message exampleBreaker (statusError "boom" 500)
           1000 ∅ eq_refl).
Defined.

Lemma stats_ext this t reg reg' :
  getState this reg = getState this reg' -> stats this t reg = stats this t reg'.
Proof. intros H. unfold stats, remainingTimeoutMs. by rewrite H. Qed.

(** X10.  [reset] makes a handle report exactly what a handle on a
    never-used registry reports, and leaves the other records alone;
    [resetAll] does so for every handle at once and keeps the set of
    registered names; after [clearAll] a handle still works and again
    reports the fresh state. *)
Theorem reset_gives_fresh_breaker this t reg :
  stats this t (reset this reg) = stats this t ∅ /\
  (forall name, name <> _name this -> reset this reg !! name = reg !! name) /\
  stats this t (resetAll reg) = stats this t ∅ /\
  dom (resetAll reg) = dom reg /\
  stats this t (clearAll reg) = stats this t ∅.
Proof.
  split; [|split; [|split; [|split]]].
  - apply stats_ext. unfold getState, reset. by rewrite lookup_insert_eq.
  - intros name Hne. unfold reset. by rewrite lookup_insert_ne.
  - apply stats_ext. unfold getState, resetAll. rewrite lookup_fmap.
    by destruct (reg !! _name this).
  - unfold resetAll. apply dom_fmap_L.
  - done.
Qed.

(** X11.  [getAllStats] has an entry for exactly the registered names and
    reports each record's state and counters, but it computes the
    remaining time with the EXTERNAL_API reset time of 30000 ms, whatever
    configuration the breaker is used with: for an open record it
    reports [max(0, 30000 - elapsed)], where the handle's own [stats]
    reports [max(0, resetTimeoutMs - elapsed)]. *)
Theorem getAllStats_uses_external_api_reset this t reg s o :
  reg !! _name this = Some s ->
  state s = open -> openedAt s = Some o -> o <> 0 ->
  dom (getAllStats t reg) = dom reg /\
  exists st,
    getAllStats t reg !! _name this = Some st /\
    stats_state st = open /\
    stats_failureCount st = failureCount s /\
    stats_remainingTimeoutMs st = Z.max 0 (30000 - (t - o)) /\
    stats_remainingTimeoutMs (stats this t reg)
      = Z.max 0 (resetTimeoutMs (_config this) - (t - o)).
Proof.
  intros Hreg Hs Ho Hne. split.
  - unfold getAllStats. apply set_eq. intros name.
    rewrite !elem_of_dom, map_lookup_imap.
    destruct (reg !! name); simpl; split; intros [x Hx]; by eauto.
  - eexists. unfold getAllStats. rewrite map_lookup_imap, Hreg. simpl.
    split; [reflexivity|].
    unfold stats, remainingTimeoutMs, getState. simpl. rewrite Hreg. simpl.
    rewrite Hs, Ho. simpl. destruct (Z.eqb_spec o 0); [done|]. simpl.
    repeat split.
    + destruct (Z.gtb_spec (30000 - (t - o)) 0); lia.
    + destruct (Z.gtb_spec (resetTimeoutMs (_config this) - (t - o)) 0); lia.
Qed.

Lemma getAllStats_witness :
  exists st,
    getAllStats 1500 (circuitRegistry (openWorld 1500)) !! "svc" = Some st /\
    stats_remainingTimeoutMs st = 29400 /\
    stats_remainingTimeoutMs
      (stats exampleBreaker 1500 (circuitRegistry (openWorld 1500))) = 400.
Proof.
  destruct (getAllStats_uses_external_api_reset exampleBreaker 1500
              (circuitRegistry (openWorld 1500))
              {| state := open; failureCount := 2; successCount := 0;
                 lastFailureTime := Some 900; openedAt := Some 900;
                 lastError := Some "boom" |} 900)
    as (_ & st & Hst & _ & _ & Hall & Hown);
    [vm_compute; reflexivity | reflexivity | reflexivity | lia |].
  exists st. split; [exact Hst|]. split; [rewrite Hall | rewrite Hown]; reflexivity.
Defined.

(** X12.  [forceOpen] makes the breaker reject the next call with the full
    [resetTimeoutMs] to wait (for a positive reset time and a clock that
    does not read zero), without invoking the operation; [forceClose]
    makes the next call invoke the operation and zeroes the failure
    counter. *)
Theorem forceOpen_rejects_forceClose_admits {T} this (op : Op T) w :
  now w <> 0 -> 0 < resetTimeoutMs (_config this) ->
  let opened := setRegistry (forceOpen this (now w) (circuitRegistry w)) w in
  let closed_ := setRegistry (forceClose this (now w) (circuitRegistry w)) w in
  call this op opened =
    (Throw (CircuitBreakerOpenError (_name this) (resetTimeoutMs (_config this))),
     opened) /\
  fst (call this op closed_) = fst (op closed_) /\
  failureCount (getState this (circuitRegistry closed_)) = 0.
Proof.
  intros Hne Hr opened closed_. split; [|split].
  - rewrite (call_rejects_while_open this op opened (now w)).
    + unfold opened. rewrite now_setRegistry, Z.sub_diag, Z.sub_0_r. done.
    + unfold opened, forceOpen.
      by rewrite registry_setRegistry, getState_transitionTo.
    + unfold opened, forceOpen.
      by rewrite registry_setRegistry, getState_transitionTo.
    + done.
    + unfold opened. rewrite now_setRegistry. lia.
  - rewrite (call_not_open this op closed_).
    + by destruct (op closed_) as [[v|e] w2].
    + unfold closed_, forceClose.
      by rewrite registry_setRegistry, getState_transitionTo.
  - unfold closed_, forceClose.
    by rewrite registry_setRegistry, getState_transitionTo.
Qed.

Lemma forceOpen_rejects_witness :
  fst (call exampleBreaker returning
         (setRegistry (forceOpen exampleBreaker 1000 ∅) (freshWorld 1000)))
  = Throw (CircuitBreakerOpenError "svc" 1000).
Proof.
  pose proof (forceOpen_rejects_forceClose_admits exampleBreaker returning
                (freshWorld 1000)) as H.
  cbv zeta in H. destruct H as (Hopen & _); [vm_compute; congruence | reflexivity |].
  change (now (freshWorld 1000)) with 1000 in Hopen.
  change (circuitRegistry (freshWorld 1000)) with (∅ : gmap string CircuitBreakerState) in Hopen.
  rewrite Hopen. reflexivity.
Defined.

End BreakerRegistry.

(** ** The retry loop on scripted operations *)

Section RetryBehaviour.
Import Types Runtime Retry Scenario Script.

Lemma requests_sleep ms w : requests (sleep ms w) = requests w.
Proof. reflexivity. Qed.

Lemma registry_sleep ms w : circuitRegistry (sleep ms w) = circuitRegistry w.
Proof. reflexivity. Qed.

Context {T : Type}.
Variable config : RetryConfig.
Variable random : Z -> Number.number.

(** The loop on a script: [k] retryable failures, then a value. *)
Lemma retryLoop_scripted_success (script : nat -> Result Js.Value T) d v :
  forall (k fuel : nat) attempt lastError w,
    (k < fuel)%nat ->
    attempt + Z.of_nat k <= maxAttempts config ->
    (forall i, (i < k)%nat ->
       exists e, script (requests w + i)%nat = Throw e /\
                 isRetryableError e config = true) ->
    script (requests w + k)%nat = Ok v ->
    exists w',
      retryLoop (scripted script d) config None random fuel attempt lastError w
        = Some (Ok v, w') /\
      requests w' = (requests w + k + 1)%nat /\
      circuitRegistry w' = circuitRegistry w.
Proof.
  induction k as [|k IH]; intros fuel attempt lastError w Hfuel Hatt Hfail Hok.
  - destruct fuel as [|fuel]; [lia|]. simpl.
    destruct (Z.leb_spec attempt (maxAttempts config)); [|lia].
    unfold scripted at 1. rewrite Nat.add_0_r in Hok. rewrite Hok.
    eexists. split; [reflexivity|]. simpl. split; [lia | done].
  - destruct fuel as [|fuel]; [lia|]. simpl.
    destruct (Z.leb_spec attempt (maxAttempts config)); [|lia].
    destruct (Hfail 0%nat) as (e & He & Hr); [lia|].
    rewrite Nat.add_0_r in He.
    unfold scripted at 1. rewrite He.
    destruct (Z.geb_spec attempt (maxAttempts config)); [lia|].
    rewrite Hr. simpl negb. cbv iota.
    assert (He' : Js.instanceofError e = true).
    { unfold isRetryableError in Hr. by destruct (Js.instanceofError e). }
    rewrite He'.
    edestruct (IH fuel (attempt + 1) (Some e)
                 (sleep (calculateRetryDelay attempt config (random attempt))
                        (elapse d (countRequest w)))) as (w' & H1 & H2 & H3).
    + lia.
    + lia.
    + intros i Hi. rewrite requests_sleep. simpl requests.
      destruct (Hfail (S i)) as (e' & He1 & He2); [lia|].
      exists e'. split; [|done]. rewrite <- He1. f_equal. lia.
    + rewrite requests_sleep. simpl requests. rewrite <- Hok. f_equal. lia.
    + exists w'. split; [exact H1|]. split.
      * rewrite H2, requests_sleep. simpl. lia.
      * by rewrite H3.
Qed.

(** The loop on a script that only holds retryable failures. *)
Lemma retryLoop_scripted_exhaust (script : nat -> Result Js.Value T) d :
  (forall i, exists e, script i = Throw e /\ isRetryableError e config = true) ->
  forall (n fuel : nat) attempt lastError w,
    (n < fuel)%nat ->
    attempt + Z.of_nat n = maxAttempts config ->
    exists e w',
      retryLoop (scripted script d) config None random fuel attempt lastError w
        = Some (Throw (exhausted config (Some e)), w') /\
      requests w' = (requests w + n + 1)%nat /\
      script (requests w + n)%nat = Throw e.
Proof.
  intros Hall. induction n as [|n IH]; intros fuel attempt lastError w Hfuel Hatt.
  - destruct fuel as [|fuel]; [lia|]. simpl.
    destruct (Z.leb_spec attempt (maxAttempts config)); [|lia].
    destruct (Hall (requests w)) as (e & He & Hr).
    unfold scripted at 1. rewrite He.
    assert (He' : Js.instanceofError e = true).
    { unfold isRetryableError in Hr. by destruct (Js.instanceofError e). }
    rewrite He'.
    destruct (Z.geb_spec attempt (maxAttempts config)); [|lia].
    exists e. eexists. split; [reflexivity|]. simpl.
    split; [lia|]. by rewrite Nat.add_0_r.
  - destruct fuel as [|fuel]; [lia|]. simpl.
    destruct (Z.leb_spec attempt (maxAttempts config)); [|lia].
    destruct (Hall (requests w)) as (e & He & Hr).
    unfold scripted at 1. rewrite He.
    assert (He' : Js.instanceofError e = true).
    { unfold isRetryableError in Hr. by destruct (Js.instanceofError e). }
    rewrite He'.
    destruct (Z.geb_spec attempt (maxAttempts config)); [lia|].
    rewrite Hr. simpl negb. cbv iota.
    edestruct (IH fuel (attempt + 1) (Some e)
                 (sleep (calculateRetryDelay attempt config (random attempt))
                        (elapse d (countRequest w)))) as (e' & w' & H1 & H2 & H3).
    + lia.
    + lia.
    + exists e', w'. split; [exact H1|].
      rewrite requests_sleep in H2, H3. simpl requests in H2, H3. split.
      * lia.
      * rewrite <- H3. f_equal. lia.
Qed.

End RetryBehaviour.

Section RetryExtras.
Import Types Runtime Retry Scenario Script.

(** X13.  When the first [k] invocations fail with retryable errors and
    the next one returns a value, with [k < maxAttempts], [withRetry]
    returns that value after exactly [k + 1] invocations and leaves the
    breaker registry alone. *)
Theorem withRetry_returns_first_success {T} config random
    (script : nat -> Result Js.Value T) d v (k : nat) w :
  Z.of_nat k < maxAttempts config ->
  (forall i, (i < k)%nat ->
     exists e, script (requests w + i)%nat = Throw e /\
               isRetryableError e config = true) ->
  script (requests w + k)%nat = Ok v ->
  exists w',
    withRetry (scripted script d) config None random w = Some (Ok v, w') /\
    requests w' = (requests w + k + 1)%nat /\
    circuitRegistry w' = circuitRegistry w.
Proof.
  intros Hk Hfail Hok. unfold withRetry.
  apply retryLoop_scripted_success; [lia | lia | done | done].
Qed.

Lemma withRetry_returns_first_success_witness :
  exists w',
    withRetry (scripted flakyScript 5) config3 None (fun _ => Number.ofZ 0) (freshWorld 1000)
      = Some (Ok 42, w') /\
    requests w' = 3%nat /\
    circuitRegistry w' = ∅.
Proof.
  apply (withRetry_returns_first_success config3 (fun _ => Number.ofZ 0) flakyScript 5 42
           2 (freshWorld 1000)).
  - reflexivity.
  - intros i Hi. exists (statusError "unavailable" 503).
    destruct i as [|[|i]]; [split; reflexivity | split; reflexivity | lia].
  - reflexivity.
Defined.

(** X14.  When every invocation fails with a retryable error and
    [maxAttempts >= 1], [withRetry] invokes the operation exactly
    [maxAttempts] times and throws a [RetryError] whose [attempts] is
    [maxAttempts] and whose [lastError] is the error of the last
    invocation. *)
Theorem withRetry_exhausts_after_maxAttempts {T} config random
    (script : nat -> Result Js.Value T) d w :
  1 <= maxAttempts config ->
  (forall i, exists e, script i = Throw e /\ isRetryableError e config = true) ->
  exists err w',
    withRetry (scripted script d) config None random w = Some (Throw err, w') /\
    attempts err = maxAttempts config /\
    requests w' = (requests w + Z.to_nat (maxAttempts config))%nat /\
    script (requests w + Z.to_nat (maxAttempts config) - 1)%nat
      = Throw (lastError err).
Proof.
  intros Hmax Hall. unfold withRetry.
  destruct (retryLoop_scripted_exhaust config random script d Hall
              (Z.to_nat (maxAttempts config) - 1) (Z.to_nat (maxAttempts config))
              1 None w) as (e & w' & H1 & H2 & H3); [lia | lia |].
  exists (exhausted config (Some e)), w'. split; [exact H1|]. simpl.
  split; [done|]. split; [lia|].
  rewrite <- H3. f_equal. lia.
Qed.

Lemma withRetry_exhausts_witness :
  exists err w',
    withRetry (scripted failingScript 5) config3 None (fun _ => Number.ofZ 0)
              (freshWorld 1000) = Some (Throw err, w') /\
    attempts err = 3 /\
    requests w' = 3%nat /\
    failingScript 2%nat = Throw (lastError err).
Proof.
  apply (withRetry_exhausts_after_maxAttempts config3 (fun _ => Number.ofZ 0)
           failingScript 5 (freshWorld 1000)).
  - simpl. lia.
  - intros i. exists (statusError "unavailable" 503). split; reflexivity.
Defined.

(** X15.  With [maxAttempts <= 0] the operation is never invoked:
    [withRetry] throws at once a [RetryError] whose [lastError] is a new
    [Error("Unknown error")] and whose message ends in [undefined]; the
    world is untouched and the callback is not called. *)
Theorem withRetry_without_attempts {T} (operation : Op T) config onRetry random w :
  maxAttempts config <= 0 ->
  withRetry operation config onRetry random w
  = Some (Throw {| retry_message :=
                     "Operation failed after "
                       ++ Js.numberToString (maxAttempts config)
                       ++ " attempts: undefined";
                   attempts := maxAttempts config;
                   lastError := Js.newError "Unknown error" |}, w).
Proof.
  intros Hmax. unfold withRetry.
  replace (Z.to_nat (maxAttempts config)) with 0%nat by lia. simpl.
  destruct (Z.leb_spec 1 (maxAttempts config)); [lia | done].
Qed.

Lemma withRetry_without_attempts_witness :
  withRetry returning
    {| maxAttempts := 0; baseDelayMs := Number.ofZ 10;
       maxDelayMs := Number.ofZ 100;
       backoffMultiplier := None; jitter := None;
       retryableStatusCodes := None; retryableErrorCodes := None |}
    None (fun _ => Number.ofZ 0) (freshWorld 1000)
  = Some (Throw {| retry_message := "Operation failed after 0 attempts: undefined";
                   attempts := 0;
                   lastError := Js.newError "Unknown error" |}, freshWorld 1000).
Proof.
  apply (withRetry_without_attempts returning
           {| maxAttempts := 0; baseDelayMs := Number.ofZ 10;
              maxDelayMs := Number.ofZ 100;
              backoffMultiplier := None; jitter := None;
              retryableStatusCodes := None; retryableErrorCodes := None |}
           None (fun _ => Number.ofZ 0) (freshWorld 1000)).
  simpl. lia.
Defined.

(** X16.  When the first invocation throws a value that is not retryable
    and [maxAttempts >= 1], [withRetry] stops there: one invocation, no
    callback, no sleep (the world is the one the operation left), and a
    [RetryError] whose [lastError] is an [Error] carrying the message of
    the thrown value. *)
Theorem withRetry_gives_up_on_first_non_retryable {T} config onRetry random
    (script : nat -> Result Js.Value T) d e w :
  1 <= maxAttempts config ->
  script (requests w) = Throw e ->
  isRetryableError e config = false ->
  exists err,
    withRetry (scripted script d) config onRetry random w
      = Some (Throw err, elapse d (countRequest w)) /\
    Js.message (lastError err)
      = (if Js.instanceofError e then Js.message e else Js.toString e) /\
    Js.instanceofError (lastError err) = true.
Proof.
  intros Hmax He Hr. eexists. split.
  - apply withRetry_stops_on_non_retryable; [done| |done].
    unfold scripted. by rewrite He.
  - simpl. by destruct (Js.instanceofError e) eqn:E.
Qed.

Lemma withRetry_gives_up_witness :
  exists err,
    withRetry (scripted notFoundScript 5) config3 None (fun _ => Number.ofZ 0)
              (freshWorld 1000)
      = Some (Throw err, elapse 5 (countRequest (freshWorld 1000))) /\
    Js.message (lastError err) = "Not found" /\
    Js.instanceofError (lastError err) = true.
Proof.
  apply (withRetry_gives_up_on_first_non_retryable config3 None (fun _ => Number.ofZ 0)
           notFoundScript 5 (statusError "Not found" 404) (freshWorld 1000)).
  - simpl. lia.
  - reflexivity.
  - reflexivity.
Defined.

Lemma isRetryableError_CircuitBreakerOpenError name remaining config :
  Js.includesStr (default [] (retryableErrorCodes config)) "CIRCUIT_OPEN" = false ->
  isRetryableError (CircuitBreaker.CircuitBreakerOpenError name remaining) config
  = false.
Proof.
  intros H. unfold isRetryableError. simpl.
  change (Js.parseInt "CIRCUIT_OPEN") with (@None Z). by rewrite H.
Qed.

(** X17.  Retry around an open breaker: while the breaker is open and its
    reset time has not elapsed, [withRetry] over [breaker.call] stops at
    the first attempt (for [maxAttempts >= 1] and a configuration that
    does not list ["CIRCUIT_OPEN"] among its retryable error codes).  The
    operation is not invoked, nothing is slept or written, and the
    [RetryError] carries the [CircuitBreakerOpenError] as [lastError]. *)
Theorem open_breaker_ends_retry_at_once
    {T} this (op : Op T) config onRetry random w o :
  state (CircuitBreaker.getState this (circuitRegistry w)) = open ->
  openedAt (CircuitBreaker.getState this (circuitRegistry w)) = Some o ->
  o <> 0 ->
  now w - o < resetTimeoutMs (CircuitBreaker._config this) ->
  1 <= maxAttempts config ->
  Js.includesStr (default [] (retryableErrorCodes config)) "CIRCUIT_OPEN" = false ->
  withRetry (CircuitBreaker.call this op) config onRetry random w
  = Some (Throw (exhausted config
                   (Some (CircuitBreaker.CircuitBreakerOpenError
                            (CircuitBreaker._name this)
                            (resetTimeoutMs (CircuitBreaker._config this)
                             - (now w - o))))), w).
Proof.
  intros Hs Ho Hne Hlt Hmax Hcodes.
  rewrite (withRetry_stops_on_non_retryable (CircuitBreaker.call this op)
             config onRetry random w _ w Hmax
             (call_rejects_while_open this op w o Hs Ho Hne Hlt)
             (isRetryableError_CircuitBreakerOpenError _ _ _ Hcodes)).
  done.
Qed.

Lemma open_breaker_ends_retry_witness :
  withRetry (CircuitBreaker.call exampleBreaker failing500) config3 None
            (fun _ => Number.ofZ 0) (openWorld 1000)
  = Some (Throw (exhausted config3
                   (Some (CircuitBreaker.CircuitBreakerOpenError "svc" 900))),
          openWorld 1000).
Proof.
  apply (open_breaker_ends_retry_at_once exampleBreaker failing500 config3 None
           (fun _ => Number.ofZ 0) (openWorld 1000) 900).
  - vm_compute. reflexivity.
  - vm_compute. reflexivity.
  - lia.
  - vm_compute. reflexivity.
  - simpl. lia.
  - reflexivity.
Defined.

(** X18.  A [TimeoutError], whatever its label and deadline, is retryable
    under every retry configuration, is never ignored by a breaker under
    any breaker configuration, and is recognised by [isTimeoutError]. *)
Theorem timeout_is_retried_and_counted label ms config this :
  isRetryableError (TimeoutGuard.TimeoutError label ms) config = true /\
  CircuitBreaker.shouldIgnoreError this (TimeoutGuard.TimeoutError label ms)
    = false /\
  TimeoutGuard.isTimeoutError (TimeoutGuard.TimeoutError label ms) = true.
Proof.
  split; [|split; [|done]].
  - unfold isRetryableError. simpl.
    change (Js.parseInt "TIMEOUT") with (@None Z). simpl.
    by destruct (Js.includesStr _ _).
  - unfold CircuitBreaker.shouldIgnoreError. simpl.
    by change (Js.parseInt "TIMEOUT") with (@None Z).
Qed.

(** X19.  For an [Error] without [statusCode], [status] and string [code],
    a boolean [isRetryable] property decides alone: the name and the
    message are not looked at, so an error named ["TimeoutError"] that
    declares [isRetryable: false] is not retried. *)
Theorem isRetryable_flag_overrides_name_and_message e config b :
  Js.instanceofError e = true ->
  Js.statusCode e = None -> Js.status e = None -> Js.code e = None ->
  Js.isRetryable e = Some b ->
  isRetryableError e config = b.
Proof.
  intros H1 H2 H3 H4 H5. unfold isRetryableError.
  by rewrite H1, H2, H3, H4, H5.
Qed.

Lemma isRetryable_flag_witness :
  Js.name finalTimeout = "TimeoutError" /\
  isRetryableError finalTimeout RETRY_EXTERNAL_API = false.
Proof.
  split; [reflexivity|].
  apply (isRetryable_flag_overrides_name_and_message finalTimeout
           RETRY_EXTERNAL_API false eq_refl eq_refl eq_refl eq_refl eq_refl).
Defined.

(** X20.  A thrown value that is not an [Error] is never retried, even when
    it carries a retryable status: for [maxAttempts >= 1] the loop stops
    after that invocation and the [RetryError] holds
    [new Error(String(value))] as [lastError]. *)
Theorem non_Error_failure_is_wrapped_not_retried {T} (operation : Op T)
    config onRetry random w e w1 :
  1 <= maxAttempts config ->
  operation w = (Throw e, w1) ->
  Js.instanceofError e = false ->
  withRetry operation config onRetry random w
  = Some (Throw (exhausted config (Some (Js.newError (Js.toString e)))), w1).
Proof.
  intros Hmax Hop He.
  rewrite (withRetry_stops_on_non_retryable operation config onRetry random
             w e w1 Hmax Hop).
  - by rewrite He.
  - unfold isRetryableError. by rewrite He.
Qed.

Lemma non_Error_failure_witness :
  withRetry (settling (T := unit) (Throw plainObject503) 5) config3 None
            (fun _ => Number.ofZ 0) (freshWorld 1000)
  = Some (Throw (exhausted config3 (Some (Js.newError "[object Object]"))),
          elapse 5 (countRequest (freshWorld 1000))).
Proof.
  apply (non_Error_failure_is_wrapped_not_retried
           (settling (T := unit) (Throw plainObject503) 5) config3 None
           (fun _ => Number.ofZ 0) (freshWorld 1000) plainObject503
           (elapse 5 (countRequest (freshWorld 1000)))).
  - simpl. lia.
  - reflexivity.
  - reflexivity.
Defined.

End RetryExtras.

(** ** The timeout guards *)

Section TimeoutExtras.
Import Types Runtime TimeoutGuard Scenario Script.

(** X21.  [withTimeout] arms its timer with the converted deadline
    [timerDelay ms], which is [ms] itself for a deadline within
    [0 .. 2147483647] and never more than the deadline as long as that
    is not below [-2^31].  It never waits longer than that and touches
    neither the registry nor the request count.  A promise that settles
    by then has its own outcome passed on, value or error; one that
    settles later, or never, gives a [TimeoutError] carrying the
    deadline and the label (["unknown"] when none is given). *)
Theorem withTimeout_waits_at_most_deadline {T} (p : Promise T) ms label w :
  let r := fst (withTimeout p ms label w) in
  let w' := snd (withTimeout p ms label w) in
  let timedOut := Throw (TimeoutError (default "unknown" label) ms) in
  (now w <= now w' <= now w + timerDelay ms) /\
  requests w' = requests w /\ circuitRegistry w' = circuitRegistry w /\
  (forall d, settlesAfter p = Some d -> d <= timerDelay ms -> r = outcome p) /\
  (forall d, settlesAfter p = Some d -> timerDelay ms < d -> r = timedOut) /\
  (settlesAfter p = None -> r = timedOut) /\
  (0 <= ms <= 2147483647 -> timerDelay ms = ms) /\
  (-2147483648 <= ms -> timerDelay ms <= Z.max 0 ms).
Proof.
  cbv zeta. pose proof (timerDelay_nonneg ms) as Hnn.
  assert (Hrange : (0 <= ms <= 2147483647 -> timerDelay ms = ms) /\
                   (-2147483648 <= ms -> timerDelay ms <= Z.max 0 ms)).
  { split; [apply timerDelay_in_range | intros; by apply timerDelay_le]. }
  unfold withTimeout, race, setTimeout. simpl.
  destruct (settlesAfter p) as [d|]; simpl.
  - destruct (Z.leb_spec d (timerDelay ms)); simpl;
      (split; [lia|]; split; [done|]; split; [done|];
       split; [intros ? [= <-] ?; (done || lia)|];
       split; [intros ? [= <-] ?; (done || lia)|done]).
  - split; [lia|]. repeat split; (done || apply Hrange).
Qed.

(** A deadline of [2^31] ms is converted to zero: a promise that would
    settle after 50 ms is timed out at once. *)
Example withTimeout_beyond_32_bits :
  let p := {| settlesAfter := Some 50; outcome := Ok 7 |} in
  timerDelay 2147483648 = 0 /\
  fst (withTimeout p 2147483648 None (freshWorld 1000))
  = Throw (TimeoutError "unknown" 2147483648) /\
  now (snd (withTimeout p 2147483648 None (freshWorld 1000))) = 1000.
Proof. by vm_compute. Qed.

(** X22.  [fetchWithTimeout] issues exactly one request, never waits
    longer than the converted deadline [timerDelay ms] (the deadline
    itself within [0 .. 2147483647]), leaves the registry alone, and
    never throws an [Error] named ["AbortError"]: an abort raised by its
    own timer, or by the transport, comes out as
    [TimeoutError("fetch", timeoutMs)]. *)
Theorem fetchWithTimeout_never_throws_AbortError transport ms w :
  let r := fst (fetchWithTimeout transport ms w) in
  let w' := snd (fetchWithTimeout transport ms w) in
  requests w' = S (requests w) /\
  (now w <= now w' <= now w + timerDelay ms) /\
  (0 <= ms <= 2147483647 -> timerDelay ms = ms) /\
  circuitRegistry w' = circuitRegistry w /\
  (forall e, r = Throw e ->
     Js.instanceofError e && String.eqb (Js.name e) "AbortError" = false) /\
  (forall e d, transport (requests w) = Rejects e d ->
     Js.instanceofError e && String.eqb (Js.name e) "AbortError" = true ->
     r = Throw (TimeoutError "fetch" ms)) /\
  (transport (requests w) = Hangs -> r = Throw (TimeoutError "fetch" ms)).
Proof.
  cbv zeta. pose proof (timerDelay_nonneg ms) as Hnn.
  pose proof (timerDelay_in_range ms) as Hrange.
  unfold fetchWithTimeout, fetch, setTimeout. simpl.
  destruct (transport (requests w)) as [resp d|e d|]; simpl.
  - destruct (Z.leb_spec d (timerDelay ms)); simpl;
      (split; [done|]; split; [lia|]; split; [done|]; split; [done|];
       split; [by intros ? [= <-]|]; split; done).
  - destruct (Z.leb_spec d (timerDelay ms)); simpl.
    + split; [done|]. split; [lia|]. split; [done|]. split; [done|].
      destruct (Js.instanceofError e && String.eqb (Js.name e) "AbortError") eqn:E.
      * split; [by intros ? [= <-]|]. split; [done|done].
      * split; [by intros ? [= <-]|]. split; [|done].
        intros e' d' [= <- _] He. congruence.
    + split; [done|]. split; [lia|]. split; [done|]. split; [done|].
      split; [by intros ? [= <-]|]. split; done.
  - split; [done|]. split; [lia|]. split; [done|]. split; [done|].
    split; [by intros ? [= <-]|]. split; done.
Qed.

End TimeoutExtras.

(** ** The combined call: requests and registry *)

Section PipelineExtras.
Import Types Runtime TimeoutGuard Retry CircuitBreaker Resilience Scenario Script Exports.

Lemma fetchWithTimeout_frame transport ms w :
  requests (snd (fetchWithTimeout transport ms w)) = S (requests w) /\
  circuitRegistry (snd (fetchWithTimeout transport ms w)) = circuitRegistry w.
Proof.
  unfold fetchWithTimeout, fetch, setTimeout. simpl.
  destruct (transport (requests w)) as [resp d|e d|]; simpl;
    try destruct (d <=? timerDelay ms); simpl; done.
Qed.

Lemma operation_frame transport ms w :
  requests (snd (operation transport ms w)) = S (requests w) /\
  circuitRegistry (snd (operation transport ms w)) = circuitRegistry w.
Proof.
  unfold operation.
  pose proof (fetchWithTimeout_frame transport ms w) as H.
  destruct (fetchWithTimeout transport ms w) as [[r|e] w1]; simpl in *;
    [destruct (_ >=? _)|]; done.
Qed.

Lemma operation_atMostOneRequest transport ms :
  atMostOneRequest (operation transport ms).
Proof. intros w. destruct (operation_frame transport ms w) as [H _]. lia. Qed.

Lemma operation_keepsRecord transport ms name :
  keepsRecord name (operation transport ms).
Proof. intros w. destruct (operation_frame transport ms w) as [_ H]. by rewrite H. Qed.

Lemma call_atMostOneRequest {T} this (op : Op T) :
  atMostOneRequest op -> atMostOneRequest (call this op).
Proof.
  intros Hop w. unfold call.
  set (w1 := setRegistry _ w).
  destruct (state (getState this (circuitRegistry w1))); simpl; [|lia|];
    (specialize (Hop w1); destruct (op w1) as [[v|e] w2]; simpl in *; lia).
Qed.

Section Loop.
Context {T : Type}.
Variable op : Op T.
Variable config : RetryConfig.
Variable random : Z -> Number.number.

Lemma retryLoop_requests :
  atMostOneRequest op ->
  forall fuel attempt lastError w r w',
    retryLoop op config None random fuel attempt lastError w = Some (r, w') ->
    (requests w <= requests w'
     <= requests w + Z.to_nat (maxAttempts config + 1 - attempt))%nat.
Proof.
  intros Hop. induction fuel as [|fuel IH]; intros attempt lastError w r w'; simpl.
  - destruct (attempt <=? maxAttempts config); [done|]. intros [= _ <-]. lia.
  - destruct (Z.leb_spec attempt (maxAttempts config)); [|intros [= _ <-]; lia].
    specialize (Hop w). destruct (op w) as [[v|error] w1]; simpl in Hop.
    + intros [= _ <-]. lia.
    + destruct (attempt >=? maxAttempts config); [intros [= _ <-]; lia|].
      destruct (negb (isRetryableError error config)); [intros [= _ <-]; lia|].
      intros Hrec. apply IH in Hrec. rewrite requests_sleep in Hrec. lia.
Qed.

Lemma retryLoop_keepsRecord name :
  keepsRecord name op ->
  forall fuel attempt lastError w r w',
    retryLoop op config None random fuel attempt lastError w = Some (r, w') ->
    circuitRegistry w' !! name = circuitRegistry w !! name.
Proof.
  intros Hop. induction fuel as [|fuel IH]; intros attempt lastError w r w'; simpl.
  - destruct (attempt <=? maxAttempts config); [done|]. by intros [= _ <-].
  - destruct (attempt <=? maxAttempts config); [|by intros [= _ <-]].
    specialize (Hop w). destruct (op w) as [[v|error] w1]; simpl in Hop.
    + by intros [= _ <-].
    + destruct (attempt >=? maxAttempts config); [by intros [= _ <-]|].
      destruct (negb (isRetryableError error config)); [by intros [= _ <-]|].
      intros Hrec. apply IH in Hrec. by rewrite Hrec, registry_sleep.
Qed.
End Loop.

(** The shape of [resilientFetch]: a pipeline run from a prepared world. *)
Lemma resilientFetch_shape transport config random w :
  exists (op : Op Response) (cfg : RetryConfig) (w0 : World),
    requests w0 = requests w /\
    (forall name, name <> serviceNameOf config ->
       circuitRegistry w0 !! name = circuitRegistry w !! name) /\
    (default Unset (circuitBreaker <$> config) = Disabled -> w0 = w) /\
    atMostOneRequest op /\
    (forall name, name <> serviceNameOf config -> keepsRecord name op) /\
    (default Unset (circuitBreaker <$> config) = Disabled ->
     forall name, keepsRecord name op) /\
    (Z.to_nat (maxAttempts cfg) = requestBudget config \/
     default Unset (retry <$> config) = Disabled) /\
    resilientFetch transport config random w =
    match default Unset (retry <$> config) with
    | Disabled =>
        match op w0 with
        | (Ok response, w) => Some (Ok response, w)
        | (Throw e, w) => Some (Throw (Raw e), w)
        end
    | _ =>
        match withRetry op cfg None random w0 with
        | Some (Ok response, w) => Some (Ok response, w)
        | Some (Throw e, w) => Some (Throw (Exhausted e), w)
        | None => None
        end
    end.
Proof.
  unfold resilientFetch, serviceNameOf, requestBudget.
  set (timeoutMs := match config ≫= timeout with
                    | Some (TimeoutNumber ms) => ms
                    | Some (TimeoutObject ms) =>
                        default DEFAULT_TIMEOUTS_EXTERNAL_API ms
                    | None => DEFAULT_TIMEOUTS_EXTERNAL_API
                    end).
  set (name0 := default "unknown" (config ≫= serviceName)).
  set (sw := default Unset (circuitBreaker <$> config)).
  set (rs := default Unset (retry <$> config)).
  set (cfg := match rs with Custom c => c | _ => RETRY_EXTERNAL_API end).
  assert (Hbudget : Z.to_nat (maxAttempts cfg)
                    = match rs with
                      | Disabled => 1%nat
                      | Custom c => Z.to_nat (maxAttempts c)
                      | Unset => Z.to_nat (maxAttempts RETRY_EXTERNAL_API)
                      end \/ rs = Disabled).
  { unfold cfg. destruct rs; auto. }
  assert (Hins : forall c name, name <> name0 ->
            snd (getOrCreate name0 (Some c) (circuitRegistry w)) !! name
            = circuitRegistry w !! name).
  { intros c name Hne. unfold getOrCreate. simpl.
    destruct (circuitRegistry w !! name0); [done|]. by rewrite lookup_insert_ne. }
  destruct sw eqn:Hsw.
  - (* Unset: breaker with the default configuration *)
    destruct (getOrCreate name0 (Some CIRCUIT_BREAKER_EXTERNAL_API)
                (circuitRegistry w)) as [b reg] eqn:Hg.
    assert (Hb : _name b = name0) by (unfold getOrCreate in Hg; by injection Hg as <- _).
    exists (call b (operation transport timeoutMs)), cfg, (setRegistry reg w).
    split; [done|]. split.
    { intros name Hne. rewrite registry_setRegistry.
      specialize (Hins CIRCUIT_BREAKER_EXTERNAL_API name Hne). by rewrite Hg in Hins. }
    split; [done|]. split; [apply call_atMostOneRequest, operation_atMostOneRequest|].
    split.
    { intros name Hne. apply call_keepsRecord; [congruence|].
      apply operation_keepsRecord. }
    split; [done|]. split; [exact Hbudget|]. by destruct rs.
  - (* Disabled *)
    exists (operation transport timeoutMs), cfg, w.
    split; [done|]. split; [done|]. split; [done|].
    split; [apply operation_atMostOneRequest|].
    split; [intros; apply operation_keepsRecord|].
    split; [intros; apply operation_keepsRecord|].
    split; [exact Hbudget|]. by destruct rs.
  - (* Custom *)
    destruct (getOrCreate name0 (Some a) (circuitRegistry w)) as [b reg] eqn:Hg.
    assert (Hb : _name b = name0) by (unfold getOrCreate in Hg; by injection Hg as <- _).
    exists (call b (operation transport timeoutMs)), cfg, (setRegistry reg w).
    split; [done|]. split.
    { intros name Hne. rewrite registry_setRegistry.
      specialize (Hins a name Hne). by rewrite Hg in Hins. }
    split; [done|]. split; [apply call_atMostOneRequest, operation_atMostOneRequest|].
    split.
    { intros name Hne. apply call_keepsRecord; [congruence|].
      apply operation_keepsRecord. }
    split; [done|]. split; [exact Hbudget|]. by destruct rs.
Qed.

Lemma resilientFetch_requests transport config random w :
  exists r w',
    resilientFetch transport config random w = Some (r, w') /\
    (requests w <= requests w' <= requests w + requestBudget config)%nat.
Proof.
  destruct (resilientFetch_shape transport config random w)
    as (op & cfg & w0 & Hreq & _ & _ & Hone & _ & _ & Hb & ->).
  unfold requestBudget in *.
  destruct (default Unset (retry <$> config)) eqn:Hrs.
  - destruct (withRetry_total op cfg None random w0) as [[r w'] H].
    pose proof (retryLoop_requests op cfg random Hone _ _ _ _ _ _ H) as Hle.
    rewrite H. destruct Hb as [Hb|]; [|done].
    destruct r; eexists _, _; (split; [reflexivity|]); lia.
  - specialize (Hone w0).
    destruct (op w0) as [[v|e] w']; simpl in Hone;
      eexists _, _; (split; [reflexivity|]); lia.
  - destruct (withRetry_total op cfg None random w0) as [[r w'] H].
    pose proof (retryLoop_requests op cfg random Hone _ _ _ _ _ _ H) as Hle.
    rewrite H. destruct Hb as [Hb|]; [|done].
    destruct r; eexists _, _; (split; [reflexivity|]); lia.
Qed.

Lemma resilientFetch_keepsRecord transport config random w r w' name :
  resilientFetch transport config random w = Some (r, w') ->
  name <> serviceNameOf config \/
  default Unset (circuitBreaker <$> config) = Disabled ->
  circuitRegistry w' !! name = circuitRegistry w !! name.
Proof.
  destruct (resilientFetch_shape transport config random w)
    as (op & cfg & w0 & _ & Hw0 & Hdis & _ & Hk & Hkd & _ & ->).
  intros H Hcase.
  assert (Hop : keepsRecord name op).
  { destruct Hcase as [Hne|Hd]; [by apply Hk | by apply Hkd]. }
  assert (Hstart : circuitRegistry w0 !! name = circuitRegistry w !! name).
  { destruct Hcase as [Hne|Hd]; [by apply Hw0 | by rewrite (Hdis Hd)]. }
  rewrite <- Hstart.
  destruct (default Unset (retry <$> config)).
  - destruct (withRetry op cfg None random w0) as [[[v|e] w1]|] eqn:E; [| |done];
      injection H as _ <-; by eapply retryLoop_keepsRecord.
  - specialize (Hop w0). destruct (op w0) as [[v|e] w1]; simpl in Hop;
      injection H as _ <-; done.
  - destruct (withRetry op cfg None random w0) as [[[v|e] w1]|] eqn:E; [| |done];
      injection H as _ <-; by eapply retryLoop_keepsRecord.
Qed.

(** X23.  [resilientFetch] always settles, and the number of requests it
    issues is bounded: at most one when retry is disabled, at most
    [maxAttempts] of the retry configuration in force otherwise (3 by
    default). *)
Theorem resilientFetch_settles_within_budget transport config random w :
  exists r w',
    resilientFetch transport config random w = Some (r, w') /\
    (requests w <= requests w' <= requests w + requestBudget config)%nat.
Proof. apply resilientFetch_requests. Qed.

(** X24.  [resilientFetch] reads and writes no breaker record but the one
    named by [serviceName] (["unknown"] when the configuration gives
    none), and with [circuitBreaker: false] it leaves the whole registry
    as it was, even when a record of that name exists. *)
Theorem resilientFetch_leaves_other_records transport config random w r w' :
  resilientFetch transport config random w = Some (r, w') ->
  (forall name, name <> serviceNameOf config ->
     circuitRegistry w' !! name = circuitRegistry w !! name) /\
  (default Unset (circuitBreaker <$> config) = Disabled ->
   circuitRegistry w' = circuitRegistry w).
Proof.
  intros H. split.
  - intros name Hne. eapply resilientFetch_keepsRecord; eauto.
  - intros Hd. apply map_eq. intros name.
    eapply resilientFetch_keepsRecord; eauto.
Qed.

Lemma resilientFetch_leaves_other_records_witness :
  let config :=
    Some {| serviceName := Some "svc"; timeout := None;
            circuitBreaker := Disabled; retry := Unset |} in
  let run := resilientFetch (answering 500) config (fun _ => Number.ofZ 0)
               (openWorld 1000) in
  exists r w',
    run = Some (r, w') /\
    circuitRegistry w' = circuitRegistry (openWorld 1000) /\
    requests w' = 3%nat.
Proof.
  intros config run.
  destruct run as [[r w']|] eqn:E; [|vm_compute in E; congruence].
  exists r, w'. split; [reflexivity|].
  split.
  - apply (resilientFetch_leaves_other_records (answering 500) config
             (fun _ => Number.ofZ 0) (openWorld 1000) r w' E). reflexivity.
  - vm_compute in E. injection E as _ <-. reflexivity.
Defined.

(** X25.  A fetch made by [createResilientFetch(serviceName, ...)] uses the
    breaker of that service name whatever [serviceName] the per-call
    override carries: every other record is left as it was.  The
    override's switches win over the defaults: with [retry: false] in
    the override at most one request is issued, and with
    [circuitBreaker: false] the registry is not touched at all. *)
Theorem createResilientFetch_pins_service_name
    name defaults transport override random w r w' :
  createResilientFetch name defaults transport override random w = Some (r, w') ->
  (forall other, other <> name ->
     circuitRegistry w' !! other = circuitRegistry w !! other) /\
  (retry <$> override = Some Disabled ->
   (requests w' <= S (requests w))%nat) /\
  (circuitBreaker <$> override = Some Disabled ->
   circuitRegistry w' = circuitRegistry w).
Proof.
  unfold createResilientFetch. intros H. split; [|split].
  - intros other Hne.
    eapply resilientFetch_keepsRecord; [exact H|]. left. exact Hne.
  - intros Hr.
    destruct (resilientFetch_requests transport
                (Some (mergeConfig name defaults override)) random w)
      as (r1 & w1 & H1 & Hle).
    rewrite H in H1. injection H1 as <- <-.
    unfold requestBudget, mergeConfig in Hle. simpl in Hle.
    rewrite Hr in Hle. simpl in Hle. lia.
  - intros Hc. apply map_eq. intros other.
    eapply resilientFetch_keepsRecord; [exact H|]. right.
    unfold mergeConfig. simpl. by rewrite Hc.
Qed.

Lemma createResilientFetch_witness :
  let override :=
    Some {| serviceName := Some "elsewhere"; timeout := None;
            circuitBreaker := Unset; retry := Disabled |} in
  let run := createResilientFetch "svc" None (answering 500) override
               (fun _ => Number.ofZ 0) (freshWorld 1000) in
  exists r w',
    run = Some (r, w') /\
    circuitRegistry w' !! "elsewhere" = None /\
    (requests w' <= 1)%nat.
Proof.
  intros override run.
  destruct run as [[r w']|] eqn:E; [|vm_compute in E; congruence].
  exists r, w'. split; [reflexivity|].
  destruct (createResilientFetch_pins_service_name "svc" None (answering 500)
              override (fun _ => Number.ofZ 0) (freshWorld 1000) r w' E)
    as (Hother & Hreq & _).
  split.
  - rewrite Hother; [reflexivity | vm_compute; congruence].
  - apply Hreq. reflexivity.
Defined.

End PipelineExtras.

(** ** The combined call on an open breaker, and the growth of the delay *)

Section FurtherExtras.
Import Types Runtime TimeoutGuard Retry CircuitBreaker Resilience Scenario Script Exports.

(** X26.  While the record of its service is open and the reset time of
    the breaker configuration in force has not elapsed, [resilientFetch]
    fails without issuing any request and without sleeping or writing:
    the world is unchanged.  With retry off the failure is the
    [CircuitBreakerOpenError] itself; with retry on it is the
    [RetryError] of the retry configuration in force, holding the
    [CircuitBreakerOpenError] as [lastError] (for [maxAttempts >= 1] and
    ["CIRCUIT_OPEN"] not listed as a retryable error code, as in every
    preset). *)
Theorem resilientFetch_fails_fast_while_open transport config random w s o cb :
  breakerConfigOf config = Some cb ->
  circuitRegistry w !! serviceNameOf config = Some s ->
  state s = open -> openedAt s = Some o -> o <> 0 ->
  now w - o < resetTimeoutMs cb ->
  (forall rc, retryConfigOf config = Some rc ->
     1 <= maxAttempts rc /\
     Js.includesStr (default [] (retryableErrorCodes rc)) "CIRCUIT_OPEN" = false) ->
  let rejection :=
    CircuitBreakerOpenError (serviceNameOf config)
      (resetTimeoutMs cb - (now w - o)) in
  resilientFetch transport config random w
  = Some (Throw match retryConfigOf config with
                | Some rc => Exhausted (exhausted rc (Some rejection))
                | None => Raw rejection
                end, w).
Proof.
  intros Hcb Hreg Hs Ho Hne Hlt Hrc. cbv zeta.
  unfold resilientFetch, breakerConfigOf, retryConfigOf, serviceNameOf in *.
  set (timeoutMs := match config ≫= timeout with
                    | Some (TimeoutNumber ms) => ms
                    | Some (TimeoutObject ms) =>
                        default DEFAULT_TIMEOUTS_EXTERNAL_API ms
                    | None => DEFAULT_TIMEOUTS_EXTERNAL_API
                    end).
  set (name0 := default "unknown" (config ≫= serviceName)) in *.
  set (sw := default Unset (circuitBreaker <$> config)) in *.
  set (rs := default Unset (retry <$> config)) in *.
  assert (Hsw : match sw with Disabled => false | _ => true end = true
                /\ match sw with Custom c => c | _ => CIRCUIT_BREAKER_EXTERNAL_API end = cb).
  { destruct sw; [by injection Hcb as <- | done | by injection Hcb as <-]. }
  destruct Hsw as [Hu Hc]. rewrite Hu, Hc.
  unfold getOrCreate. simpl. rewrite Hreg. rewrite setRegistry_id.
  set (b := {| _name := name0; _config := cb |}).
  assert (Hcall : call b (operation transport timeoutMs) w
                  = (Throw (CircuitBreakerOpenError name0
                              (resetTimeoutMs cb - (now w - o))), w)).
  { apply (call_rejects_while_open b _ w o); unfold getState; simpl;
      rewrite ?Hreg; done. }
  destruct rs eqn:Hrs; simpl.
  - destruct (Hrc RETRY_EXTERNAL_API eq_refl) as [Hmax Hcodes].
    by rewrite (withRetry_stops_on_non_retryable _ _ None random w _ w Hmax Hcall
                  (isRetryableError_CircuitBreakerOpenError _ _ _ Hcodes)).
  - by rewrite Hcall.
  - destruct (Hrc a eq_refl) as [Hmax Hcodes].
    by rewrite (withRetry_stops_on_non_retryable _ _ None random w _ w Hmax Hcall
                  (isRetryableError_CircuitBreakerOpenError _ _ _ Hcodes)).
Qed.

Lemma resilientFetch_fails_fast_witness :
  let config :=
    Some {| serviceName := Some "svc"; timeout := None;
            circuitBreaker := Custom exampleConfig; retry := Unset |} in
  resilientFetch (answering 200) config (fun _ => Number.ofZ 0) (openWorld 1000)
  = Some (Throw (Exhausted
                   (exhausted RETRY_EXTERNAL_API
                      (Some (CircuitBreakerOpenError "svc" 900)))),
          openWorld 1000).
Proof.
  intros config.
  apply (resilientFetch_fails_fast_while_open (answering 200) config
           (fun _ => Number.ofZ 0) (openWorld 1000)
           {| state := open; failureCount := 2; successCount := 0;
              lastFailureTime := Some 900; openedAt := Some 900;
              Runtime.lastError := Some "boom" |} 900 exampleConfig).
  - reflexivity.
  - vm_compute. reflexivity.
  - reflexivity.
  - reflexivity.
  - lia.
  - vm_compute. reflexivity.
  - intros rc [= <-]. split; [simpl; lia | reflexivity].
Defined.

(** With retry switched off the same call throws the
    [CircuitBreakerOpenError] as it is. *)
Example resilientFetch_fails_fast_without_retry :
  let config :=
    Some {| serviceName := Some "svc"; timeout := None;
            circuitBreaker := Custom exampleConfig; retry := Disabled |} in
  resilientFetch (answering 200) config (fun _ => Number.ofZ 0) (openWorld 1000)
  = Some (Throw (Raw (CircuitBreakerOpenError "svc" 900)), openWorld 1000).
Proof. by vm_compute. Qed.



(** 100, 200, 400, ... up to the cap of 10000 and no further. *)
Example backoff_of_plainBackoff :
  map (fun n => calculateRetryDelay n plainBackoff (Number.ofZ 0))
      [1; 2; 3; 7; 8; 9; 60]
  = map Number.ofZ [100; 200; 400; 6400; 10000; 10000; 10000].
Proof. by vm_compute. Qed.

End FurtherExtras.
(** ** The combined call against a server that answers 5xx *)

Section ServerErrors.
Import Types Runtime TimeoutGuard Retry CircuitBreaker Resilience Scenario Script Exports.

Variable transport : Transport.
Variable status timeoutMs : Z.
Hypothesis Hstatus : 500 <= status.
Hypothesis Hanswer :
  forall i, exists d,
    transport i = Responds {| response_status := status |} d /\
    d <= timerDelay timeoutMs.

(** The inner operation turns the response into a thrown error. *)
Lemma operation_5xx w :
  exists w1,
    operation transport timeoutMs w = (Throw (httpError status), w1) /\
    requests w1 = S (requests w) /\
    circuitRegistry w1 = circuitRegistry w.
Proof.
  destruct (Hanswer (requests w)) as (d & Hd & Hle).
  unfold operation, fetchWithTimeout, fetch, setTimeout. simpl. rewrite Hd.
  destruct (Z.leb_spec d (timerDelay timeoutMs)); [|lia]. simpl.
  destruct (Z.geb_spec status 500); [|lia].
  eexists. split; [reflexivity|]. done.
Qed.

(** Through a closed breaker with room for one more failure, the error
    is thrown on and counted. *)
Lemma call_5xx this w :
  Js.includesZ (default [] (ignoredStatusCodes (_config this))) status = false ->
  state (getState this (circuitRegistry w)) = closed ->
  failureCount (getState this (circuitRegistry w)) + 1
    < failureThreshold (_config this) ->
  exists w1,
    call this (operation transport timeoutMs) w = (Throw (httpError status), w1) /\
    requests w1 = S (requests w) /\
    is_Some (circuitRegistry w1 !! _name this) /\
    state (getState this (circuitRegistry w1)) = closed /\
    failureCount (getState this (circuitRegistry w1))
      = failureCount (getState this (circuitRegistry w)) + 1 /\
    Runtime.lastError (getState this (circuitRegistry w1))
      = Some (String.substring 0 200 (Js.message (httpError status))).
Proof.
  intros Hign Hs Hroom.
  rewrite call_not_open by congruence.
  destruct (operation_5xx w) as (w1 & -> & Hreq & Hreg).
  eexists. split; [reflexivity|]. rewrite registry_setRegistry, Hreg.
  assert (Hi : shouldIgnoreError this (httpError status) = false)
    by (by rewrite shouldIgnoreError_httpError).
  split; [done|]. split.
  { unfold onFailure. rewrite Hi. cbv zeta. rewrite Hs.
    destruct (_ >=? _); apply presence_setState. }
  rewrite (getState_onFailure_closed _ _ _ _ Hi Hs). cbv zeta.
  destruct (Z.geb_spec (failureCount (getState this (circuitRegistry w)) + 1)
              (failureThreshold (_config this))); [lia|]. done.
Qed.

(** The retry loop over an operation that keeps failing with one
    retryable error, an invariant being carried from attempt to
    attempt. *)
Lemma retryLoop_all_fail {T} (op : Op T) config random e
    (Inv : nat -> World -> Prop) (N : nat) :
  Js.instanceofError e = true ->
  isRetryableError e config = true ->
  Z.of_nat N = maxAttempts config ->
  (forall i w, (i < N)%nat -> Inv i w ->
     exists w1, op w = (Throw e, w1) /\ Inv (S i) w1) ->
  (forall i w ms, Inv i w -> Inv i (sleep ms w)) ->
  forall (k fuel : nat) lastError w i,
    (k < fuel)%nat -> (i + k + 1 = N)%nat -> Inv i w ->
    exists w',
      retryLoop op config None random fuel (Z.of_nat i + 1) lastError w
        = Some (Throw (exhausted config (Some e)), w') /\
      Inv N w'.
Proof.
  intros He Hr HN Hstep Hsleep.
  induction k as [|k IH]; intros fuel lastError w i Hfuel Hi Hinv;
    (destruct fuel as [|fuel]; [lia|]); simpl;
    (destruct (Z.leb_spec (Z.of_nat i + 1) (maxAttempts config)); [|lia]);
    (destruct (Hstep i w) as (w1 & -> & Hinv1); [lia | done |]);
    rewrite He.
  - destruct (Z.geb_spec (Z.of_nat i + 1) (maxAttempts config)); [|lia].
    exists w1. split; [done|]. by replace N with (S i) by lia.
  - destruct (Z.geb_spec (Z.of_nat i + 1) (maxAttempts config)); [lia|].
    rewrite Hr. simpl negb. cbv iota.
    replace (Z.of_nat i + 1 + 1) with (Z.of_nat (S i) + 1) by lia.
    apply IH; [lia | lia | by apply Hsleep].
Qed.

(** The tail of [resilientFetch]: the retry layer, or none, around an
    operation that keeps failing with the promoted error. *)
Lemma pipeline_all_fail (op : Op Response) (rc : option RetryConfig) random
    (Inv : nat -> World -> Prop) w0 :
  let e := httpError status in
  let n := match rc with
           | Some c => if isRetryableError e c then Z.to_nat (maxAttempts c)
                       else 1%nat
           | None => 1%nat
           end in
  (forall c, rc = Some c -> 1 <= maxAttempts c) ->
  (forall i w, (i < n)%nat -> Inv i w ->
     exists w1, op w = (Throw e, w1) /\ Inv (S i) w1) ->
  (forall i w ms, Inv i w -> Inv i (sleep ms w)) ->
  Inv 0%nat w0 ->
  exists w',
    match rc with
    | Some c =>
        match withRetry op c None random w0 with
        | Some (Ok response, w) => Some (Ok response, w)
        | Some (Throw e, w) => Some (Throw (Exhausted e), w)
        | None => None
        end
    | None =>
        match op w0 with
        | (Ok response, w) => Some (Ok response, w)
        | (Throw e, w) => Some (Throw (Raw e), w)
        end
    end
    = Some (Throw match rc with
                  | Some c => Exhausted (exhausted c (Some e))
                  | None => Raw e
                  end, w') /\
    Inv n w'.
Proof.
  intros e n Hmax Hstep Hsleep H0. subst n.
  destruct rc as [c|].
  - specialize (Hmax c eq_refl).
    destruct (isRetryableError e c) eqn:Hr.
    + destruct (retryLoop_all_fail op c random e Inv (Z.to_nat (maxAttempts c))
                  eq_refl Hr ltac:(lia) Hstep Hsleep
                  (Z.to_nat (maxAttempts c) - 1) (Z.to_nat (maxAttempts c))
                  None w0 0%nat) as (w' & Hloop & Hinv); [lia | lia | done |].
      exists w'. unfold withRetry. change (Z.of_nat 0 + 1) with 1 in Hloop.
      by rewrite Hloop.
    + destruct (Hstep 0%nat w0) as (w1 & Hop & Hinv); [lia | done |].
      exists w1.
      by rewrite (withRetry_stops_on_non_retryable op c None random w0 e w1
                    Hmax Hop Hr).
  - destruct (Hstep 0%nat w0) as (w1 & -> & Hinv); [lia | done |].
    by exists w1.
Qed.

End ServerErrors.

Section ServerErrorClaim.
Import Types Runtime TimeoutGuard Retry CircuitBreaker Resilience Scenario Script Exports.

(** C3.  A server that answers every request, within the deadline, with
    a status of 500 or more.  [resilientFetch] promotes each such
    response to a thrown [Error] whose [statusCode] is that status, and
    both layers act on it.  The retry layer classifies it: when the
    status is retryable all [maxAttempts] requests are made, otherwise
    one, and the [RetryError] thrown in the end holds the promoted error
    as [lastError]; with retry off the promoted error itself is thrown.
    The breaker counts it: for a status it does not ignore, and from a
    closed record with room for them, the failure counter has grown by
    one for every request made and the last-error text is that of the
    promoted error.  And whatever the transport and the configuration,
    no response with a status of 500 or more is returned as a success:
    the inner operation turns any such response into the promoted
    error, which the retry classifier finds retryable when its status
    is in the retryable set, which the breaker ignores exactly when its
    status is in the ignored set, and which a breaker that lets the call
    through hands to [onFailure] and throws on. *)
Theorem resilientFetch_promotes_server_errors
    transport config random w status :
  500 <= status ->
  (forall i, exists d,
      transport i = Responds {| response_status := status |} d /\
      d <= timerDelay (timeoutOf config)) ->
  (forall rc, retryConfigOf config = Some rc -> 1 <= maxAttempts rc) ->
  (forall cb, breakerConfigOf config = Some cb ->
      Js.includesZ (default [] (ignoredStatusCodes cb)) status = false /\
      let s := default initialState (circuitRegistry w !! serviceNameOf config) in
      state s = closed /\
      failureCount s + Z.of_nat (attemptsAgainst config status)
        < failureThreshold cb) ->
  let e := httpError status in
  let n := attemptsAgainst config status in
  exists w',
    resilientFetch transport config random w
    = Some (Throw match retryConfigOf config with
                  | Some rc => Exhausted (exhausted rc (Some e))
                  | None => Raw e
                  end, w') /\
    Js.statusCode e = Some status /\
    requests w' = (requests w + n)%nat /\
    (forall rc, retryConfigOf config = Some rc ->
       Js.includesZ
         (default [429; 500; 502; 503; 504] (retryableStatusCodes rc)) status
       = true ->
       n = Z.to_nat (maxAttempts rc)) /\
    (forall cb, breakerConfigOf config = Some cb ->
       exists s',
         circuitRegistry w' !! serviceNameOf config = Some s' /\
         state s' = closed /\
         failureCount s'
         = failureCount
             (default initialState (circuitRegistry w !! serviceNameOf config))
           + Z.of_nat n /\
         Runtime.lastError s' = Some (String.substring 0 200 (Js.message e))) /\
    (breakerConfigOf config = None -> circuitRegistry w' = circuitRegistry w) /\
    (forall transport' config' random' w0 r w1,
       resilientFetch transport' config' random' w0 = Some (Ok r, w1) ->
       response_status r < 500) /\
    (forall transport' timeoutMs' w0 response w1,
       fetchWithTimeout transport' timeoutMs' w0 = (Ok response, w1) ->
       500 <= response_status response ->
       let e' := httpError (response_status response) in
       operation transport' timeoutMs' w0 = (Throw e', w1) /\
       (forall rc,
          Js.includesZ
            (default [429; 500; 502; 503; 504] (retryableStatusCodes rc))
            (response_status response) = true ->
          isRetryableError e' rc = true) /\
       (forall this,
          shouldIgnoreError this e'
          = Js.includesZ (default [] (ignoredStatusCodes (_config this)))
                         (response_status response)) /\
       (forall this,
          get_state this (circuitRegistry w0) <> open ->
          call this (operation transport' timeoutMs') w0
          = (Throw e',
             setRegistry (onFailure this e' (now w1) (circuitRegistry w1)) w1))).
Proof.
  intros Hstatus Hanswer Hmax Hbreaker e n.
  assert (Hlocal : forall transport' timeoutMs' w0 response w1,
       fetchWithTimeout transport' timeoutMs' w0 = (Ok response, w1) ->
       500 <= response_status response ->
       let e' := httpError (response_status response) in
       operation transport' timeoutMs' w0 = (Throw e', w1) /\
       (forall rc,
          Js.includesZ
            (default [429; 500; 502; 503; 504] (retryableStatusCodes rc))
            (response_status response) = true ->
          isRetryableError e' rc = true) /\
       (forall this,
          shouldIgnoreError this e'
          = Js.includesZ (default [] (ignoredStatusCodes (_config this)))
                         (response_status response)) /\
       (forall this,
          get_state this (circuitRegistry w0) <> open ->
          call this (operation transport' timeoutMs') w0
          = (Throw e',
             setRegistry (onFailure this e' (now w1) (circuitRegistry w1)) w1))).
  { intros transport' timeoutMs' w0 response w1 Hf Hs e'.
    split; [by apply operation_promotes|].
    split; [intros; by apply isRetryableError_httpError|].
    split; [intros; apply shouldIgnoreError_httpError|].
    intros this Hst. rewrite (call_not_open _ _ _ Hst).
    by rewrite (operation_promotes _ _ _ _ _ Hf Hs). }
  assert (Hn : (1 <= n)%nat).
  { unfold n, attemptsAgainst. destruct (retryConfigOf config) as [rc|] eqn:E; [|lia].
    specialize (Hmax rc eq_refl). destruct (isRetryableError _ _); lia. }
  assert (Hclass : forall rc, retryConfigOf config = Some rc ->
            Js.includesZ
              (default [429; 500; 502; 503; 504] (retryableStatusCodes rc)) status
            = true ->
            n = Z.to_nat (maxAttempts rc)).
  { intros rc Hrc Hin. unfold n, attemptsAgainst. rewrite Hrc.
    by rewrite (isRetryableError_httpError _ _ Hin). }
  assert (Hnever : forall transport' config' random' w0 r w1,
            resilientFetch transport' config' random' w0 = Some (Ok r, w1) ->
            response_status r < 500)
    by (intros; by eapply resilientFetch_Ok).
  (* the tail of [resilientFetch], in terms of [retryConfigOf] *)
  assert (Htail : forall (op : Op Response) w0,
    (if match default Unset (retry <$> config) with
        | Disabled => false | _ => true end
     then match withRetry op
                  match default Unset (retry <$> config) with
                  | Custom c => c | _ => RETRY_EXTERNAL_API end
                  None random w0 with
          | Some (Ok response, w) => Some (Ok response, w)
          | Some (Throw e, w) => Some (Throw (Exhausted e), w)
          | None => None
          end
     else match op w0 with
          | (Ok response, w) => Some (Ok response, w)
          | (Throw e, w) => Some (Throw (Raw e), w)
          end)
    = match retryConfigOf config with
      | Some c =>
          match withRetry op c None random w0 with
          | Some (Ok response, w) => Some (Ok response, w)
          | Some (Throw e, w) => Some (Throw (Exhausted e), w)
          | None => None
          end
      | None =>
          match op w0 with
          | (Ok response, w) => Some (Ok response, w)
          | (Throw e, w) => Some (Throw (Raw e), w)
          end
      end).
  { intros op w0. unfold retryConfigOf.
    by destruct (default Unset (retry <$> config)). }
  unfold resilientFetch. fold (timeoutOf config) (serviceNameOf config).
  set (name0 := serviceNameOf config) in *.
  set (f := failureCount (default initialState (circuitRegistry w !! name0))) in *.
  destruct (breakerConfigOf config) as [cb|] eqn:Hcb.
  - (* the breaker is on *)
    destruct (Hbreaker cb eq_refl) as (Hign & Hs & Hroom). cbv zeta in Hs.
    change (f + Z.of_nat n < failureThreshold cb) in Hroom.
    assert (Hsw : match default Unset (circuitBreaker <$> config) with
                  | Disabled => false | _ => true end = true /\
                  match default Unset (circuitBreaker <$> config) with
                  | Custom c => c | _ => CIRCUIT_BREAKER_EXTERNAL_API end = cb).
    { unfold breakerConfigOf in Hcb.
      destruct (default Unset (circuitBreaker <$> config));
        [by injection Hcb as <- | done | by injection Hcb as <-]. }
    destruct Hsw as [-> ->].
    set (b := {| _name := name0; _config := cb |}).
    set (reg0 := match circuitRegistry w !! name0 with
                 | None => <[name0 := initialState]> (circuitRegistry w)
                 | Some _ => circuitRegistry w
                 end).
    change (getOrCreate name0 (Some cb) (circuitRegistry w)) with (b, reg0).
    cbv beta iota. rewrite Htail.
    set (Inv := fun (i : nat) (w1 : World) =>
      requests w1 = (requests w + i)%nat /\
      is_Some (circuitRegistry w1 !! name0) /\
      state (getState b (circuitRegistry w1)) = closed /\
      failureCount (getState b (circuitRegistry w1)) = f + Z.of_nat i /\
      (i = 0%nat \/
       Runtime.lastError (getState b (circuitRegistry w1))
       = Some (String.substring 0 200 (Js.message e)))).
    destruct (pipeline_all_fail status
                (call b (operation transport (timeoutOf config)))
                (retryConfigOf config) random Inv (setRegistry reg0 w))
      as (w' & Hrun & Hinv).
    + exact Hmax.
    + intros i w1 Hi (Hreq & Hpres & Hst & Hfc & _).
      destruct (call_5xx transport status (timeoutOf config) Hstatus Hanswer b w1)
        as (w2 & Hcall & Hreq2 & Hpres2 & Hst2 & Hfc2 & Hle2);
        [done | done | change (i < n)%nat in Hi; simpl; lia |].
      exists w2. split; [done|]. unfold Inv.
      split; [lia|]. split; [done|]. split; [done|]. split; [lia | by right].
    + intros i w1 ms H. exact H.
    + unfold Inv. rewrite registry_setRegistry. simpl.
      assert (Hget : getState b reg0
                     = default initialState (circuitRegistry w !! name0)).
      { unfold getState, reg0. simpl.
        destruct (circuitRegistry w !! name0) eqn:E; [by rewrite E|].
        by rewrite lookup_insert_eq. }
      rewrite Hget. split; [lia|]. split.
      { unfold reg0. destruct (circuitRegistry w !! name0) eqn:E.
        - rewrite E. by eexists.
        - rewrite lookup_insert_eq. by eexists. }
      split; [done|]. split; [fold f; lia | by left].
    + fold e in Hrun. fold n (attemptsAgainst config status) in Hinv.
      change (match retryConfigOf config with
              | Some c => if isRetryableError e c
                          then Z.to_nat (maxAttempts c) else 1%nat
              | None => 1%nat
              end) with n in Hinv.
      destruct Hinv as (Hreq & [s' Hs'] & Hst & Hfc & Hlast).
      exists w'. split; [exact Hrun|]. split; [done|]. split; [done|].
      split; [exact Hclass|]. split; [|split; [done | split; [exact Hnever | exact Hlocal]]].
      intros cb' [= <-]. exists s'.
      unfold getState in Hst, Hfc, Hlast. simpl in Hst, Hfc, Hlast.
      rewrite Hs' in Hst, Hfc, Hlast. simpl in Hst, Hfc, Hlast.
      split; [done|]. split; [done|]. split; [done|].
      destruct Hlast as [?|?]; [lia | done].
  - (* the breaker is off *)
    assert (Hsw : default Unset (circuitBreaker <$> config) = Disabled).
    { unfold breakerConfigOf in Hcb.
      by destruct (default Unset (circuitBreaker <$> config)). }
    rewrite Hsw. cbv beta iota. rewrite Htail.
    set (Inv := fun (i : nat) (w1 : World) =>
      requests w1 = (requests w + i)%nat /\
      circuitRegistry w1 = circuitRegistry w).
    destruct (pipeline_all_fail status
                (operation transport (timeoutOf config))
                (retryConfigOf config) random Inv w)
      as (w' & Hrun & Hinv).
    + exact Hmax.
    + intros i w1 Hi (Hreq & Hreg).
      destruct (operation_5xx transport status (timeoutOf config) Hstatus Hanswer w1)
        as (w2 & Hop & Hreq2 & Hreg2).
      exists w2. split; [done|]. unfold Inv. split; [lia | congruence].
    + intros i w1 ms H. exact H.
    + unfold Inv. split; [lia | done].
    + fold e in Hrun.
      change (match retryConfigOf config with
              | Some c => if isRetryableError e c
                          then Z.to_nat (maxAttempts c) else 1%nat
              | None => 1%nat
              end) with n in Hinv.
      destruct Hinv as (Hreq & Hreg).
      exists w'. split; [exact Hrun|]. split; [done|]. split; [done|].
      split; [exact Hclass|]. split; [done|]. split; [done|].
      split; [exact Hnever | exact Hlocal].
Qed.

Lemma resilientFetch_promotes_witness :
  exists w',
    resilientFetch (answering 503) None (fun _ => Number.ofZ 0) (freshWorld 1000)
    = Some (Throw (Exhausted (exhausted RETRY_EXTERNAL_API (Some (httpError 503)))),
            w') /\
    requests w' = 3%nat /\
    (failureCount <$> circuitRegistry w' !! "unknown") = Some 3 /\
    (Runtime.lastError <$> circuitRegistry w' !! "unknown")
    = Some (Some "HTTP 503").
Proof.
  destruct (resilientFetch_promotes_server_errors
              (answering 503) None (fun _ => Number.ofZ 0) (freshWorld 1000) 503)
    as (w' & Hrun & _ & Hreq & _ & Hb & _).
  - lia.
  - intros i. exists 10. split; [reflexivity | by vm_compute].
  - intros rc [= <-]. simpl. lia.
  - intros cb [= <-]. split; [reflexivity|]. split; [reflexivity | by vm_compute].
  - exists w'. split; [exact Hrun|]. split; [exact Hreq|].
    destruct (Hb CIRCUIT_BREAKER_EXTERNAL_API eq_refl) as (s' & Hs' & _ & Hfc & Hle).
    change (serviceNameOf None) with "unknown" in Hs'. rewrite Hs'. simpl.
    split; [by rewrite Hfc | by rewrite Hle].
Defined.

(** A status the retry layer does not retry, 501 under the defaults:
    one request, and the breaker has counted it. *)
Example resilientFetch_501_is_counted_not_retried :
  exists e w',
    resilientFetch (answering 501) None (fun _ => Number.ofZ 0) (freshWorld 1000)
      = Some (Throw (Exhausted e), w') /\
    lastError e = httpError 501 /\
    requests w' = 1%nat /\
    (failureCount <$> circuitRegistry w' !! "unknown") = Some 1.
Proof. eexists _, _. split; [vm_compute; reflexivity|]. by vm_compute. Qed.

End ServerErrorClaim.
